(** * CP216 ARM/Thumb simulator: decoder, execution engine and cache model

    A shallow embedding of [ARM_decoder.py], [thumb_decoder.py], [cache.py]
    and [enhanced_executor.py].  Python integers are [Z]; the bit operators
    [&], [|], [^], [~], [<<], [>>] are [Z.land], [Z.lor], [Z.lxor], [Z.lnot],
    [Z.shiftl], [Z.shiftr], which agree with Python on negative numbers
    (infinite two's complement); [//] and [%] are [Z.div] and [Z.modulo]
    (both floor), with the division by zero that Python raises written out.
    Operand dictionaries are association lists keyed by strings, the byte
    memory and the statistics [defaultdict] are [gmap]s, the register file
    and the cache lines are lists.  Exceptions are explicit. *)

From Stdlib Require Import ZArith List Lia Bool String.
From stdpp Require Import prelude gmap strings.

Local Open Scope string_scope.
Local Open Scope Z_scope.

(** ** Python values and exceptions *)

Inductive exn : Type :=
| KeyError | IndexError | TypeError | ZeroDivisionError | ValueError | AttributeError.

(** [if x:] on an integer. *)
Definition truthy (x : Z) : bool := negb (x =? 0).

(** [l[i]] on a Python list: negative indices count from the end, anything
    else out of range raises [IndexError]. *)
Definition py_norm_index (len i : Z) : option nat :=
  if (0 <=? i) && (i <? len) then Some (Z.to_nat i)
  else if (- len <=? i) && (i <? 0) then Some (Z.to_nat (len + i))
  else None.

Definition py_index {A} (l : list A) (i : Z) : exn + A :=
  match py_norm_index (Z.of_nat (length l)) i with
  | Some n => match l !! n with Some x => inr x | None => inl IndexError end
  | None => inl IndexError
  end.

(** [l[i] = x]. *)
Definition py_setitem {A} (l : list A) (i : Z) (x : A) : exn + list A :=
  match py_norm_index (Z.of_nat (length l)) i with
  | Some n => inr (<[n := x]> l)
  | None => inl IndexError
  end.

(** Operand dictionaries [{'rd': rd, ...}]; [d[k]] raises [KeyError]. *)
Definition operands : Type := list (string * Z).

Fixpoint dict_get (d : operands) (k : string) : option Z :=
  match d with
  | [] => None
  | (k', v) :: d' => if String.eqb k k' then Some v else dict_get d' k
  end.

Definition getitem (d : operands) (k : string) : exn + Z :=
  match dict_get d k with Some v => inr v | None => inl KeyError end.

(** ** ARM decoder ([ARM_decoder.py]) *)

Module ARMDecoder.

(** [ARMDecoder.decode_instruction]; the [address] argument is unused. *)
Definition decode_instruction (instruction : Z) : string * operands :=
  let opcode := Z.land (Z.shiftr instruction 21) 0xF in
  let i_flag := Z.land (Z.shiftr instruction 25) 0x1 in
  let instr_type := Z.land (Z.shiftr instruction 26) 0x3 in
  if (instr_type =? 0) && (Z.land instruction 0x0FC000F0 =? 0x00000090) then
    let rd := Z.land (Z.shiftr instruction 16) 0xF in
    let rm := Z.land instruction 0xF in
    let rs := Z.land (Z.shiftr instruction 8) 0xF in
    ("MUL", [("rd", rd); ("rm", rm); ("rs", rs)])
  else if Z.land instruction 0x0FFFFFF0 =? 0x012FFF10 then
    let rm := Z.land instruction 0xF in
    ("BX", [("rm", rm)])
  else if instr_type =? 0 then
    let rn := Z.land (Z.shiftr instruction 16) 0xF in
    let rd := Z.land (Z.shiftr instruction 12) 0xF in
    let operand2 := Z.land instruction 0xFFF in
    if truthy i_flag then
      let imm := operand2 in
      if opcode =? 13 then ("MOV_IMM", [("rd", rd); ("immediate", imm)])
      else if opcode =? 4 then ("ADD_IMM", [("rd", rd); ("rn", rn); ("immediate", imm)])
      else if opcode =? 2 then ("SUB_IMM", [("rd", rd); ("rn", rn); ("immediate", imm)])
      else if opcode =? 10 then ("CMP_IMM", [("rn", rn); ("immediate", imm)])
      else if opcode =? 0 then ("AND_IMM", [("rd", rd); ("rn", rn); ("immediate", imm)])
      else if opcode =? 1 then ("EOR_IMM", [("rd", rd); ("rn", rn); ("immediate", imm)])
      else if opcode =? 12 then ("ORR_IMM", [("rd", rd); ("rn", rn); ("immediate", imm)])
      else if opcode =? 14 then ("BIC_IMM", [("rd", rd); ("rn", rn); ("immediate", imm)])
      else if opcode =? 15 then ("MVN_IMM", [("rd", rd); ("immediate", imm)])
      else if opcode =? 8 then ("TST_IMM", [("rn", rn); ("immediate", imm)])
      else if opcode =? 9 then ("TEQ_IMM", [("rn", rn); ("immediate", imm)])
      else ("UNKNOWN", [])
    else
      let rm := Z.land instruction 0xF in
      if opcode =? 13 then ("MOV", [("rd", rd); ("rm", rm)])
      else if opcode =? 4 then ("ADD", [("rd", rd); ("rn", rn); ("rm", rm)])
      else if opcode =? 2 then ("SUB", [("rd", rd); ("rn", rn); ("rm", rm)])
      else if opcode =? 10 then ("CMP", [("rn", rn); ("rm", rm)])
      else if opcode =? 0 then ("AND", [("rd", rd); ("rn", rn); ("rm", rm)])
      else if opcode =? 1 then ("EOR", [("rd", rd); ("rn", rn); ("rm", rm)])
      else if opcode =? 12 then ("ORR", [("rd", rd); ("rn", rn); ("rm", rm)])
      else if opcode =? 14 then ("BIC", [("rd", rd); ("rn", rn); ("rm", rm)])
      else if opcode =? 15 then ("MVN", [("rd", rd); ("rm", rm)])
      else if opcode =? 8 then ("TST", [("rn", rn); ("rm", rm)])
      else if opcode =? 9 then ("TEQ", [("rn", rn); ("rm", rm)])
      else ("UNKNOWN", [])
  else if instr_type =? 1 then
    let l_flag := Z.land (Z.shiftr instruction 20) 0x1 in
    let rn := Z.land (Z.shiftr instruction 16) 0xF in
    let rd := Z.land (Z.shiftr instruction 12) 0xF in
    let offset := Z.land instruction 0xFFF in
    if truthy l_flag then ("LDR", [("rd", rd); ("rn", rn); ("offset", offset)])
    else ("STR", [("rd", rd); ("rn", rn); ("offset", offset)])
  else if instr_type =? 2 then
    let link := Z.land (Z.shiftr instruction 24) 0x1 in
    let offset := Z.land instruction 0xFFFFFF in
    let offset := if truthy (Z.land offset 0x800000) then offset - 0x1000000 else offset in
    if truthy link then ("BL", [("offset", offset)])
    else ("B", [("offset", offset)])
  else ("UNKNOWN", []).

(** Every mnemonic literal the decoder can return. *)
Definition mnemonics : list string :=
  ["MUL"; "BX";
   "MOV_IMM"; "ADD_IMM"; "SUB_IMM"; "CMP_IMM"; "AND_IMM"; "EOR_IMM";
   "ORR_IMM"; "BIC_IMM"; "MVN_IMM"; "TST_IMM"; "TEQ_IMM";
   "MOV"; "ADD"; "SUB"; "CMP"; "AND"; "EOR"; "ORR"; "BIC"; "MVN"; "TST"; "TEQ";
   "LDR"; "STR"; "BL"; "B"; "UNKNOWN"].

End ARMDecoder.

(** ** Thumb decoder ([thumb_decoder.py]) *)

Module FixedThumbDecoder.

Definition format3_op_types : list string :=
  ["T_MOV_IMM"; "T_CMP_IMM"; "T_ADD_IMM"; "T_SUB_IMM"].
Definition shift_ops : list string := ["LSL"; "LSR"; "ASR"].
Definition alu_ops : list string :=
  ["AND"; "EOR"; "LSL"; "LSR"; "ASR"; "ADC"; "SBC"; "ROR";
   "TST"; "NEG"; "CMP"; "CMN"; "ORR"; "MUL"; "BIC"; "MVN"].
Definition format5_op_types : list string :=
  ["T_ADD"; "T_CMP"; "T_MOV_HI"; "T_BX"].

(** [f"T_{name}"] *)
Definition t_prefix (name : string) : string := String.append "T_" name.

(** [FixedThumbDecoder.decode_thumb_instruction].  The table lookups can
    raise [IndexError]; the Format 6/7 chain has no final [else], so falling
    through it would return [None], which no caller can unpack
    ([TypeError]). *)
Definition decode_thumb_instruction (instruction : Z) : exn + (string * operands) :=
  let bits_15_13 := Z.land (Z.shiftr instruction 13) 7 in
  let bits_15_11 := Z.land (Z.shiftr instruction 11) 31 in
  let bits_15_10 := Z.land (Z.shiftr instruction 10) 63 in
  if bits_15_13 =? 1 then
    let op := Z.land (Z.shiftr instruction 11) 0x3 in
    let rd := Z.land (Z.shiftr instruction 8) 0x7 in
    let imm8 := Z.land instruction 0xFF in
    match py_index format3_op_types op with
    | inr m => inr (m, [("rd", rd); ("immediate", imm8)])
    | inl e => inl e
    end
  else if bits_15_11 =? 3 then
    let is_imm := Z.land (Z.shiftr instruction 10) 0x1 in
    let op := Z.land (Z.shiftr instruction 9) 0x1 in
    let rn := Z.land (Z.shiftr instruction 6) 0x7 in
    let rs := Z.land (Z.shiftr instruction 3) 0x7 in
    let rd := Z.land instruction 0x7 in
    if truthy is_imm then
      inr (if truthy op then "T_SUB_IMM" else "T_ADD_IMM",
           [("rd", rd); ("rs", rs); ("immediate", rn)])
    else
      inr (if truthy op then "T_SUB" else "T_ADD",
           [("rd", rd); ("rs", rs); ("rn", rn)])
  else if bits_15_13 =? 0 then
    let shift_type := Z.land (Z.shiftr instruction 11) 0x3 in
    let offset := Z.land (Z.shiftr instruction 6) 0x1F in
    let rs := Z.land (Z.shiftr instruction 3) 0x7 in
    let rd := Z.land instruction 0x7 in
    match py_index shift_ops shift_type with
    | inr s => inr (t_prefix s, [("rd", rd); ("rs", rs); ("offset", offset)])
    | inl e => inl e
    end
  else if bits_15_10 =? 16 then
    let alu_op := Z.land (Z.shiftr instruction 6) 0xF in
    let rs := Z.land (Z.shiftr instruction 3) 0x7 in
    let rd := Z.land instruction 0x7 in
    match py_index alu_ops alu_op with
    | inr s => inr (t_prefix s, [("rd", rd); ("rs", rs)])
    | inl e => inl e
    end
  else if bits_15_10 =? 17 then
    let op := Z.land (Z.shiftr instruction 8) 0x3 in
    let h1 := Z.land (Z.shiftr instruction 7) 0x1 in
    let h2 := Z.land (Z.shiftr instruction 6) 0x1 in
    let rs := Z.lor (Z.shiftl h2 3) (Z.land (Z.shiftr instruction 3) 0x7) in
    let rd := Z.lor (Z.shiftl h1 3) (Z.land instruction 0x7) in
    match py_index format5_op_types op with
    | inr m => inr (m, [("rd", rd); ("rs", rs)])
    | inl e => inl e
    end
  else if bits_15_13 =? 2 then
    let bits_12_11 := Z.land (Z.shiftr instruction 11) 3 in
    if bits_12_11 =? 0 then
      let rm := Z.land (Z.shiftr instruction 6) 0x7 in
      let rb := Z.land (Z.shiftr instruction 3) 0x7 in
      let rd := Z.land instruction 0x7 in
      inr ("T_STR_REG", [("rd", rd); ("rb", rb); ("rm", rm)])
    else if bits_12_11 =? 1 then
      let rm := Z.land (Z.shiftr instruction 6) 0x7 in
      let rb := Z.land (Z.shiftr instruction 3) 0x7 in
      let rd := Z.land instruction 0x7 in
      inr ("T_STRH_REG", [("rd", rd); ("rb", rb); ("rm", rm)])
    else if bits_12_11 =? 2 then
      let rm := Z.land (Z.shiftr instruction 6) 0x7 in
      let rb := Z.land (Z.shiftr instruction 3) 0x7 in
      let rd := Z.land instruction 0x7 in
      inr ("T_STRB_REG", [("rd", rd); ("rb", rb); ("rm", rm)])
    else if bits_12_11 =? 3 then
      let rd := Z.land (Z.shiftr instruction 8) 0x7 in
      let offset := Z.land instruction 0xFF in
      inr ("T_LDR_PC", [("rd", rd); ("offset", offset)])
    else inl TypeError
  else if bits_15_13 =? 3 then
    let l_bit := Z.land (Z.shiftr instruction 11) 0x1 in
    let offset := Z.land (Z.shiftr instruction 6) 0x1F in
    let rb := Z.land (Z.shiftr instruction 3) 0x7 in
    let rd := Z.land instruction 0x7 in
    if truthy l_bit then inr ("T_LDR", [("rd", rd); ("rb", rb); ("offset", offset)])
    else inr ("T_STR", [("rd", rd); ("rb", rb); ("offset", offset)])
  else if (Z.shiftr instruction 12 =? 13)
          && negb (Z.land (Z.shiftr instruction 8) 0xF =? 0xF) then
    let condition := Z.land (Z.shiftr instruction 8) 0xF in
    let offset := Z.land instruction 0xFF in
    let offset := if truthy (Z.land offset 0x80) then offset - 0x100 else offset in
    inr ("T_BCC", [("condition", condition); ("offset", offset * 2)])
  else if Z.shiftr instruction 11 =? 28 then
    let offset := Z.land instruction 0x7FF in
    let offset := if truthy (Z.land offset 0x400) then offset - 0x800 else offset in
    inr ("T_B", [("offset", offset * 2)])
  else if Z.land instruction 0xFF00 =? 0xDF00 then
    let imm8 := Z.land instruction 0xFF in
    inr ("T_SWI", [("immediate", imm8)])
  else inr ("T_UNKNOWN", [("raw", instruction)]).

(** Every mnemonic the decoder can return. *)
Definition mnemonics : list string :=
  format3_op_types ++ ["T_SUB"; "T_ADD"] ++ map t_prefix shift_ops
  ++ map t_prefix alu_ops ++ format5_op_types
  ++ ["T_STR_REG"; "T_STRH_REG"; "T_STRB_REG"; "T_LDR_PC"; "T_LDR"; "T_STR";
      "T_BCC"; "T_B"; "T_SWI"; "T_UNKNOWN"].

End FixedThumbDecoder.

(** ** State and exceptions

    A method that mutates [self] and may raise is a function from the state
    to either a value with the new state or an exception with the state as
    it was when the exception was raised. *)

Inductive result (S A : Type) : Type :=
| Ok (a : A) (s : S)
| Raise (e : exn) (s : S).
Arguments Ok {S A} a s.
Arguments Raise {S A} e s.

Definition M (S A : Type) : Type := S -> result S A.

Definition ret {S A} (a : A) : M S A := fun s => Ok a s.
Definition bind {S A B} (m : M S A) (f : A -> M S B) : M S B :=
  fun s => match m s with
           | Ok a s' => f a s'
           | Raise e s' => Raise e s'
           end.
Definition raise {S A} (e : exn) : M S A := fun s => Raise e s.
Definition gets {S A} (f : S -> A) : M S A := fun s => Ok (f s) s.
Definition modify {S} (f : S -> S) : M S unit := fun s => Ok tt (f s).
Definition lift {S A} (r : exn + A) : M S A :=
  fun s => match r with inr a => Ok a s | inl e => Raise e s end.

(** Run a method of a sub-object held in a field of the state. *)
Definition zoom {S T A} (get : S -> T) (set : T -> S -> S) (m : M T A) : M S A :=
  fun s => match m (get s) with
           | Ok a t => Ok a (set t s)
           | Raise e t => Raise e (set t s)
           end.

(** The state a computation ends in, whether it returned or raised. *)
Definition final_state {S A} (r : result S A) : S :=
  match r with Ok _ s => s | Raise _ s => s end.

Declare Scope exec_scope.
Delimit Scope exec_scope with exec.
Notation "x <- m ;; k" := (bind m (fun x => k))
  (at level 100, m at next level, right associativity) : exec_scope.
Notation "m ;; k" := (bind m (fun _ => k))
  (at level 100, right associativity) : exec_scope.
Local Open Scope exec_scope.

(** ** The unified decoder ([enhanced_decoder.py]) *)

Module EnhancedARMDecoder.

(** What [decode_instruction] returns: a mnemonic with its operands, or the
    bare string [UNKNOWN MODE]. *)
Inductive decoded : Type :=
| Instruction (mnemonic : string) (ops : operands)
| UnknownMode.

(** [EnhancedARMDecoder.set_mode]; the state is the [mode] attribute. *)
Definition set_mode (mode : string) : M string unit :=
  if negb (String.eqb mode "ARM" || String.eqb mode "Thumb")
  then raise ValueError
  else modify (fun _ => mode).

(** [EnhancedARMDecoder.decode_instruction].  The class body defines the
    method twice and the second definition is the one that remains: it
    takes the mode from its argument, whose default is [ARM], and does not
    read the [mode] attribute. *)
Definition decode_instruction (instruction : Z) (mode : string) : M string decoded :=
  if String.eqb mode "ARM" then
    let '(m, ops) := ARMDecoder.decode_instruction instruction in
    ret (Instruction m ops)
  else if String.eqb mode "THUMB" then
    d <- lift (FixedThumbDecoder.decode_thumb_instruction instruction) ;;
    let '(m, ops) := d in
    ret (Instruction m ops)
  else ret UnknownMode.

(** [EnhancedARMDecoder.decode_thumb_instruction] *)
Definition decode_thumb_instruction (instruction : Z) : M string (string * operands) :=
  lift (FixedThumbDecoder.decode_thumb_instruction instruction).

End EnhancedARMDecoder.

(** ** Cache hierarchy ([cache.py]) *)

Module Cache.

Record CacheLine : Type := {
  valid : bool;
  tag : option Z;
  dirty : bool
}.

(** [CacheLine.__init__] *)
Definition CacheLine_init : CacheLine :=
  {| valid := false; tag := None; dirty := false |}.

Record BaseCache : Type := {
  size : Z;
  block_size : Z;
  mapping : string;
  num_blocks : Z;
  lines : list CacheLine;
  accesses : Z;
  hits : Z;
  misses : Z;
  write_backs : Z
}.

Definition with_lines (l : list CacheLine) (c : BaseCache) : BaseCache :=
  {| size := size c; block_size := block_size c; mapping := mapping c;
     num_blocks := num_blocks c; lines := l; accesses := accesses c;
     hits := hits c; misses := misses c; write_backs := write_backs c |}.

Definition with_counters (a h m w : Z) (c : BaseCache) : BaseCache :=
  {| size := size c; block_size := block_size c; mapping := mapping c;
     num_blocks := num_blocks c; lines := lines c; accesses := a;
     hits := h; misses := m; write_backs := w |}.

(** [BaseCache.__init__]: [size // block_size] raises on a zero block size;
    [range] of a negative count is empty. *)
Definition BaseCache_init (size block_size : Z) (mapping : string) : exn + BaseCache :=
  if block_size =? 0 then inl ZeroDivisionError
  else
    let num_blocks := size / block_size in
    inr {| size := size; block_size := block_size; mapping := mapping;
           num_blocks := num_blocks;
           lines := replicate (Z.to_nat num_blocks) CacheLine_init;
           accesses := 0; hits := 0; misses := 0; write_backs := 0 |}.

(** [BaseCache.get_index_and_tag] *)
Definition get_index_and_tag (self : BaseCache) (address : Z) : exn + (Z * Z) :=
  if block_size self =? 0 then inl ZeroDivisionError
  else
    let block_number := address / block_size self in
    if String.eqb (mapping self) "direct" then
      if num_blocks self =? 0 then inl ZeroDivisionError
      else inr (block_number mod num_blocks self, block_number)
    else inr (0, block_number).

(** [line.valid and line.tag == tag] *)
Definition line_matches (line : CacheLine) (t : Z) : bool :=
  valid line && match tag line with Some t' => t' =? t | None => false end.

(** [BaseCache.access]: [true] is a hit.  The line object is updated in
    place, that is, at its position in [lines]. *)
Definition access (address : Z) (is_write : bool) : M BaseCache bool :=
  fun self =>
    let self := with_counters (accesses self + 1) (hits self) (misses self)
                              (write_backs self) self in
    match get_index_and_tag self address with
    | inl e => Raise e self
    | inr (index, t) =>
      match py_norm_index (Z.of_nat (length (lines self))) index with
      | None => Raise IndexError self
      | Some n =>
      match lines self !! n with
      | None => Raise IndexError self
      | Some line =>
        if line_matches line t then
          let self := with_counters (accesses self) (hits self + 1) (misses self)
                                    (write_backs self) self in
          let self :=
            if is_write
            then with_lines (<[n := {| valid := valid line; tag := tag line;
                                       dirty := true |}]> (lines self)) self
            else self in
          Ok true self
        else
          let self := with_counters (accesses self) (hits self) (misses self + 1)
                                    (write_backs self) self in
          let self :=
            if valid line && dirty line
            then with_counters (accesses self) (hits self) (misses self)
                               (write_backs self + 1) self
            else self in
          let self := with_lines (<[n := {| valid := true; tag := Some t;
                                            dirty := is_write |}]> (lines self)) self in
          Ok false self
      end
      end
    end.

(** [BaseCache.reset_stats] *)
Definition reset_stats : M BaseCache unit :=
  modify (with_counters 0 0 0 0).

Record CacheSimulator : Type := {
  L1I : BaseCache;
  L1D : BaseCache;
  L2 : BaseCache;
  stats : gmap string Z
}.

Definition with_L1I (c : BaseCache) (s : CacheSimulator) : CacheSimulator :=
  {| L1I := c; L1D := L1D s; L2 := L2 s; stats := stats s |}.
Definition with_L1D (c : BaseCache) (s : CacheSimulator) : CacheSimulator :=
  {| L1I := L1I s; L1D := c; L2 := L2 s; stats := stats s |}.
Definition with_L2 (c : BaseCache) (s : CacheSimulator) : CacheSimulator :=
  {| L1I := L1I s; L1D := L1D s; L2 := c; stats := stats s |}.
Definition with_stats (m : gmap string Z) (s : CacheSimulator) : CacheSimulator :=
  {| L1I := L1I s; L1D := L1D s; L2 := L2 s; stats := m |}.

(** A configuration dictionary [{"size": .., "block_size": .., "mapping": ..}]. *)
Definition conf : Type := (Z * Z * string)%type.

(** [CacheSimulator.__init__] *)
Definition CacheSimulator_init (l1i_conf l1d_conf l2_conf : conf) : exn + CacheSimulator :=
  let mk (c : conf) := let '(sz, bs, mp) := c in BaseCache_init sz bs mp in
  match mk l1i_conf with
  | inl e => inl e
  | inr l1i =>
    match mk l1d_conf with
    | inl e => inl e
    | inr l1d =>
      match mk l2_conf with
      | inl e => inl e
      | inr l2 => inr {| L1I := l1i; L1D := l1d; L2 := l2; stats := ∅ |}
      end
    end
  end.

(** [self.stats[k]] on the [defaultdict(int)], read without inserting. *)
Definition stat (self : CacheSimulator) (k : string) : Z :=
  default 0 (stats self !! k).

(** [self.stats[k] += 1] *)
Definition incr_stat (k : string) : M CacheSimulator unit :=
  modify (fun self => with_stats (<[k := stat self k + 1]> (stats self)) self).

(** [CacheSimulator.access_instruction] *)
Definition access_instruction (address : Z) : M CacheSimulator unit :=
  hit <- zoom L1I with_L1I (access address false) ;;
  if negb hit then
    hit2 <- zoom L2 with_L2 (access address false) ;;
    (if negb hit2 then incr_stat "L2_miss" else incr_stat "L2_hit") ;;
    incr_stat "L1I_miss"
  else incr_stat "L1I_hit".

(** [CacheSimulator.access_data]; [is_write] has no default value. *)
Definition access_data (address : Z) (is_write : bool) : M CacheSimulator unit :=
  hit <- zoom L1D with_L1D (access address is_write) ;;
  if negb hit then
    hit2 <- zoom L2 with_L2 (access address is_write) ;;
    (if negb hit2 then incr_stat "L2_miss" else incr_stat "L2_hit") ;;
    incr_stat "L1D_miss"
  else incr_stat "L1D_hit".

(** [CacheSimulator.reset] *)
Definition reset : M CacheSimulator unit :=
  modify (with_stats ∅) ;;
  zoom L1I with_L1I reset_stats ;;
  zoom L1D with_L1D reset_stats ;;
  zoom L2 with_L2 reset_stats.

End Cache.

(** ** Execution engine ([enhanced_executor.py]) *)

Module Executor.

(** The mode strings ["ARM"] and ["Thumb"]: the loader tags every program
    entry with one of the two, and the engine passes no other value to
    [switch_mode]. *)
Inductive Mode : Type := ARM | Thumb.

Definition Mode_eqb (a b : Mode) : bool :=
  match a, b with ARM, ARM | Thumb, Thumb => true | _, _ => false end.

(** The lines written to the console that tell how a run went; the
    per-instruction trace is left out. *)
Inductive event : Type :=
| PCBeyondBounds (pc : Z)
| LimitReached (limit : Z)
| Unimplemented (mnemonic : string)
| SwitchedMode (m : Mode).

Record Executor : Type := {
  cache : option Cache.CacheSimulator;
  registers : list Z;
  cpsr : Z;
  memory : gmap Z Z;
  program : list (Z * Mode);
  arm_count : option Z;
  thumb_base : option Z;
  mode : Mode;
  decoder_mode : Mode;
  running : bool;
  instruction_count : Z;
  max_instructions : Z;
  stdout : list event
}.

Definition SP : Z := 13.
Definition LR : Z := 14.
Definition PC : Z := 15.

(** [EnhancedARMExecutor.__init__] *)
Definition Executor_init (cache : option Cache.CacheSimulator) : Executor :=
  {| cache := cache;
     registers := <[Z.to_nat SP := 0x1000]> (replicate 16 0);
     cpsr := 0;
     memory := ∅;
     program := [];
     arm_count := None;
     thumb_base := None;
     mode := ARM;
     decoder_mode := ARM;
     running := true;
     instruction_count := 0;
     max_instructions := 1000;
     stdout := [] |}.

Definition with_cache (c : option Cache.CacheSimulator) (s : Executor) : Executor :=
  {| cache := c; registers := registers s; cpsr := cpsr s; memory := memory s;
     program := program s; arm_count := arm_count s; thumb_base := thumb_base s;
     mode := mode s; decoder_mode := decoder_mode s; running := running s;
     instruction_count := instruction_count s;
     max_instructions := max_instructions s; stdout := stdout s |}.

Definition with_registers (r : list Z) (s : Executor) : Executor :=
  {| cache := cache s; registers := r; cpsr := cpsr s; memory := memory s;
     program := program s; arm_count := arm_count s; thumb_base := thumb_base s;
     mode := mode s; decoder_mode := decoder_mode s; running := running s;
     instruction_count := instruction_count s;
     max_instructions := max_instructions s; stdout := stdout s |}.

Definition with_cpsr (c : Z) (s : Executor) : Executor :=
  {| cache := cache s; registers := registers s; cpsr := c; memory := memory s;
     program := program s; arm_count := arm_count s; thumb_base := thumb_base s;
     mode := mode s; decoder_mode := decoder_mode s; running := running s;
     instruction_count := instruction_count s;
     max_instructions := max_instructions s; stdout := stdout s |}.

Definition with_memory (m : gmap Z Z) (s : Executor) : Executor :=
  {| cache := cache s; registers := registers s; cpsr := cpsr s; memory := m;
     program := program s; arm_count := arm_count s; thumb_base := thumb_base s;
     mode := mode s; decoder_mode := decoder_mode s; running := running s;
     instruction_count := instruction_count s;
     max_instructions := max_instructions s; stdout := stdout s |}.

Definition with_program (p : list (Z * Mode)) (ac tb : option Z) (s : Executor) : Executor :=
  {| cache := cache s; registers := registers s; cpsr := cpsr s; memory := memory s;
     program := p; arm_count := ac; thumb_base := tb;
     mode := mode s; decoder_mode := decoder_mode s; running := running s;
     instruction_count := instruction_count s;
     max_instructions := max_instructions s; stdout := stdout s |}.

Definition with_mode (m : Mode) (s : Executor) : Executor :=
  {| cache := cache s; registers := registers s; cpsr := cpsr s; memory := memory s;
     program := program s; arm_count := arm_count s; thumb_base := thumb_base s;
     mode := m; decoder_mode := m; running := running s;
     instruction_count := instruction_count s;
     max_instructions := max_instructions s; stdout := stdout s |}.

Definition with_instruction_count (n : Z) (s : Executor) : Executor :=
  {| cache := cache s; registers := registers s; cpsr := cpsr s; memory := memory s;
     program := program s; arm_count := arm_count s; thumb_base := thumb_base s;
     mode := mode s; decoder_mode := decoder_mode s; running := running s;
     instruction_count := n;
     max_instructions := max_instructions s; stdout := stdout s |}.

Definition with_stdout (o : list event) (s : Executor) : Executor :=
  {| cache := cache s; registers := registers s; cpsr := cpsr s; memory := memory s;
     program := program s; arm_count := arm_count s; thumb_base := thumb_base s;
     mode := mode s; decoder_mode := decoder_mode s; running := running s;
     instruction_count := instruction_count s;
     max_instructions := max_instructions s; stdout := o |}.

(** [print(...)] of one of the modelled lines. *)
Definition print (e : event) : M Executor unit :=
  modify (fun s => with_stdout (stdout s ++ [e]) s).

(** [operands[k]] *)
Definition arg (ops : operands) (k : string) : M Executor Z :=
  lift (getitem ops k).

(** [self.registers[i]] and [self.registers[i] = v] *)
Definition reg (i : Z) : M Executor Z :=
  fun s => lift (py_index (registers s) i) s.

Definition set_reg (i v : Z) : M Executor unit :=
  fun s => match py_setitem (registers s) i v with
           | inr r => Ok tt (with_registers r s)
           | inl e => Raise e s
           end.

(** The flag positions of [set_cpsr_flag] and [get_cpsr_flag]. *)
Definition flag_positions : list (string * Z) :=
  [("N", 31); ("Z", 30); ("C", 29); ("V", 28)].

(** [EnhancedARMExecutor.set_cpsr_flag] *)
Definition set_cpsr_flag (flag : string) (value : bool) : M Executor unit :=
  match dict_get flag_positions flag with
  | Some pos =>
    if value
    then modify (fun s => with_cpsr (Z.lor (cpsr s) (Z.shiftl 1 pos)) s)
    else modify (fun s => with_cpsr (Z.land (cpsr s) (Z.lnot (Z.shiftl 1 pos))) s)
  | None => ret tt
  end.

(** [EnhancedARMExecutor.get_cpsr_flag] *)
Definition get_cpsr_flag (flag : string) : M Executor bool :=
  match dict_get flag_positions flag with
  | Some pos => gets (fun s => truthy (Z.land (cpsr s) (Z.shiftl 1 pos)))
  | None => ret false
  end.

(** [EnhancedARMExecutor.update_flags] *)
Definition update_flags (result : Z) : M Executor unit :=
  set_cpsr_flag "Z" (result =? 0) ;;
  set_cpsr_flag "N" (result <? 0).

(** [EnhancedARMExecutor.switch_mode] *)
Definition switch_mode (new_mode : Mode) : M Executor unit :=
  modify (with_mode new_mode) ;;
  print (SwitchedMode new_mode).

(** [self.memory.get(address, 0)] *)
Definition mem_get (m : gmap Z Z) (address : Z) : Z := default 0 (m !! address).

(** [EnhancedARMExecutor.read_memory_word] *)
Definition read_word (m : gmap Z Z) (address : Z) : Z :=
  fold_left (fun word i => Z.lor word (Z.shiftl (mem_get m (address + i)) (i * 8)))
            [0; 1; 2; 3] 0.

Definition read_memory_word (address : Z) : M Executor Z :=
  gets (fun s => read_word (memory s) address).

(** [EnhancedARMExecutor.write_memory_word] *)
Definition write_word (m : gmap Z Z) (address value : Z) : gmap Z Z :=
  fold_left (fun m i => <[address + i := Z.land (Z.shiftr value (i * 8)) 0xFF]> m)
            [0; 1; 2; 3] m.

Definition write_memory_word (address value : Z) : M Executor unit :=
  modify (fun s => with_memory (write_word (memory s) address value) s).

(** [EnhancedARMExecutor.read_memory_byte] *)
Definition read_memory_byte (address : Z) : M Executor Z :=
  gets (fun s => mem_get (memory s) address).

(** [EnhancedARMExecutor.write_memory_byte] *)
Definition write_memory_byte (address value : Z) : M Executor unit :=
  modify (fun s => with_memory (<[address := Z.land value 0xFF]> (memory s)) s).

(** [EnhancedARMExecutor.read_memory_halfword] *)
Definition read_halfword (m : gmap Z Z) (address : Z) : Z :=
  fold_left (fun halfword i =>
               Z.lor halfword (Z.shiftl (mem_get m (address + i)) (i * 8)))
            [0; 1] 0.

Definition read_memory_halfword (address : Z) : M Executor Z :=
  gets (fun s => read_halfword (memory s) address).

(** [EnhancedARMExecutor.write_memory_halfword] *)
Definition write_halfword (m : gmap Z Z) (address value : Z) : gmap Z Z :=
  fold_left (fun m i => <[address + i := Z.land (Z.shiftr value (i * 8)) 0xFF]> m)
            [0; 1] m.

Definition write_memory_halfword (address value : Z) : M Executor unit :=
  modify (fun s => with_memory (write_halfword (memory s) address value) s).

(** A method call on [self.cache], which the caller has checked to be set. *)
Definition on_cache {A} (c : Cache.CacheSimulator) (m : M Cache.CacheSimulator A)
  : M Executor A :=
  zoom (fun _ => c) (fun c' s => with_cache (Some c') s) m.

(** [EnhancedARMExecutor.load_program_from_file], from the list of
    instruction values and mode tags that the file parses to. *)
Definition load_program (prog : list (Z * Mode)) : M Executor unit :=
  fun s =>
    let s := with_program prog (arm_count s) (thumb_base s) s in
    match prog with
    | [] => Raise ValueError s
    | _ =>
      let ac := Z.of_nat (length (List.filter (fun e => Mode_eqb (snd e) ARM) prog)) in
      Ok tt (with_program prog (Some ac) (Some (ac * 4)) s)
    end.

(** *** ARM instruction handlers *)

Definition mask32 (x : Z) : Z := Z.land x 0xFFFFFFFF.

Definition execute_arm_mov (ops : operands) : M Executor unit :=
  rd <- arg ops "rd" ;; rm <- arg ops "rm" ;;
  v <- reg rm ;;
  set_reg rd v.

Definition execute_arm_mov_imm (ops : operands) : M Executor unit :=
  rd <- arg ops "rd" ;; immediate <- arg ops "immediate" ;;
  set_reg rd immediate.

Definition execute_arm_add (ops : operands) : M Executor unit :=
  rd <- arg ops "rd" ;; rn <- arg ops "rn" ;; rm <- arg ops "rm" ;;
  a <- reg rn ;; b <- reg rm ;;
  set_reg rd (mask32 (a + b)).

Definition execute_arm_add_imm (ops : operands) : M Executor unit :=
  rd <- arg ops "rd" ;; rn <- arg ops "rn" ;; immediate <- arg ops "immediate" ;;
  a <- reg rn ;;
  set_reg rd (mask32 (a + immediate)).

Definition execute_arm_sub (ops : operands) : M Executor unit :=
  rd <- arg ops "rd" ;; rn <- arg ops "rn" ;; rm <- arg ops "rm" ;;
  a <- reg rn ;; b <- reg rm ;;
  set_reg rd (mask32 (a - b)).

Definition execute_arm_sub_imm (ops : operands) : M Executor unit :=
  rd <- arg ops "rd" ;; rn <- arg ops "rn" ;; immediate <- arg ops "immediate" ;;
  a <- reg rn ;;
  set_reg rd (mask32 (a - immediate)).

Definition execute_arm_mul (ops : operands) : M Executor unit :=
  rd <- arg ops "rd" ;; rm <- arg ops "rm" ;; rs <- arg ops "rs" ;;
  a <- reg rm ;; b <- reg rs ;;
  set_reg rd (mask32 (a * b)).

Definition execute_arm_and (ops : operands) : M Executor unit :=
  rd <- arg ops "rd" ;; rn <- arg ops "rn" ;; rm <- arg ops "rm" ;;
  a <- reg rn ;; b <- reg rm ;;
  set_reg rd (mask32 (Z.land a b)).

Definition execute_arm_orr (ops : operands) : M Executor unit :=
  rd <- arg ops "rd" ;; rn <- arg ops "rn" ;; rm <- arg ops "rm" ;;
  a <- reg rn ;; b <- reg rm ;;
  set_reg rd (mask32 (Z.lor a b)).

Definition execute_arm_cmp (ops : operands) : M Executor unit :=
  rn <- arg ops "rn" ;; rm <- arg ops "rm" ;;
  a <- reg rn ;; b <- reg rm ;;
  update_flags (a - b).

Definition execute_arm_cmp_imm (ops : operands) : M Executor unit :=
  rn <- arg ops "rn" ;; immediate <- arg ops "immediate" ;;
  a <- reg rn ;;
  update_flags (a - immediate).

Definition execute_arm_str (ops : operands) : M Executor unit :=
  rd <- arg ops "rd" ;; rn <- arg ops "rn" ;; offset <- arg ops "offset" ;;
  base <- reg rn ;;
  let address := base + offset in
  value <- reg rd ;;
  c <- gets cache ;;
  match c with
  | Some c =>
    pc <- reg PC ;;
    on_cache c (Cache.access_instruction pc ;; Cache.access_data address true)
  | None => ret tt
  end ;;
  write_memory_word address value.

Definition execute_arm_ldr (ops : operands) : M Executor unit :=
  rd <- arg ops "rd" ;; rn <- arg ops "rn" ;; offset <- arg ops "offset" ;;
  base <- reg rn ;;
  let address := base + offset in
  c <- gets cache ;;
  match c with
  | Some c =>
    pc <- reg PC ;;
    on_cache c (Cache.access_instruction pc ;; Cache.access_data address false)
  | None => ret tt
  end ;;
  value <- read_memory_word address ;;
  set_reg rd value.

(** The sign extension of [execute_arm_branch] and [execute_arm_branch_link]. *)
Definition branch_offset24 (offset : Z) : Z :=
  let offset := if truthy (Z.land offset 0x800000)
                then Z.lor offset 0xFF000000 else offset in
  Z.shiftl offset 2.

Definition execute_arm_branch (ops : operands) : M Executor unit :=
  offset <- arg ops "offset" ;;
  let branch_offset := branch_offset24 offset in
  old_pc <- reg PC ;;
  set_reg PC (mask32 (old_pc + 8 + branch_offset)).

Definition execute_arm_branch_link (ops : operands) : M Executor unit :=
  offset <- arg ops "offset" ;;
  pc <- reg PC ;;
  set_reg LR (pc + 4) ;;
  let branch_offset := branch_offset24 offset in
  old_pc <- reg PC ;;
  set_reg PC (mask32 (old_pc + 8 + branch_offset)).

Definition execute_arm_bx (ops : operands) : M Executor unit :=
  rm <- arg ops "rm" ;;
  target <- reg rm ;;
  if truthy (Z.land target 1) then
    switch_mode Thumb ;;
    set_reg PC (Z.land target 0xFFFFFFFE)
  else
    switch_mode ARM ;;
    set_reg PC (Z.land target 0xFFFFFFFC).

Definition execute_arm_eor (ops : operands) : M Executor unit :=
  rd <- arg ops "rd" ;; rn <- arg ops "rn" ;; rm <- arg ops "rm" ;;
  a <- reg rn ;; b <- reg rm ;;
  set_reg rd (mask32 (Z.lxor a b)).

Definition execute_arm_eor_imm (ops : operands) : M Executor unit :=
  rd <- arg ops "rd" ;; rn <- arg ops "rn" ;; immediate <- arg ops "immediate" ;;
  a <- reg rn ;;
  set_reg rd (mask32 (Z.lxor a immediate)).

Definition execute_arm_bic (ops : operands) : M Executor unit :=
  rd <- arg ops "rd" ;; rn <- arg ops "rn" ;; rm <- arg ops "rm" ;;
  a <- reg rn ;; b <- reg rm ;;
  set_reg rd (mask32 (Z.land a (Z.lnot b))).

Definition execute_arm_mvn (ops : operands) : M Executor unit :=
  rd <- arg ops "rd" ;; rm <- arg ops "rm" ;;
  b <- reg rm ;;
  set_reg rd (mask32 (Z.lnot b)).

Definition execute_arm_tst (ops : operands) : M Executor unit :=
  rn <- arg ops "rn" ;; rm <- arg ops "rm" ;;
  a <- reg rn ;; b <- reg rm ;;
  update_flags (Z.land a b).

Definition execute_arm_teq (ops : operands) : M Executor unit :=
  rn <- arg ops "rn" ;; rm <- arg ops "rm" ;;
  a <- reg rn ;; b <- reg rm ;;
  update_flags (Z.lxor a b).

Definition execute_arm_and_imm (ops : operands) : M Executor unit :=
  rd <- arg ops "rd" ;; rn <- arg ops "rn" ;; immediate <- arg ops "immediate" ;;
  a <- reg rn ;;
  set_reg rd (mask32 (Z.land a immediate)).

Definition execute_arm_orr_imm (ops : operands) : M Executor unit :=
  rd <- arg ops "rd" ;; rn <- arg ops "rn" ;; immediate <- arg ops "immediate" ;;
  a <- reg rn ;;
  set_reg rd (mask32 (Z.lor a immediate)).

Definition execute_arm_bic_imm (ops : operands) : M Executor unit :=
  rd <- arg ops "rd" ;; rn <- arg ops "rn" ;; immediate <- arg ops "immediate" ;;
  a <- reg rn ;;
  set_reg rd (mask32 (Z.land a (Z.lnot immediate))).

Definition execute_arm_mvn_imm (ops : operands) : M Executor unit :=
  rd <- arg ops "rd" ;; immediate <- arg ops "immediate" ;;
  set_reg rd (mask32 (Z.lnot immediate)).

Definition execute_arm_tst_imm (ops : operands) : M Executor unit :=
  rn <- arg ops "rn" ;; immediate <- arg ops "immediate" ;;
  a <- reg rn ;;
  update_flags (Z.land a immediate).

Definition execute_arm_teq_imm (ops : operands) : M Executor unit :=
  rn <- arg ops "rn" ;; immediate <- arg ops "immediate" ;;
  a <- reg rn ;;
  update_flags (Z.lxor a immediate).

(** *** Thumb instruction handlers *)

Definition execute_thumb_mov_imm (ops : operands) : M Executor unit :=
  rd <- arg ops "rd" ;; immediate <- arg ops "immediate" ;;
  set_reg rd immediate.

Definition execute_thumb_add_imm (ops : operands) : M Executor unit :=
  rd <- arg ops "rd" ;; immediate <- arg ops "immediate" ;;
  a <- reg rd ;;
  set_reg rd (mask32 (a + immediate)).

Definition execute_thumb_cmp (ops : operands) : M Executor unit :=
  rd <- arg ops "rd" ;; rs <- arg ops "rs" ;;
  a <- reg rd ;; b <- reg rs ;;
  update_flags (a - b).

Definition execute_thumb_sub_imm (ops : operands) : M Executor unit :=
  rd <- arg ops "rd" ;; immediate <- arg ops "immediate" ;;
  a <- reg rd ;;
  set_reg rd (mask32 (a - immediate)).

Definition execute_thumb_cmp_imm (ops : operands) : M Executor unit :=
  rd <- arg ops "rd" ;; immediate <- arg ops "immediate" ;;
  a <- reg rd ;;
  update_flags (a - immediate).

Definition execute_thumb_add (ops : operands) : M Executor unit :=
  rd <- arg ops "rd" ;; rs <- arg ops "rs" ;;
  a <- reg rd ;; b <- reg rs ;;
  set_reg rd (mask32 (a + b)).

Definition execute_thumb_sub (ops : operands) : M Executor unit :=
  rd <- arg ops "rd" ;; rs <- arg ops "rs" ;;
  a <- reg rd ;; b <- reg rs ;;
  set_reg rd (mask32 (a - b)).

Definition execute_thumb_mov_hi (ops : operands) : M Executor unit :=
  rd <- arg ops "rd" ;; rs <- arg ops "rs" ;;
  v <- reg rs ;;
  set_reg rd v.

(** With a cache attached the handler calls [access_data(address)] without
    the required [is_write] argument, which raises [TypeError] before
    anything is changed. *)
Definition execute_thumb_ldr (ops : operands) : M Executor unit :=
  rd <- arg ops "rd" ;; rb <- arg ops "rb" ;; offset <- arg ops "offset" ;;
  base <- reg rb ;;
  let address := base + Z.shiftl offset 2 in
  c <- gets cache ;;
  value <- match c with
           | Some _ => raise TypeError
           | None => read_memory_word address
           end ;;
  set_reg rd value.

Definition execute_thumb_str (ops : operands) : M Executor unit :=
  rd <- arg ops "rd" ;; rb <- arg ops "rb" ;; offset <- arg ops "offset" ;;
  base <- reg rb ;;
  let address := base + Z.shiftl offset 2 in
  value <- reg rd ;;
  c <- gets cache ;;
  match c with
  | Some c => on_cache c (Cache.access_data address true)
  | None => ret tt
  end.

Definition execute_thumb_branch (ops : operands) : M Executor unit :=
  offset <- arg ops "offset" ;;
  let branch_offset := Z.shiftl offset 1 in
  old_pc <- reg PC ;;
  set_reg PC (mask32 (old_pc + 4 + branch_offset)).

(** [EnhancedARMExecutor.check_condition] *)
Definition check_condition (condition : Z) : M Executor bool :=
  n <- get_cpsr_flag "N" ;; z <- get_cpsr_flag "Z" ;;
  c <- get_cpsr_flag "C" ;; v <- get_cpsr_flag "V" ;;
  ret (if condition =? 0x0 then z
       else if condition =? 0x1 then negb z
       else if condition =? 0x2 then c
       else if condition =? 0x3 then negb c
       else if condition =? 0x4 then n
       else if condition =? 0x5 then negb n
       else if condition =? 0x6 then v
       else if condition =? 0x7 then negb v
       else if condition =? 0x8 then c && negb z
       else if condition =? 0x9 then negb c || z
       else if condition =? 0xA then Bool.eqb n v
       else if condition =? 0xB then negb (Bool.eqb n v)
       else if condition =? 0xC then negb z && Bool.eqb n v
       else if condition =? 0xD then z || negb (Bool.eqb n v)
       else if condition =? 0xE then true
       else false).

Definition execute_thumb_branch_conditional (ops : operands) : M Executor unit :=
  condition <- arg ops "condition" ;; offset <- arg ops "offset" ;;
  should_branch <- check_condition condition ;;
  if should_branch then
    let branch_offset := Z.shiftl offset 1 in
    old_pc <- reg PC ;;
    set_reg PC (mask32 (old_pc + 4 + branch_offset))
  else ret tt.

Definition execute_thumb_bx (ops : operands) : M Executor unit :=
  rs <- arg ops "rs" ;;
  target <- reg rs ;;
  if truthy (Z.land target 1) then
    switch_mode Thumb ;;
    set_reg PC (Z.land target 0xFFFFFFFE)
  else
    switch_mode ARM ;;
    set_reg PC (Z.land target 0xFFFFFFFC).

Definition execute_thumb_and (ops : operands) : M Executor unit :=
  rd <- arg ops "rd" ;; rs <- arg ops "rs" ;;
  a <- reg rd ;; b <- reg rs ;;
  set_reg rd (mask32 (Z.land a b)).

Definition execute_thumb_eor (ops : operands) : M Executor unit :=
  rd <- arg ops "rd" ;; rs <- arg ops "rs" ;;
  a <- reg rd ;; b <- reg rs ;;
  set_reg rd (mask32 (Z.lxor a b)).

Definition execute_thumb_orr (ops : operands) : M Executor unit :=
  rd <- arg ops "rd" ;; rs <- arg ops "rs" ;;
  a <- reg rd ;; b <- reg rs ;;
  set_reg rd (mask32 (Z.lor a b)).

Definition execute_thumb_mul (ops : operands) : M Executor unit :=
  rd <- arg ops "rd" ;; rs <- arg ops "rs" ;;
  a <- reg rd ;; b <- reg rs ;;
  set_reg rd (mask32 (a * b)).

(** *** Dispatch *)

(** The [if]/[elif] chain of [execute_arm_instruction]. *)
Definition dispatch_arm (instr_type : string) (ops : operands) : M Executor unit :=
  if String.eqb instr_type "MOV" then execute_arm_mov ops
  else if String.eqb instr_type "MOV_IMM" then execute_arm_mov_imm ops
  else if String.eqb instr_type "ADD" then execute_arm_add ops
  else if String.eqb instr_type "ADD_IMM" then execute_arm_add_imm ops
  else if String.eqb instr_type "SUB" then execute_arm_sub ops
  else if String.eqb instr_type "SUB_IMM" then execute_arm_sub_imm ops
  else if String.eqb instr_type "LDR" then execute_arm_ldr ops
  else if String.eqb instr_type "STR" then execute_arm_str ops
  else if String.eqb instr_type "CMP" then execute_arm_cmp ops
  else if String.eqb instr_type "CMP_IMM" then execute_arm_cmp_imm ops
  else if String.eqb instr_type "B" then execute_arm_branch ops
  else if String.eqb instr_type "BL" then execute_arm_branch_link ops
  else if String.eqb instr_type "MUL" then execute_arm_mul ops
  else if String.eqb instr_type "AND" then execute_arm_and ops
  else if String.eqb instr_type "ORR" then execute_arm_orr ops
  else if String.eqb instr_type "BX" then execute_arm_bx ops
  else if String.eqb instr_type "EOR" then execute_arm_eor ops
  else if String.eqb instr_type "EOR_IMM" then execute_arm_eor_imm ops
  else if String.eqb instr_type "AND_IMM" then execute_arm_and_imm ops
  else if String.eqb instr_type "ORR_IMM" then execute_arm_orr_imm ops
  else if String.eqb instr_type "BIC" then execute_arm_bic ops
  else if String.eqb instr_type "BIC_IMM" then execute_arm_bic_imm ops
  else if String.eqb instr_type "MVN" then execute_arm_mvn ops
  else if String.eqb instr_type "MVN_IMM" then execute_arm_mvn_imm ops
  else if String.eqb instr_type "TST" then execute_arm_tst ops
  else if String.eqb instr_type "TST_IMM" then execute_arm_tst_imm ops
  else if String.eqb instr_type "TEQ" then execute_arm_teq ops
  else if String.eqb instr_type "TEQ_IMM" then execute_arm_teq_imm ops
  else print (Unimplemented instr_type).

(** [EnhancedARMExecutor.execute_arm_instruction]: the decoder is called
    with [mode="ARM"], which selects the ARM decoder. *)
Definition execute_arm_instruction (instruction : Z) : M Executor unit :=
  let '(instr_type, ops) := ARMDecoder.decode_instruction instruction in
  dispatch_arm instr_type ops.

(** The [if]/[elif] chain of [execute_thumb_instruction]. *)
Definition dispatch_thumb (instr_type : string) (ops : operands) : M Executor unit :=
  if String.eqb instr_type "T_MOV_IMM" then execute_thumb_mov_imm ops
  else if String.eqb instr_type "T_ADD_IMM" then execute_thumb_add_imm ops
  else if String.eqb instr_type "T_SUB_IMM" then execute_thumb_sub_imm ops
  else if String.eqb instr_type "T_CMP_IMM" then execute_thumb_cmp_imm ops
  else if String.eqb instr_type "T_ADD" then execute_thumb_add ops
  else if String.eqb instr_type "T_SUB" then execute_thumb_sub ops
  else if String.eqb instr_type "T_MOV_HI" then execute_thumb_mov_hi ops
  else if String.eqb instr_type "T_LDR" then execute_thumb_ldr ops
  else if String.eqb instr_type "T_STR" then execute_thumb_str ops
  else if String.eqb instr_type "T_B" then execute_thumb_branch ops
  else if String.eqb instr_type "T_BCC" then execute_thumb_branch_conditional ops
  else if String.eqb instr_type "T_BX" then execute_thumb_bx ops
  else if String.eqb instr_type "T_CMP" then execute_thumb_cmp ops
  else if String.eqb instr_type "T_AND" then execute_thumb_and ops
  else if String.eqb instr_type "T_EOR" then execute_thumb_eor ops
  else if String.eqb instr_type "T_ORR" then execute_thumb_orr ops
  else if String.eqb instr_type "T_MUL" then execute_thumb_mul ops
  else print (Unimplemented instr_type).

(** [EnhancedARMExecutor.execute_thumb_instruction] *)
Definition execute_thumb_instruction (instruction : Z) : M Executor unit :=
  d <- lift (FixedThumbDecoder.decode_thumb_instruction instruction) ;;
  let '(instr_type, ops) := d in
  dispatch_thumb instr_type ops.

(** *** The execution loop *)

(** Reading an attribute that [load_program_from_file] sets. *)
Definition attr (f : Executor -> option Z) : M Executor Z :=
  fun s => match f s with Some v => Ok v s | None => Raise AttributeError s end.

(** One iteration of the [while] body of [execute_program]; [false] is the
    [break]. *)
Definition step : M Executor bool :=
  pc_val <- reg PC ;;
  m <- gets mode ;;
  instr_index <- match m with
                 | ARM => ret (pc_val / 4)
                 | Thumb =>
                   tb <- attr thumb_base ;;
                   let offset := pc_val - tb in
                   ac <- attr arm_count ;;
                   ret (ac + offset / 2)
                 end ;;
  prog <- gets program ;;
  if (instr_index <? 0) || (instr_index >=? Z.of_nat (length prog)) then
    print (PCBeyondBounds pc_val) ;;
    ret false
  else
    entry <- lift (py_index prog instr_index) ;;
    let '(instruction, instr_mode) := entry in
    m <- gets mode ;;
    (if negb (Mode_eqb m instr_mode) then switch_mode instr_mode else ret tt) ;;
    m <- gets mode ;;
    match m with
    | ARM =>
      execute_arm_instruction (Z.land instruction 0xFFFFFFFF) ;;
      pc <- reg PC ;;
      if pc =? pc_val then set_reg PC (pc + 4) else ret tt
    | Thumb =>
      execute_thumb_instruction (Z.land instruction 0xFFFF) ;;
      pc <- reg PC ;;
      if pc =? pc_val then set_reg PC (pc + 2) else ret tt
    end ;;
    modify (fun s => with_instruction_count (instruction_count s + 1) s) ;;
    ret true.

(** [while self.running and self.instruction_count < self.max_instructions]. *)
Definition loop_condition (s : Executor) : bool :=
  running s && (instruction_count s <? max_instructions s).

Fixpoint run_loop (fuel : nat) : M Executor unit :=
  fun s =>
    match fuel with
    | O => Ok tt s
    | S fuel' =>
      if loop_condition s then
        (continue <- step ;; if continue then run_loop fuel' else ret tt) s
      else Ok tt s
    end.

(** [EnhancedARMExecutor.execute_program].  Every iteration that does not
    leave the loop adds one to [instruction_count], so the loop body runs at
    most [max_instructions - instruction_count] times (lemma
    [run_loop_enough_fuel] below). *)
Definition execute_program : M Executor unit :=
  fun s =>
    (run_loop (Z.to_nat (max_instructions s - instruction_count s)) ;;
     n <- gets instruction_count ;;
     limit <- gets max_instructions ;;
     if n >=? limit then print (LimitReached limit) else ret tt) s.

End Executor.

(** * Properties *)

(** ** Generic facts about the Python-level helpers *)

Lemma py_norm_index_in_range (len i : Z) :
  0 <= i < len -> py_norm_index len i = Some (Z.to_nat i).
Proof.
  intros [H0 H1]. unfold py_norm_index.
  apply Z.leb_le in H0. apply Z.ltb_lt in H1. now rewrite H0, H1.
Qed.

Lemma py_index_in_range {A} (l : list A) (i : Z) :
  0 <= i < Z.of_nat (length l) ->
  exists x, py_index l i = inr x /\ l !! Z.to_nat i = Some x /\ In x l.
Proof.
  intros H. unfold py_index. rewrite py_norm_index_in_range by exact H.
  destruct (lookup_lt_is_Some_2 l (Z.to_nat i)) as [x Hx]; [lia|].
  exists x. rewrite Hx. repeat split.
  apply list_elem_of_In. eapply list_elem_of_lookup_2. exact Hx.
Qed.

Lemma land_ones_range (x k : Z) :
  0 <= k -> 0 <= Z.land x (Z.ones k) < 2 ^ k.
Proof.
  intros Hk. rewrite Z.land_ones by exact Hk.
  apply Z.mod_pos_bound. apply Z.pow_pos_nonneg; lia.
Qed.

Lemma existsb_eqb_In (m : string) (l : list string) :
  existsb (String.eqb m) l = true -> In m l.
Proof.
  intros H. apply existsb_exists in H. destruct H as (x & Hx & Heq).
  apply String.eqb_eq in Heq. now subst.
Qed.

(** ** The decoders *)

Lemma arm_decode_mnemonic (instruction : Z) :
  In (fst (ARMDecoder.decode_instruction instruction)) ARMDecoder.mnemonics.
Proof.
  unfold ARMDecoder.decode_instruction.
  repeat match goal with
         | |- context [if ?b then _ else _] => destruct b
         end;
    apply existsb_eqb_In; reflexivity.
Qed.

(** Bits 12:11 of a Format 1 instruction are never [11]: that prefix was
    taken by Format 2. *)
Lemma thumb_shift_type_range (instruction : Z) :
  (Z.land (Z.shiftr instruction 11) 31 =? 3) = false ->
  (Z.land (Z.shiftr instruction 13) 7 =? 0) = true ->
  0 <= Z.land (Z.shiftr instruction 11) 3 < 3.
Proof.
  intros H2 H1. apply Z.eqb_neq in H2. apply Z.eqb_eq in H1.
  change 31 with (Z.ones 5) in H2. change 7 with (Z.ones 3) in H1.
  change (Z.land (Z.shiftr instruction 11) 3)
    with (Z.land (Z.shiftr instruction 11) (Z.ones 2)).
  rewrite Z.land_ones in * by lia.
  rewrite !Z.shiftr_div_pow2 in * by lia.
  replace (instruction / 2 ^ 13) with (instruction / 2 ^ 11 / 2 ^ 2) in H1
    by (rewrite Z.div_div by lia; reflexivity).
  generalize dependent (instruction / 2 ^ 11). intros q H2 H1.
  change (2 ^ 5) with 32 in *. change (2 ^ 3) with 8 in *.
  change (2 ^ 2) with 4 in *.
  Z.div_mod_to_equations. lia.
Qed.

Lemma thumb_decode_total (instruction : Z) :
  exists m ops,
    FixedThumbDecoder.decode_thumb_instruction instruction = inr (m, ops)
    /\ In m FixedThumbDecoder.mnemonics.
Proof.
  unfold FixedThumbDecoder.decode_thumb_instruction.
  destruct (Z.land (Z.shiftr instruction 13) 7 =? 1) eqn:F3.
  { destruct (py_index_in_range FixedThumbDecoder.format3_op_types
                (Z.land (Z.shiftr instruction 11) 3)) as (m & -> & _ & Hin).
    { apply (land_ones_range _ 2). lia. }
    eexists _, _. split; [reflexivity|].
    unfold FixedThumbDecoder.mnemonics. apply in_or_app. now left. }
  destruct (Z.land (Z.shiftr instruction 11) 31 =? 3) eqn:F2.
  { destruct (truthy (Z.land (Z.shiftr instruction 10) 1)),
             (truthy (Z.land (Z.shiftr instruction 9) 1));
      eexists _, _; (split; [reflexivity|]); apply existsb_eqb_In; reflexivity. }
  destruct (Z.land (Z.shiftr instruction 13) 7 =? 0) eqn:F1.
  { destruct (py_index_in_range FixedThumbDecoder.shift_ops
                (Z.land (Z.shiftr instruction 11) 3)) as (s & -> & _ & Hin).
    { apply thumb_shift_type_range; assumption. }
    eexists _, _. split; [reflexivity|].
    unfold FixedThumbDecoder.mnemonics.
    apply in_or_app; right. apply in_or_app; right. apply in_or_app; left.
    now apply in_map. }
  destruct (Z.land (Z.shiftr instruction 10) 63 =? 16) eqn:F4.
  { destruct (py_index_in_range FixedThumbDecoder.alu_ops
                (Z.land (Z.shiftr instruction 6) 15)) as (s & -> & _ & Hin).
    { apply (land_ones_range _ 4). lia. }
    eexists _, _. split; [reflexivity|].
    unfold FixedThumbDecoder.mnemonics.
    do 3 (apply in_or_app; right). apply in_or_app; left.
    now apply in_map. }
  destruct (Z.land (Z.shiftr instruction 10) 63 =? 17) eqn:F5.
  { destruct (py_index_in_range FixedThumbDecoder.format5_op_types
                (Z.land (Z.shiftr instruction 8) 3)) as (m & -> & _ & Hin).
    { apply (land_ones_range _ 2). lia. }
    eexists _, _. split; [reflexivity|].
    unfold FixedThumbDecoder.mnemonics.
    do 4 (apply in_or_app; right). apply in_or_app; now left. }
  destruct (Z.land (Z.shiftr instruction 13) 7 =? 2) eqn:F67.
  { pose proof (land_ones_range (Z.shiftr instruction 11) 2 ltac:(lia)) as Hr.
    change (Z.ones 2) with 3 in Hr. change (2 ^ 2) with 4 in Hr.
    destruct (Z.land (Z.shiftr instruction 11) 3 =? 0) eqn:E0;
      [eexists _, _; (split; [reflexivity|]); apply existsb_eqb_In; reflexivity|].
    destruct (Z.land (Z.shiftr instruction 11) 3 =? 1) eqn:E1;
      [eexists _, _; (split; [reflexivity|]); apply existsb_eqb_In; reflexivity|].
    destruct (Z.land (Z.shiftr instruction 11) 3 =? 2) eqn:E2;
      [eexists _, _; (split; [reflexivity|]); apply existsb_eqb_In; reflexivity|].
    destruct (Z.land (Z.shiftr instruction 11) 3 =? 3) eqn:E3;
      [eexists _, _; (split; [reflexivity|]); apply existsb_eqb_In; reflexivity|].
    apply Z.eqb_neq in E0, E1, E2, E3. lia. }
  repeat match goal with
         | |- context [if ?b then _ else _] => destruct b
         end;
    eexists _, _; (split; [reflexivity|]); apply existsb_eqb_In; reflexivity.
Qed.

(** C8.  Both decoders are total and pure: on every integer (in particular
    every 32-bit ARM and every 16-bit Thumb value) the ARM decoder returns a
    mnemonic of its fixed set with an operand dictionary, the Thumb decoder
    returns, without raising, a mnemonic of its fixed set with an operand
    dictionary (no table lookup is ever out of range: the Format 1 shift
    table is only reached with bits 12:11 below 3), and equal inputs give
    equal outputs. *)
Theorem decoders_total_pure :
  (forall instruction : Z,
      exists m ops, ARMDecoder.decode_instruction instruction = (m, ops)
                    /\ In m ARMDecoder.mnemonics)
  /\ (forall instruction : Z,
      exists m ops,
        FixedThumbDecoder.decode_thumb_instruction instruction = inr (m, ops)
        /\ In m FixedThumbDecoder.mnemonics)
  /\ (forall i j : Z,
      i = j ->
      ARMDecoder.decode_instruction i = ARMDecoder.decode_instruction j
      /\ FixedThumbDecoder.decode_thumb_instruction i
         = FixedThumbDecoder.decode_thumb_instruction j).
Proof.
  split; [|split].
  - intros instruction.
    pose proof (arm_decode_mnemonic instruction) as H.
    destruct (ARMDecoder.decode_instruction instruction) as [m ops].
    now exists m, ops.
  - exact thumb_decode_total.
  - intros i j ->. split; reflexivity.
Qed.

(** ** Memory *)

Section Memory.
Import Executor.

Lemma byte_field_testbit (v k n : Z) :
  0 <= k -> 0 <= n ->
  Z.testbit (Z.shiftl (Z.land (Z.shiftr v k) 0xFF) k) n
  = Z.testbit v n && ((k <=? n) && (n <? k + 8)).
Proof.
  intros Hk Hn. rewrite Z.shiftl_spec by exact Hn.
  destruct (Z.leb_spec k n) as [Hle|Hlt].
  - rewrite Z.land_spec, Z.shiftr_spec by lia.
    replace (n - k + k) with n by lia.
    change 0xFF with (Z.ones 8). rewrite Z.testbit_ones by lia.
    f_equal.
    destruct (Z.leb_spec 0 (n - k)); [|lia].
    destruct (Z.ltb_spec (n - k) 8), (Z.ltb_spec n (k + 8)); simpl; lia || reflexivity.
  - rewrite Z.testbit_neg_r by lia. now rewrite andb_false_r.
Qed.

Lemma word_testbit_high (v n : Z) :
  0 <= v < 2 ^ 32 -> 32 <= n -> Z.testbit v n = false.
Proof.
  intros Hv Hn. rewrite <- (Z.mod_small v (2 ^ 32)) by exact Hv.
  apply Z.mod_pow2_bits_high. lia.
Qed.

(** The four bytes that [write_memory_word] stores compose back to the word. *)
Lemma bytes_recompose (v : Z) :
  0 <= v < 2 ^ 32 ->
  Z.lor (Z.lor (Z.lor (Z.lor 0
    (Z.shiftl (Z.land (Z.shiftr v 0) 0xFF) 0))
    (Z.shiftl (Z.land (Z.shiftr v 8) 0xFF) 8))
    (Z.shiftl (Z.land (Z.shiftr v 16) 0xFF) 16))
    (Z.shiftl (Z.land (Z.shiftr v 24) 0xFF) 24) = v.
Proof.
  intros Hv. apply Z.bits_inj'. intros n Hn.
  rewrite !Z.lor_spec, !byte_field_testbit by lia.
  rewrite Z.bits_0. simpl orb.
  destruct (Z.ltb_spec n 32) as [Hlt|Hge].
  - destruct (Z.testbit v n); [|reflexivity]. simpl.
    destruct (Z.leb_spec 0 n), (Z.ltb_spec n (0 + 8)), (Z.leb_spec 8 n),
             (Z.ltb_spec n (8 + 8)), (Z.leb_spec 16 n), (Z.ltb_spec n (16 + 8)),
             (Z.leb_spec 24 n), (Z.ltb_spec n (24 + 8)); simpl; lia || reflexivity.
  - rewrite (word_testbit_high v n) by lia. reflexivity.
Qed.

Lemma write_word_unfold (m : gmap Z Z) (a v : Z) :
  write_word m a v
  = <[a + 3 := Z.land (Z.shiftr v 24) 0xFF]>
      (<[a + 2 := Z.land (Z.shiftr v 16) 0xFF]>
         (<[a + 1 := Z.land (Z.shiftr v 8) 0xFF]>
            (<[a + 0 := Z.land (Z.shiftr v 0) 0xFF]> m))).
Proof. reflexivity. Qed.

(** The byte that [write_memory_word] leaves at [a + i]. *)
Lemma write_word_byte (m : gmap Z Z) (a v i : Z) :
  0 <= i < 4 ->
  write_word m a v !! (a + i) = Some (Z.land (Z.shiftr v (i * 8)) 0xFF).
Proof.
  intros Hi. rewrite write_word_unfold.
  assert (i = 0 \/ i = 1 \/ i = 2 \/ i = 3) as [-> | [-> | [-> | ->]]] by lia.
  - rewrite !lookup_insert_ne by lia. now rewrite lookup_insert_eq.
  - rewrite !lookup_insert_ne by lia. now rewrite lookup_insert_eq.
  - rewrite lookup_insert_ne by lia. now rewrite lookup_insert_eq.
  - now rewrite lookup_insert_eq.
Qed.

Lemma write_word_other (m : gmap Z Z) (a v b : Z) :
  b < a \/ a + 4 <= b -> write_word m a v !! b = m !! b.
Proof.
  intros Hb. rewrite write_word_unfold. now rewrite !lookup_insert_ne by lia.
Qed.

Lemma read_write_word (m : gmap Z Z) (a v : Z) :
  0 <= v < 2 ^ 32 -> read_word (write_word m a v) a = v.
Proof.
  intros Hv. unfold read_word, mem_get. cbn [fold_left].
  rewrite !write_word_byte by lia. cbn [default Z.mul Pos.mul].
  now apply bytes_recompose.
Qed.

(** C9.  Writing a word [v] with [0 <= v < 2^32] at any address [a] and
    reading the word at [a] back returns exactly [v]; the write leaves the
    four bytes of [v] in little-endian order at [a .. a+3], each
    [(v >> 8i) & 0xFF = (v / 2^(8i)) mod 256], and no other address changes;
    an address that was never written (none is in the initial memory) reads
    as byte 0. *)
Theorem memory_word_roundtrip (s : Executor) (a v : Z) :
  0 <= v < 2 ^ 32 ->
  let s' := with_memory (write_word (memory s) a v) s in
  (write_memory_word a v ;; read_memory_word a) s = Ok v s'
  /\ (forall i, 0 <= i < 4 ->
        read_memory_byte (a + i) s' = Ok ((v / 2 ^ (8 * i)) mod 256) s')
  /\ (forall b, b < a \/ a + 4 <= b -> memory s' !! b = memory s !! b)
  /\ (forall b, memory s !! b = None -> read_memory_byte b s = Ok 0 s)
  /\ (forall c b, read_memory_byte b (Executor_init c) = Ok 0 (Executor_init c)).
Proof.
  intros Hv s'. split; [|split; [|split; [|split]]].
  - change ((write_memory_word a v ;; read_memory_word a) s)
      with (Ok (read_word (write_word (memory s) a v) a) s').
    now rewrite read_write_word.
  - intros i Hi. unfold read_memory_byte, gets, mem_get. cbn [memory s' with_memory].
    rewrite write_word_byte by exact Hi. cbn [default]. f_equal.
    change 0xFF with (Z.ones 8).
    rewrite Z.land_ones, Z.shiftr_div_pow2 by lia.
    now rewrite (Z.mul_comm i 8).
  - intros b Hb. cbn. now apply write_word_other.
  - intros b Hb. unfold read_memory_byte, gets, mem_get. now rewrite Hb.
  - intros c b. reflexivity.
Qed.

(** C9 at a sample word. *)
Lemma memory_word_roundtrip_witness :
  (write_memory_word 0x100 0xDEADBEEF ;; read_memory_word 0x100) (Executor_init None)
  = Ok 0xDEADBEEF
       (with_memory (write_word ∅ 0x100 0xDEADBEEF) (Executor_init None)).
Proof.
  apply (memory_word_roundtrip (Executor_init None) 0x100 0xDEADBEEF). lia.
Defined.

End Memory.

(** ** A single cache level *)

Section CacheLevel.
Import Cache.

(** A level as [BaseCache.__init__] builds it from a positive block size
    and a capacity of at least one block, and as [access] keeps it. *)
Record well_formed (c : BaseCache) : Prop := {
  wf_block_size : block_size c <> 0;
  wf_num_blocks : 0 < num_blocks c;
  wf_lines : Z.of_nat (length (lines c)) = num_blocks c
}.

Definition same_geometry (c c' : BaseCache) : Prop :=
  size c' = size c /\ block_size c' = block_size c /\ mapping c' = mapping c
  /\ num_blocks c' = num_blocks c /\ length (lines c') = length (lines c).

Lemma same_geometry_well_formed (c c' : BaseCache) :
  same_geometry c c' -> well_formed c -> well_formed c'.
Proof.
  intros (_ & Hb & _ & Hn & Hl) [H1 H2 H3].
  constructor; rewrite ?Hb, ?Hn, ?Hl; assumption.
Qed.

Lemma same_geometry_index (c c' : BaseCache) (a : Z) :
  same_geometry c c' -> get_index_and_tag c' a = get_index_and_tag c a.
Proof.
  intros (_ & Hb & Hm & Hn & _). unfold get_index_and_tag.
  now rewrite Hb, Hm, Hn.
Qed.

Lemma index_in_range (c : BaseCache) (a i t : Z) :
  well_formed c -> get_index_and_tag c a = inr (i, t) ->
  0 <= i < Z.of_nat (length (lines c)) /\ t = a / block_size c.
Proof.
  intros [H1 H2 H3]. unfold get_index_and_tag.
  destruct (block_size c =? 0); [discriminate|].
  destruct (String.eqb (mapping c) "direct").
  - destruct (num_blocks c =? 0); [discriminate|].
    intros [= <- <-]. split; [|reflexivity].
    rewrite H3. apply Z.mod_pos_bound. exact H2.
  - intros [= <- <-]. split; [lia|reflexivity].
Qed.

Lemma index_defined (c : BaseCache) (a : Z) :
  well_formed c -> exists i, get_index_and_tag c a = inr (i, a / block_size c).
Proof.
  intros [H1 H2 H3]. unfold get_index_and_tag.
  apply Z.eqb_neq in H1. rewrite H1.
  destruct (String.eqb (mapping c) "direct"); [|eauto].
  replace (num_blocks c =? 0) with false by (symmetry; apply Z.eqb_neq; lia).
  eauto.
Qed.

(** What a hit does. *)
Lemma access_hit (c : BaseCache) (a i t : Z) (w : bool) (line : CacheLine) :
  well_formed c ->
  get_index_and_tag c a = inr (i, t) ->
  lines c !! Z.to_nat i = Some line ->
  line_matches line t = true ->
  exists c',
    access a w c = Ok true c'
    /\ same_geometry c c'
    /\ accesses c' = accesses c + 1 /\ hits c' = hits c + 1
    /\ misses c' = misses c /\ write_backs c' = write_backs c
    /\ lines c' = if w then <[Z.to_nat i := {| valid := valid line; tag := tag line;
                                               dirty := true |}]> (lines c)
                  else lines c.
Proof.
  intros Hwf Hidx Hline Hm.
  destruct (index_in_range c a i t Hwf Hidx) as [Hi _].
  unfold access.
  rewrite (same_geometry_index c) by (repeat split).
  rewrite Hidx. cbn [lines with_counters].
  rewrite py_norm_index_in_range by exact Hi.
  rewrite Hline, Hm.
  destruct w; eexists; (split; [reflexivity|]); cbn;
    unfold same_geometry; cbn; rewrite ?length_insert; repeat split.
Qed.

(** What a miss does: the line at the index is replaced, and a write-back
    is counted exactly when the replaced line was valid and dirty. *)
Lemma access_miss (c : BaseCache) (a i t : Z) (w : bool) (line : CacheLine) :
  well_formed c ->
  get_index_and_tag c a = inr (i, t) ->
  lines c !! Z.to_nat i = Some line ->
  line_matches line t = false ->
  exists c',
    access a w c = Ok false c'
    /\ same_geometry c c'
    /\ accesses c' = accesses c + 1 /\ hits c' = hits c
    /\ misses c' = misses c + 1
    /\ write_backs c' = write_backs c + (if valid line && dirty line then 1 else 0)
    /\ lines c' = <[Z.to_nat i := {| valid := true; tag := Some t; dirty := w |}]> (lines c).
Proof.
  intros Hwf Hidx Hline Hm.
  destruct (index_in_range c a i t Hwf Hidx) as [Hi _].
  unfold access.
  rewrite (same_geometry_index c) by (repeat split).
  rewrite Hidx. cbn [lines with_counters].
  rewrite py_norm_index_in_range by exact Hi.
  rewrite Hline, Hm.
  destruct (valid line && dirty line); eexists; (split; [reflexivity|]); cbn;
    unfold same_geometry; cbn; rewrite ?length_insert; repeat split; lia.
Qed.

Lemma line_after_install (c c' : BaseCache) (i : Z) (l : CacheLine) :
  0 <= i < Z.of_nat (length (lines c)) ->
  lines c' = <[Z.to_nat i := l]> (lines c) ->
  lines c' !! Z.to_nat i = Some l.
Proof.
  intros Hi ->. apply list_lookup_insert_eq. lia.
Qed.

Variables (size0 block_size0 : Z) (mapping0 : string).
Hypothesis block_positive : 0 < block_size0.
Hypothesis one_block : block_size0 <= size0.

Lemma init_well_formed (c0 : BaseCache) :
  BaseCache_init size0 block_size0 mapping0 = inr c0 ->
  well_formed c0
  /\ accesses c0 = 0 /\ hits c0 = 0 /\ misses c0 = 0 /\ write_backs c0 = 0
  /\ forall n line, lines c0 !! n = Some line -> line = CacheLine_init.
Proof.
  unfold BaseCache_init.
  replace (block_size0 =? 0) with false by (symmetry; apply Z.eqb_neq; lia).
  intros [= <-].
  assert (0 < size0 / block_size0) by (apply Z.div_str_pos; lia).
  split; [constructor; cbn|cbn].
  - lia.
  - assumption.
  - rewrite length_replicate. lia.
  - repeat split. intros n line Hl.
    apply lookup_replicate in Hl. tauto.
Qed.

Lemma first_access (c0 : BaseCache) (a i t : Z) (w : bool) :
  BaseCache_init size0 block_size0 mapping0 = inr c0 ->
  get_index_and_tag c0 a = inr (i, t) ->
  exists c1,
    access a w c0 = Ok false c1
    /\ same_geometry c0 c1
    /\ hits c1 = 0 /\ misses c1 = 1 /\ write_backs c1 = 0
    /\ lines c1 !! Z.to_nat i = Some {| valid := true; tag := Some t; dirty := w |}.
Proof.
  intros Hinit Hidx.
  destruct (init_well_formed c0 Hinit) as (Hwf & _ & Hh & Hm & Hw & Hfresh).
  destruct (index_in_range c0 a i t Hwf Hidx) as [Hi _].
  destruct (lookup_lt_is_Some_2 (lines c0) (Z.to_nat i)) as [line Hline]; [lia|].
  pose proof (Hfresh _ _ Hline) as ->.
  destruct (access_miss c0 a i t w _ Hwf Hidx Hline eq_refl)
    as (c1 & Hacc & Hgeo & _ & Hh1 & Hm1 & Hw1 & Hl1).
  exists c1. cbn in Hw1.
  repeat (split; [first [assumption | lia]|]).
  eapply line_after_install; eassumption.
Qed.

(** C5.  For a single cache level built with a positive block size and room
    for at least one block, under either mapping policy: every line starts
    invalid; the first access to any address misses and an immediately
    following access to the same address hits; an access that maps to the
    index of a valid line holding a different tag misses, replaces that
    line and counts one write-back if the replaced line was dirty and none
    otherwise; and the line installed by a first access is dirty at its
    eviction exactly when it was written, by the installing access or by a
    later hit. *)
Theorem cache_miss_hit_evict (c0 : BaseCache) :
  BaseCache_init size0 block_size0 mapping0 = inr c0 ->
  (forall line, In line (lines c0) -> valid line = false)
  /\ (forall a w, exists c1,
        access a w c0 = Ok false c1
        /\ misses c1 = 1 /\ hits c1 = 0 /\ write_backs c1 = 0
        /\ forall w', exists c2,
            access a w' c1 = Ok true c2
            /\ misses c2 = 1 /\ hits c2 = 1 /\ write_backs c2 = 0)
  /\ (forall c b i tb line w,
        well_formed c ->
        get_index_and_tag c b = inr (i, tb) ->
        lines c !! Z.to_nat i = Some line ->
        valid line = true -> tag line <> Some tb ->
        exists c',
          access b w c = Ok false c'
          /\ misses c' = misses c + 1
          /\ write_backs c' = write_backs c + (if dirty line then 1 else 0)
          /\ lines c' !! Z.to_nat i
             = Some {| valid := true; tag := Some tb; dirty := w |})
  /\ (forall a b i ta tb w w',
        get_index_and_tag c0 a = inr (i, ta) ->
        get_index_and_tag c0 b = inr (i, tb) ->
        ta <> tb ->
        exists c2,
          (access a w ;; access b w') c0 = Ok false c2
          /\ write_backs c2 = (if w then 1 else 0))
  /\ (forall a b i ta tb w1 w2 w',
        get_index_and_tag c0 a = inr (i, ta) ->
        get_index_and_tag c0 b = inr (i, tb) ->
        ta <> tb ->
        exists c3,
          (access a w1 ;; access a w2 ;; access b w') c0 = Ok false c3
          /\ write_backs c3 = (if w1 || w2 then 1 else 0)).
Proof.
  intros Hinit.
  destruct (init_well_formed c0 Hinit) as (Hwf & _ & _ & _ & _ & Hfresh).
  assert (Hevict : forall c b i tb line w,
             well_formed c ->
             get_index_and_tag c b = inr (i, tb) ->
             lines c !! Z.to_nat i = Some line ->
             valid line = true -> tag line <> Some tb ->
             exists c',
               access b w c = Ok false c'
               /\ same_geometry c c'
               /\ misses c' = misses c + 1
               /\ write_backs c' = write_backs c + (if dirty line then 1 else 0)
               /\ lines c' !! Z.to_nat i
                  = Some {| valid := true; tag := Some tb; dirty := w |}).
  { intros c b i tb line w Hc Hidx Hline Hv Ht.
    destruct (index_in_range c b i tb Hc Hidx) as [Hi _].
    assert (line_matches line tb = false) as Hm.
    { unfold line_matches. rewrite Hv. destruct (tag line) as [t'|]; [|reflexivity].
      apply Z.eqb_neq. congruence. }
    destruct (access_miss c b i tb w line Hc Hidx Hline Hm)
      as (c' & Hacc & Hgeo & _ & _ & Hm' & Hw' & Hl').
    rewrite Hv in Hw'. exists c'.
    repeat (split; [assumption|]).
    eapply line_after_install; eassumption. }
  split; [|split; [|split; [|split]]].
  - intros line Hin. apply list_elem_of_In, list_elem_of_lookup in Hin.
    destruct Hin as [n Hn]. now rewrite (Hfresh _ _ Hn).
  - intros a w.
    destruct (index_defined c0 a Hwf) as [i Hidx].
    destruct (first_access c0 a i _ w Hinit Hidx)
      as (c1 & Hacc & Hgeo & Hh & Hm & Hw & Hl).
    exists c1. repeat (split; [assumption|]).
    intros w'.
    assert (get_index_and_tag c1 a = inr (i, a / block_size c0)) as Hidx1
      by now rewrite (same_geometry_index c0 c1 a Hgeo).
    destruct (access_hit c1 a i _ w' _
                (same_geometry_well_formed _ _ Hgeo Hwf) Hidx1 Hl)
      as (c2 & Hacc2 & _ & _ & Hh2 & Hm2 & Hw2 & _).
    { unfold line_matches. cbn. apply Z.eqb_refl. }
    exists c2. repeat split; [assumption|lia..].
  - intros c b i tb line w Hc Hidx Hline Hv Ht.
    destruct (Hevict c b i tb line w Hc Hidx Hline Hv Ht)
      as (c' & ? & _ & ? & ? & ?).
    exists c'. repeat (split; [assumption|]). assumption.
  - intros a b i ta tb w w' Ha Hb Hne.
    destruct (first_access c0 a i ta w Hinit Ha)
      as (c1 & Hacc & Hgeo & Hh & Hm & Hw & Hl).
    destruct (Hevict c1 b i tb _ w'
                (same_geometry_well_formed _ _ Hgeo Hwf)
                ltac:(now rewrite (same_geometry_index c0 c1 b Hgeo))
                Hl eq_refl ltac:(cbn; congruence))
      as (c2 & Hacc2 & _ & _ & Hw2 & _).
    exists c2. unfold bind. rewrite Hacc. split; [exact Hacc2|].
    rewrite Hw2, Hw. cbn. now destruct w.
  - intros a b i ta tb w1 w2 w' Ha Hb Hne.
    destruct (first_access c0 a i ta w1 Hinit Ha)
      as (c1 & Hacc & Hgeo & Hh & Hm & Hw & Hl).
    pose proof (same_geometry_well_formed _ _ Hgeo Hwf) as Hwf1.
    destruct (index_in_range c0 a i ta Hwf Ha) as [Hi _].
    assert (get_index_and_tag c1 a = inr (i, ta)) as Ha1
      by now rewrite (same_geometry_index c0 c1 a Hgeo).
    destruct (access_hit c1 a i ta w2 _ Hwf1 Ha1 Hl)
      as (c2 & Hacc2 & Hgeo2 & _ & _ & _ & Hw2 & Hl2).
    { unfold line_matches. cbn. apply Z.eqb_refl. }
    pose proof (same_geometry_well_formed _ _ Hgeo2 Hwf1) as Hwf2.
    assert (lines c2 !! Z.to_nat i
            = Some {| valid := true; tag := Some ta; dirty := w1 || w2 |}) as Hline2.
    { rewrite Hl2. destruct w2.
      - cbn. rewrite orb_true_r. apply list_lookup_insert_eq.
        destruct Hgeo as (_ & _ & _ & _ & Hlen). lia.
      - now rewrite orb_false_r. }
    destruct (Hevict c2 b i tb _ w' Hwf2
                ltac:(now rewrite (same_geometry_index c1 c2 b Hgeo2),
                                  (same_geometry_index c0 c1 b Hgeo))
                Hline2 eq_refl ltac:(cbn; congruence))
      as (c3 & Hacc3 & _ & _ & Hw3 & _).
    exists c3. unfold bind. rewrite Hacc, Hacc2. split; [exact Hacc3|].
    rewrite Hw3, Hw2, Hw. cbn. now destruct (w1 || w2).
Qed.

End CacheLevel.

(** C5 on the L1 configuration of [main.py] (1024 bytes, blocks of 8,
    direct-mapped). *)
Lemma cache_miss_hit_evict_witness :
  exists c0 c1,
    Cache.BaseCache_init 1024 8 "direct" = inr c0
    /\ Cache.access 0x40 true c0 = Ok false c1
    /\ Cache.misses c1 = 1 /\ Cache.hits c1 = 0 /\ Cache.write_backs c1 = 0.
Proof.
  destruct (Cache.BaseCache_init 1024 8 "direct") as [e|c0] eqn:Hinit;
    [discriminate Hinit|].
  destruct (cache_miss_hit_evict 1024 8 "direct" ltac:(lia) ltac:(lia) c0 Hinit)
    as (_ & Hfirst & _).
  destruct (Hfirst 0x40 true) as (c1 & Hacc & Hm & Hh & Hw & _).
  exists c0, c1. repeat split; assumption.
Defined.

(** ** The cache hierarchy's reset *)

Section Reset.
Import Cache Executor.

(** The configuration [run_simulation] builds in [main.py]. *)
Definition main_l1_conf : conf := (1024, 8, "direct").
Definition main_l2_conf : conf := (16384, 32, "direct").

Definition main_level (c : conf) : BaseCache :=
  let '(sz, bs, mp) := c in
  {| size := sz; block_size := bs; mapping := mp; num_blocks := sz / bs;
     lines := replicate (Z.to_nat (sz / bs)) CacheLine_init;
     accesses := 0; hits := 0; misses := 0; write_backs := 0 |}.

Definition main_cache : CacheSimulator :=
  {| L1I := main_level main_l1_conf; L1D := main_level main_l1_conf;
     L2 := main_level main_l2_conf; stats := ∅ |}.

Lemma main_cache_init :
  CacheSimulator_init main_l1_conf main_l1_conf main_l2_conf = inr main_cache.
Proof. reflexivity. Qed.

Lemma reset_result (sim : CacheSimulator) :
  reset sim
  = Ok tt {| L1I := with_counters 0 0 0 0 (L1I sim);
             L1D := with_counters 0 0 0 0 (L1D sim);
             L2 := with_counters 0 0 0 0 (L2 sim);
             stats := ∅ |}.
Proof. reflexivity. Qed.

(** C2, as the code has it.  [CacheSimulator.reset] always returns; after it
    the four counters of each of the three levels are zero and the
    statistics map is empty, so every statistic reads zero; the lines of
    the three levels are exactly the lines from before the reset (nothing
    is invalidated); and a reset of the cache attached to an executor leaves
    its registers, flags and memory as they were. *)
Theorem reset_clears_statistics_only (sim : CacheSimulator) :
  exists sim',
    reset sim = Ok tt sim'
    /\ (forall level, In level [L1I sim'; L1D sim'; L2 sim'] ->
          accesses level = 0 /\ hits level = 0
          /\ misses level = 0 /\ write_backs level = 0)
    /\ stats sim' = ∅ /\ (forall k, stat sim' k = 0)
    /\ lines (L1I sim') = lines (L1I sim)
    /\ lines (L1D sim') = lines (L1D sim)
    /\ lines (L2 sim') = lines (L2 sim)
    /\ (forall s : Executor,
          let s' := final_state (on_cache sim reset s) in
          cache s' = Some sim' /\ registers s' = registers s
          /\ cpsr s' = cpsr s /\ memory s' = memory s).
Proof.
  eexists. split; [apply reset_result|].
  split; [|repeat split].
  intros level [<- | [<- | [<- | []]]]; repeat split.
Qed.

(** C2 as stated fails: a line installed by a data read is still valid after
    the reset. *)
Lemma reset_invalidates_lines_counterexample :
  let used := final_state (access_data 0 false main_cache) in
  let after := final_state (reset used) in
  accesses (L1D used) = 1
  /\ accesses (L1D after) = 0
  /\ ~ (forall line, In line (lines (L1D after)) -> valid line = false).
Proof.
  cbv zeta. split; [reflexivity|]. split; [reflexivity|].
  intros H.
  specialize (H {| valid := true; tag := Some 0; dirty := false |}).
  assert (valid {| valid := true; tag := Some 0; dirty := false |} = false) as Hv.
  { apply H. vm_compute. left. reflexivity. }
  discriminate Hv.
Qed.

End Reset.

(** ** Bit-level facts *)

Lemma truthy_land_pow2 (x n : Z) :
  0 <= n -> truthy (Z.land x (2 ^ n)) = Z.testbit x n.
Proof.
  intros Hn.
  assert (Z.land x (2 ^ n) = if Z.testbit x n then 2 ^ n else 0) as ->.
  { apply Z.bits_inj'. intros m Hm.
    rewrite Z.land_spec, Z.pow2_bits_eqb by exact Hn.
    destruct (Z.eqb_spec n m) as [<-|Hne].
    - destruct (Z.testbit x n); [|now rewrite Z.bits_0].
      rewrite Z.pow2_bits_eqb by exact Hn. now rewrite Z.eqb_refl.
    - rewrite andb_false_r.
      destruct (Z.testbit x n); [|now rewrite Z.bits_0].
      rewrite Z.pow2_bits_eqb by exact Hn.
      symmetry. now apply Z.eqb_neq. }
  unfold truthy. destruct (Z.testbit x n); [|reflexivity].
  assert (0 < 2 ^ n) by (apply Z.pow_pos_nonneg; lia).
  destruct (Z.eqb_spec (2 ^ n) 0); [lia|reflexivity].
Qed.

Lemma testbit_top (x n : Z) :
  0 <= n -> 0 <= x < 2 ^ (n + 1) -> Z.testbit x n = (2 ^ n <=? x).
Proof.
  intros Hn Hx.
  assert (0 < 2 ^ n) as Hp by (apply Z.pow_pos_nonneg; lia).
  replace (2 ^ (n + 1)) with (2 * 2 ^ n) in Hx
    by (symmetry; apply (Z.pow_succ_r 2 n Hn)).
  rewrite Z.testbit_eqb by exact Hn.
  destruct (Z.leb_spec (2 ^ n) x).
  - replace (x / 2 ^ n) with 1 by (apply Z.div_unique with (x - 2 ^ n); lia).
    reflexivity.
  - rewrite Z.div_small by lia. reflexivity.
Qed.

Lemma testbit_negative_high (x k m : Z) :
  0 <= k <= m -> - 2 ^ k <= x < 0 -> Z.testbit x m = true.
Proof.
  intros Hk Hx.
  assert (2 ^ k <= 2 ^ m) by (apply Z.pow_le_mono_r; lia).
  rewrite Z.testbit_eqb by lia.
  replace (x / 2 ^ m) with (-1); [reflexivity|].
  apply Z.div_unique with (x + 2 ^ m); lia.
Qed.

Lemma mask32_mod (x : Z) : Executor.mask32 x = x mod 2 ^ 32.
Proof.
  unfold Executor.mask32. change 0xFFFFFFFF with (Z.ones 32).
  apply Z.land_ones. lia.
Qed.

(** ** Sign extension of branch offsets *)

(** The two's complement value of the low [width] bits [x]. *)
Definition sign_extend (width x : Z) : Z :=
  if x <? 2 ^ (width - 1) then x else x - 2 ^ width.

Lemma sign_extend_range (width x : Z) :
  0 < width -> 0 <= x < 2 ^ width ->
  - 2 ^ (width - 1) <= sign_extend width x < 2 ^ (width - 1).
Proof.
  intros Hw Hx. unfold sign_extend.
  replace (2 ^ width) with (2 * 2 ^ (width - 1)) in *
    by (rewrite <- (Z.pow_succ_r 2 (width - 1)) by lia; f_equal; lia).
  destruct (Z.ltb_spec x (2 ^ (width - 1))); lia.
Qed.

(** The decoders' [if offset & top: offset -= 2 * top]. *)
Lemma decoder_sign_extend (width x : Z) :
  0 < width -> 0 <= x < 2 ^ width ->
  (if truthy (Z.land x (2 ^ (width - 1))) then x - 2 ^ width else x)
  = sign_extend width x.
Proof.
  intros Hw Hx. unfold sign_extend.
  rewrite truthy_land_pow2 by lia.
  rewrite testbit_top by (replace (width - 1 + 1) with width by lia; lia).
  destruct (Z.leb_spec (2 ^ (width - 1)) x), (Z.ltb_spec x (2 ^ (width - 1)));
    lia || reflexivity.
Qed.

(** On an offset the ARM decoder has already sign-extended, the second sign
    extension of the branch handlers changes nothing. *)
Lemma branch_offset24_signed (o : Z) :
  - 2 ^ 23 <= o < 2 ^ 23 -> Executor.branch_offset24 o = Z.shiftl o 2.
Proof.
  intros Ho. unfold Executor.branch_offset24.
  change 0x800000 with (2 ^ 23). rewrite truthy_land_pow2 by lia.
  destruct (Z.testbit o 23) eqn:Hb; [|reflexivity].
  f_equal.
  assert (o < 0) as Hneg.
  { destruct (Z.ltb_spec o 0) as [|Hge]; [assumption|].
    rewrite testbit_top in Hb by (simpl; lia).
    apply Z.leb_le in Hb. lia. }
  apply Z.bits_inj'. intros m Hm. rewrite Z.lor_spec.
  destruct (Z.leb_spec 23 m).
  - now rewrite (testbit_negative_high o 23 m) by lia.
  - change 0xFF000000 with (Z.shiftl (Z.ones 8) 24).
    rewrite Z.shiftl_spec by exact Hm.
    rewrite (Z.testbit_neg_r _ (m - 24)) by lia.
    apply orb_false_r.
Qed.

(** ** Register file access *)

Section Registers.
Import Executor.

(** The register file has its sixteen slots. *)
Definition sixteen (s : Executor) : Prop := length (registers s) = 16%nat.

Lemma reg_ok (s : Executor) (i v : Z) :
  sixteen s -> 0 <= i < 16 -> registers s !! Z.to_nat i = Some v ->
  reg i s = Ok v s.
Proof.
  intros Hlen Hi Hv. unfold reg, lift, py_index. rewrite Hlen.
  rewrite py_norm_index_in_range by (simpl; lia). now rewrite Hv.
Qed.

Lemma set_reg_ok (s : Executor) (i v : Z) :
  sixteen s -> 0 <= i < 16 ->
  set_reg i v s = Ok tt (with_registers (<[Z.to_nat i := v]> (registers s)) s).
Proof.
  intros Hlen Hi. unfold set_reg, py_setitem. rewrite Hlen.
  now rewrite py_norm_index_in_range by (simpl; lia).
Qed.

Lemma init_sixteen (c : option Cache.CacheSimulator) : sixteen (Executor_init c).
Proof. reflexivity. Qed.

End Registers.

(** ** ARM branches *)

Section ArmBranch.
Import Executor.

Lemma land_24_range (instruction : Z) : 0 <= Z.land instruction 0xFFFFFF < 2 ^ 24.
Proof. apply (land_ones_range instruction 24). lia. Qed.

(** What the ARM decoder returns when the mnemonic is [B] or [BL]. *)
Lemma arm_decode_branch (instruction : Z) (m : string) :
  m = "B" \/ m = "BL" ->
  fst (ARMDecoder.decode_instruction instruction) = m ->
  ARMDecoder.decode_instruction instruction
  = (m, [("offset", sign_extend 24 (Z.land instruction 0xFFFFFF))]).
Proof.
  intros Hm. unfold ARMDecoder.decode_instruction.
  change 0x800000 with (2 ^ (24 - 1)). change 0x1000000 with (2 ^ 24).
  rewrite decoder_sign_extend by (lia || apply land_24_range).
  generalize (sign_extend 24 (Z.land instruction 0xFFFFFF)). intros o.
  repeat match goal with
         | |- context [if ?b then _ else _] => destruct b
         end;
    cbn [fst]; intros <-; try reflexivity;
    destruct Hm as [Hm|Hm]; discriminate Hm.
Qed.

(** C6.  For an instruction the ARM decoder classifies as [B], executing it
    with [pc] in R15 sets R15 to
    [(pc + 8 + (sign-extended 24-bit offset << 2)) mod 2^32] and changes
    nothing else; for [BL] the target is the same and R14 becomes [pc + 4].
    From the initial state (PC = 0), [B] with a zero offset field goes to
    [0x08], and [BL] with a zero offset field sets LR = [0x04] and goes to
    [0x08]. *)
Theorem arm_branch_target :
  (forall (s : Executor) (instruction pc : Z),
      sixteen s -> registers s !! 15%nat = Some pc ->
      let target :=
        (pc + 8 + Z.shiftl (sign_extend 24 (Z.land instruction 0xFFFFFF)) 2)
          mod 2 ^ 32 in
      (fst (ARMDecoder.decode_instruction instruction) = "B" ->
       execute_arm_instruction instruction s
       = Ok tt (with_registers (<[15%nat := target]> (registers s)) s))
      /\ (fst (ARMDecoder.decode_instruction instruction) = "BL" ->
          execute_arm_instruction instruction s
          = Ok tt (with_registers
                     (<[15%nat := target]> (<[14%nat := pc + 4]> (registers s))) s)))
  /\ (forall c,
        let s' := final_state (execute_arm_instruction 0xEA000000 (Executor_init c)) in
        registers s' !! 15%nat = Some 0x08)
  /\ (forall c,
        let s' := final_state (execute_arm_instruction 0xEB000000 (Executor_init c)) in
        registers s' !! 14%nat = Some 0x04 /\ registers s' !! 15%nat = Some 0x08).
Proof.
  split; [|split; intros c; vm_compute; auto].
  intros s instruction pc Hlen Hpc target.
  pose proof (sign_extend_range 24 (Z.land instruction 0xFFFFFF) ltac:(lia)
                (land_24_range instruction)) as Hrange.
  change (24 - 1) with 23 in Hrange.
  split; intros Hm; unfold execute_arm_instruction.
  - rewrite (arm_decode_branch instruction "B" ltac:(auto) Hm).
    change (dispatch_arm "B" ?ops) with (execute_arm_branch ops).
    unfold execute_arm_branch, bind, arg. cbn [getitem dict_get String.eqb lift].
    cbn -[Z.land Z.shiftl sign_extend reg set_reg mask32 branch_offset24].
    rewrite (reg_ok s PC pc Hlen) by (unfold PC; simpl; (lia || assumption)).
    rewrite set_reg_ok by (unfold PC; (lia || assumption)).
    rewrite mask32_mod, branch_offset24_signed by exact Hrange.
    reflexivity.
  - rewrite (arm_decode_branch instruction "BL" ltac:(auto) Hm).
    change (dispatch_arm "BL" ?ops) with (execute_arm_branch_link ops).
    unfold execute_arm_branch_link, bind, arg.
    cbn -[Z.land Z.shiftl sign_extend reg set_reg mask32 branch_offset24].
    rewrite (reg_ok s PC pc Hlen) by (unfold PC; simpl; (lia || assumption)).
    rewrite set_reg_ok by (unfold LR; (lia || assumption)).
    rewrite (reg_ok _ PC pc) ;
      [|unfold sixteen; cbn; now rewrite length_insert
       |unfold PC; lia
       |cbn; rewrite list_lookup_insert_ne by (unfold LR, PC; lia); exact Hpc].
    rewrite set_reg_ok by
        (unfold PC; try lia; unfold sixteen; cbn; now rewrite length_insert).
    rewrite mask32_mod, branch_offset24_signed by exact Hrange.
    reflexivity.
Qed.

(** C6 on [B] with offset field [-2], fetched at [0x10]. *)
Lemma arm_branch_target_witness :
  let s := with_registers (<[15%nat := 0x10]> (registers (Executor_init None)))
                          (Executor_init None) in
  execute_arm_instruction 0xEAFFFFFE s
  = Ok tt (with_registers (<[15%nat := 0x10]> (registers s)) s).
Proof.
  intros s.
  destruct arm_branch_target as (H & _).
  destruct (H s 0xEAFFFFFE 0x10 eq_refl eq_refl) as (HB & _).
  exact (HB eq_refl).
Defined.

End ArmBranch.

(** ** Thumb branches *)

Section ThumbBranch.
Import Executor.

Lemma py_index_In {A} (l : list A) (i : Z) (x : A) :
  py_index l i = inr x -> In x l.
Proof.
  unfold py_index.
  destruct (py_norm_index _ i) as [n|]; [|discriminate].
  destruct (l !! n) as [y|] eqn:Hy; [|discriminate].
  intros [= <-]. apply list_elem_of_In. eapply list_elem_of_lookup_2. exact Hy.
Qed.

(** What the Thumb decoder returns when the mnemonic is [T_B] or [T_BCC]:
    the offset operand is twice the sign-extended offset field. *)
Lemma thumb_decode_branch (instruction : Z) (ops : operands) :
  (FixedThumbDecoder.decode_thumb_instruction instruction = inr ("T_B", ops) ->
   ops = [("offset", sign_extend 11 (Z.land instruction 0x7FF) * 2)])
  /\ (FixedThumbDecoder.decode_thumb_instruction instruction = inr ("T_BCC", ops) ->
      ops = [("condition", Z.land (Z.shiftr instruction 8) 0xF);
             ("offset", sign_extend 8 (Z.land instruction 0xFF) * 2)]).
Proof.
  unfold FixedThumbDecoder.decode_thumb_instruction.
  change 0x80 with (2 ^ (8 - 1)). change 0x100 with (2 ^ 8).
  change 0x400 with (2 ^ (11 - 1)). change 0x800 with (2 ^ 11).
  rewrite !decoder_sign_extend
    by (lia || (apply (land_ones_range instruction 8); lia)
            || (apply (land_ones_range instruction 11); lia)).
  generalize (sign_extend 8 (Z.land instruction 0xFF)).
  generalize (sign_extend 11 (Z.land instruction 0x7FF)).
  intros o11 o8.
  split;
    repeat match goal with
           | |- context [if ?b then _ else _] => destruct b
           | |- context [match py_index ?l ?i with _ => _ end] =>
             let E := fresh "E" in
             destruct (py_index l i) eqn:E; [|apply py_index_In in E]
           end;
    intros H; try discriminate H; inversion H; subst; try reflexivity;
    match goal with
    | E : In _ _ |- _ =>
      cbn in E;
      repeat (destruct E as [E|E];
              [subst; try discriminate;
               match goal with
               | H1 : String.append _ _ = _ |- _ => vm_compute in H1; discriminate H1
               end|]);
      contradiction
    end.
Qed.

Lemma check_condition_pure (condition : Z) (s : Executor) :
  exists b, check_condition condition s = Ok b s.
Proof. eexists. reflexivity. Qed.

(** C10.  For an instruction the Thumb decoder classifies as [T_B], and for
    one it classifies as [T_BCC] whose condition holds, executing it with
    [pc] in R15 sets R15 to [(pc + 4 + (offset << 1)) mod 2^32], where
    [offset] is the decoded operand, which is twice the sign-extended offset
    field; so the target is [(pc + 4 + 4 * field) mod 2^32]. *)
Theorem thumb_branch_target (s : Executor) (instruction pc : Z) (ops : operands) :
  sixteen s -> registers s !! 15%nat = Some pc ->
  (FixedThumbDecoder.decode_thumb_instruction instruction = inr ("T_B", ops) ->
   let field := sign_extend 11 (Z.land instruction 0x7FF) in
   dict_get ops "offset" = Some (field * 2)
   /\ execute_thumb_instruction instruction s
      = Ok tt (with_registers
                 (<[15%nat := (pc + 4 + Z.shiftl (field * 2) 1) mod 2 ^ 32]>
                    (registers s)) s)
   /\ (pc + 4 + Z.shiftl (field * 2) 1) mod 2 ^ 32 = (pc + 4 + 4 * field) mod 2 ^ 32)
  /\ (FixedThumbDecoder.decode_thumb_instruction instruction = inr ("T_BCC", ops) ->
      check_condition (Z.land (Z.shiftr instruction 8) 0xF) s = Ok true s ->
      let field := sign_extend 8 (Z.land instruction 0xFF) in
      dict_get ops "offset" = Some (field * 2)
      /\ execute_thumb_instruction instruction s
         = Ok tt (with_registers
                    (<[15%nat := (pc + 4 + Z.shiftl (field * 2) 1) mod 2 ^ 32]>
                       (registers s)) s)
      /\ (pc + 4 + Z.shiftl (field * 2) 1) mod 2 ^ 32
         = (pc + 4 + 4 * field) mod 2 ^ 32).
Proof.
  intros Hlen Hpc.
  destruct (thumb_decode_branch instruction ops) as [HB HBCC].
  assert (Hshift : forall f, Z.shiftl (f * 2) 1 = 4 * f)
    by (intros f; rewrite Z.shiftl_mul_pow2 by lia; change (2 ^ 1) with 2; lia).
  split.
  - intros Hdec field. pose proof (HB Hdec) as ->. fold field.
    split; [reflexivity|]. split; [|now rewrite Hshift].
    unfold execute_thumb_instruction, bind, lift. rewrite Hdec.
    change (dispatch_thumb "T_B" ?o) with (execute_thumb_branch o).
    unfold execute_thumb_branch, bind, arg.
    cbn -[Z.land Z.shiftl Z.mul reg set_reg mask32 field].
    rewrite (reg_ok s PC pc Hlen) by (unfold PC; simpl; (lia || assumption)).
    rewrite set_reg_ok by (unfold PC; (lia || assumption)).
    now rewrite mask32_mod.
  - intros Hdec Hcond field. pose proof (HBCC Hdec) as ->. fold field.
    split; [reflexivity|]. split; [|now rewrite Hshift].
    unfold execute_thumb_instruction, bind, lift. rewrite Hdec.
    change (dispatch_thumb "T_BCC" ?o) with (execute_thumb_branch_conditional o).
    unfold execute_thumb_branch_conditional, bind, arg.
    cbn -[Z.land Z.shiftl Z.shiftr Z.mul reg set_reg mask32 field check_condition].
    rewrite Hcond.
    rewrite (reg_ok s PC pc Hlen) by (unfold PC; simpl; (lia || assumption)).
    rewrite set_reg_ok by (unfold PC; (lia || assumption)).
    now rewrite mask32_mod.
Qed.

(** C10 on the unconditional branch [0xE7FF] (offset field [-1]) fetched at
    [0x20]: the target is [0x20 + 4 - 4]. *)
Lemma thumb_branch_target_witness :
  let s := with_registers (<[15%nat := 0x20]> (registers (Executor_init None)))
                          (Executor_init None) in
  execute_thumb_instruction 0xE7FF s
  = Ok tt (with_registers (<[15%nat := 0x20]> (registers s)) s).
Proof.
  intros s.
  destruct (thumb_branch_target s 0xE7FF 0x20 [("offset", -2)] eq_refl eq_refl)
    as (HB & _).
  destruct (HB eq_refl) as (_ & Hexec & _).
  exact Hexec.
Defined.

End ThumbBranch.

(** ** Frame reasoning for the handlers

    [preserves R m] says that [m], started in a state related by [R] to a
    reference state, ends (by returning or by raising) in a state still
    related to it. *)

Section Frame.
Import Executor.

Definition preserves {A} (R : Executor -> Executor -> Prop) (m : M Executor A) : Prop :=
  forall s0 s, R s0 s -> R s0 (final_state (m s)).

(** A computation that only reads the state. *)
Definition readonly {A} (m : M Executor A) : Prop :=
  forall s, final_state (m s) = s.

Lemma readonly_preserves {A} R (m : M Executor A) : readonly m -> preserves R m.
Proof. intros Hm s0 s Hs. now rewrite Hm. Qed.

Lemma preserves_bind {A B} R (m : M Executor A) (f : A -> M Executor B) :
  preserves R m -> (forall a, preserves R (f a)) -> preserves R (bind m f).
Proof.
  intros Hm Hf s0 s Hs. unfold bind. specialize (Hm s0 s Hs).
  destruct (m s) as [a s'|e s']; cbn in *; [now apply Hf|assumption].
Qed.

Lemma readonly_bind {A B} (m : M Executor A) (f : A -> M Executor B) :
  readonly m -> (forall a, readonly (f a)) -> readonly (bind m f).
Proof.
  intros Hm Hf s. unfold bind. specialize (Hm s).
  destruct (m s) as [a s'|e s']; cbn in *; subst; [apply Hf|reflexivity].
Qed.

Lemma readonly_ret {A} (a : A) : readonly (ret a).
Proof. intros s. reflexivity. Qed.

Lemma readonly_raise {A} (e : exn) : readonly (@raise Executor A e).
Proof. intros s. reflexivity. Qed.

Lemma readonly_lift {A} (r : exn + A) : readonly (lift r).
Proof. intros s. unfold lift. now destruct r. Qed.

Lemma readonly_gets {A} (f : Executor -> A) : readonly (gets f).
Proof. intros s. reflexivity. Qed.

Lemma readonly_arg ops k : readonly (arg ops k).
Proof. apply readonly_lift. Qed.

Lemma readonly_reg i : readonly (reg i).
Proof. intros s. unfold reg. apply readonly_lift. Qed.

Lemma readonly_attr f : readonly (attr f).
Proof. intros s. unfold attr. now destruct (f s). Qed.

Lemma readonly_read_memory_word a : readonly (read_memory_word a).
Proof. apply readonly_gets. Qed.

Lemma readonly_get_cpsr_flag flag : readonly (get_cpsr_flag flag).
Proof.
  unfold get_cpsr_flag. destruct (dict_get flag_positions flag);
    [apply readonly_gets|apply readonly_ret].
Qed.

Lemma readonly_check_condition c : readonly (check_condition c).
Proof.
  unfold check_condition.
  repeat (apply readonly_bind; [apply readonly_get_cpsr_flag|intros ?]).
  apply readonly_ret.
Qed.

End Frame.

Create HintDb frame.
#[local] Hint Resolve readonly_preserves readonly_ret readonly_raise readonly_lift
  readonly_gets readonly_arg readonly_reg readonly_attr readonly_read_memory_word
  readonly_get_cpsr_flag readonly_check_condition : frame.

(** Walks through a handler: binds, conditionals, then the primitives found
    in the [frame] hints. *)
Ltac frame :=
  repeat first
    [ progress intros
    | solve [auto with frame]
    | match goal with
      | |- preserves _ (if ?b then _ else _) => destruct b
      | |- preserves _ (match ?o with _ => _ end) => destruct o
      end
    | apply preserves_bind ].

(** *** Relations that every handler preserves *)

Section Writers.
Import Executor.

(** [R] is kept by every kind of state change a handler makes: a register,
    flag, memory, cache or mode update, and printing anything but the
    limit message. *)
Record writer_closed (R : Executor -> Executor -> Prop) : Prop := {
  wc_registers : forall s0 s r, R s0 s -> R s0 (with_registers r s);
  wc_cpsr : forall s0 s c, R s0 s -> R s0 (with_cpsr c s);
  wc_memory : forall s0 s m, R s0 s -> R s0 (with_memory m s);
  wc_cache : forall s0 s c, R s0 s -> R s0 (with_cache c s);
  wc_mode : forall s0 s m, R s0 s -> R s0 (with_mode m s);
  wc_print : forall s0 s e, (forall l, e <> LimitReached l) ->
                            R s0 s -> R s0 (with_stdout (stdout s ++ [e]) s)
}.

Variable R : Executor -> Executor -> Prop.
Hypothesis closed : writer_closed R.

Lemma closed_set_reg i v : preserves R (set_reg i v).
Proof.
  intros s0 s Hs. unfold set_reg.
  destruct (py_setitem (registers s) i v); cbn; [exact Hs|].
  now apply (wc_registers R closed).
Qed.

Lemma closed_set_cpsr_flag flag v : preserves R (set_cpsr_flag flag v).
Proof.
  unfold set_cpsr_flag. destruct (dict_get flag_positions flag);
    [|apply readonly_preserves, readonly_ret].
  destruct v; intros s0 s Hs; cbn; now apply (wc_cpsr R closed).
Qed.

Lemma closed_update_flags r : preserves R (update_flags r).
Proof.
  unfold update_flags. apply preserves_bind; [|intros _];
    apply closed_set_cpsr_flag.
Qed.

Lemma closed_print e : (forall l, e <> LimitReached l) -> preserves R (print e).
Proof. intros He s0 s Hs. cbn. now apply (wc_print R closed). Qed.

Lemma closed_switch_mode m : preserves R (switch_mode m).
Proof.
  unfold switch_mode. apply preserves_bind.
  - intros s0 s Hs. cbn. now apply (wc_mode R closed).
  - intros _. apply closed_print. discriminate.
Qed.

Lemma closed_write_memory_word a v : preserves R (write_memory_word a v).
Proof. intros s0 s Hs. cbn. now apply (wc_memory R closed). Qed.

Lemma closed_on_cache {A} c (m : M Cache.CacheSimulator A) :
  preserves R (on_cache c m).
Proof.
  intros s0 s Hs. unfold on_cache, zoom.
  destruct (m c); cbn; now apply (wc_cache R closed).
Qed.

Lemma closed_unimplemented m : preserves R (print (Unimplemented m)).
Proof. apply closed_print. discriminate. Qed.

Lemma closed_beyond_bounds pc : preserves R (print (PCBeyondBounds pc)).
Proof. apply closed_print. discriminate. Qed.

#[local] Hint Resolve closed_set_reg closed_set_cpsr_flag closed_update_flags
  closed_switch_mode closed_write_memory_word closed_on_cache
  closed_unimplemented closed_beyond_bounds : frame.

Lemma closed_dispatch_arm instr_type ops :
  preserves R (dispatch_arm instr_type ops).
Proof.
  unfold dispatch_arm.
  repeat match goal with
         | |- preserves _ (if ?b then _ else _) => destruct b
         end;
    try solve [auto with frame];
    match goal with |- preserves _ (?h _) => unfold h end; frame.
Qed.

Lemma closed_dispatch_thumb instr_type ops :
  preserves R (dispatch_thumb instr_type ops).
Proof.
  unfold dispatch_thumb.
  repeat match goal with
         | |- preserves _ (if ?b then _ else _) => destruct b
         end;
    try solve [auto with frame];
    match goal with |- preserves _ (?h _) => unfold h end; frame.
Qed.

Lemma closed_execute_arm_instruction instruction :
  preserves R (execute_arm_instruction instruction).
Proof.
  unfold execute_arm_instruction.
  destruct (ARMDecoder.decode_instruction instruction).
  apply closed_dispatch_arm.
Qed.

Lemma closed_execute_thumb_instruction instruction :
  preserves R (execute_thumb_instruction instruction).
Proof.
  unfold execute_thumb_instruction.
  apply preserves_bind; [auto with frame|].
  intros [instr_type ops]. apply closed_dispatch_thumb.
Qed.

#[local] Hint Resolve closed_execute_arm_instruction
  closed_execute_thumb_instruction : frame.

(** [ensures Q m]: started in a state related to the reference state, [m]
    has an outcome that [Q] accepts. *)
Definition ensures {A} (Q : Executor -> result Executor A -> Prop)
           (m : M Executor A) : Prop :=
  forall s0 s, R s0 s -> Q s0 (m s).

Lemma ensures_bind {A B} (Q : Executor -> result Executor B -> Prop)
      (m : M Executor A) (f : A -> M Executor B) :
  preserves R m ->
  (forall e s0 s, R s0 s -> Q s0 (Raise e s)) ->
  (forall a, ensures Q (f a)) ->
  ensures Q (bind m f).
Proof.
  intros Hm Hraise Hf s0 s Hs. unfold bind. specialize (Hm s0 s Hs).
  destruct (m s) as [a s'|e s']; cbn in Hm; [now apply Hf|now apply Hraise].
Qed.

(** One loop iteration: it raises or breaks in a state the handlers could
    have produced, or it continues with the instruction counter incremented
    on top of such a state. *)
Lemma step_ensures (Q : Executor -> result Executor bool -> Prop) :
  (forall e s0 s, R s0 s -> Q s0 (Raise e s)) ->
  (forall s0 s, R s0 s -> Q s0 (Ok false s)) ->
  (forall s0 s, R s0 s ->
     Q s0 (Ok true (with_instruction_count (instruction_count s + 1) s))) ->
  ensures Q step.
Proof.
  intros Hraise Hbreak Hnext. unfold step.
  repeat first
    [ progress intros
    | match goal with
      | |- ensures _ (ret false) => exact (Hbreak)
      | |- ensures _ (bind (modify _) (fun _ => ret true)) =>
        exact (fun s0 s Hs => Hnext s0 s Hs)
      | |- ensures _ (if ?b then _ else _) => destruct b
      | |- ensures _ (match ?o with _ => _ end) => destruct o
      | |- ensures _ (bind _ _) => apply ensures_bind; [frame|exact Hraise|]
      end ].
Qed.

End Writers.

(** ** The execution loop *)

Section Loop.
Import Executor.

(** What a handler leaves alone as far as the loop is concerned: the
    ceiling, the [running] flag, the instruction counter, and the absence
    of a limit message on the console. *)
Definition loop_frame (s0 s : Executor) : Prop :=
  max_instructions s = max_instructions s0
  /\ running s = running s0
  /\ instruction_count s = instruction_count s0
  /\ forall l, In (LimitReached l) (stdout s) -> In (LimitReached l) (stdout s0).

Lemma loop_frame_refl s : loop_frame s s.
Proof. repeat split. auto. Qed.

Lemma loop_frame_closed : writer_closed loop_frame.
Proof.
  constructor; intros s0 s; intros; try assumption.
  destruct H0 as (H1 & H2 & H3 & H4). repeat split; try assumption.
  intros l Hl. cbn in Hl. apply in_app_or in Hl. destruct Hl as [Hl|[Hl|[]]].
  - now apply H4.
  - now destruct (H l).
Qed.

(** The outcome of one iteration. *)
Definition step_outcome (s0 : Executor) (r : result Executor bool) : Prop :=
  match r with
  | Ok true s' =>
    max_instructions s' = max_instructions s0
    /\ running s' = running s0
    /\ instruction_count s' = instruction_count s0 + 1
    /\ forall l, In (LimitReached l) (stdout s') -> In (LimitReached l) (stdout s0)
  | Ok false s' | Raise _ s' => loop_frame s0 s'
  end.

Lemma step_spec (s : Executor) : step_outcome s (step s).
Proof.
  apply (step_ensures loop_frame loop_frame_closed step_outcome);
    try (intros; assumption); [|apply loop_frame_refl].
  intros s0 s1 (H1 & H2 & H3 & H4). cbn. repeat split; try assumption.
  now rewrite H3.
Qed.

(** The loop never passes the ceiling, never changes it, raises only below
    it, and prints no limit message itself. *)
Lemma run_loop_spec (fuel : nat) (s : Executor) :
  instruction_count s <= max_instructions s ->
  let r := run_loop fuel s in
  max_instructions (final_state r) = max_instructions s
  /\ instruction_count s <= instruction_count (final_state r) <= max_instructions s
  /\ match r with
     | Raise _ s' => instruction_count s' < max_instructions s
     | Ok _ _ => True
     end
  /\ forall l, In (LimitReached l) (stdout (final_state r)) ->
               In (LimitReached l) (stdout s).
Proof.
  revert s. induction fuel as [|fuel IH]; intros s Hle; cbn zeta.
  - cbn. repeat split; auto; lia.
  - cbn [run_loop]. destruct (loop_condition s) eqn:Hcond;
      [|cbn; repeat split; auto; lia].
    unfold loop_condition in Hcond. apply andb_prop in Hcond.
    destruct Hcond as [_ Hlt]. apply Z.ltb_lt in Hlt.
    pose proof (step_spec s) as Hstep. unfold bind.
    destruct (step s) as [[|] s1|e s1]; cbn in Hstep.
    + destruct Hstep as (H1 & H2 & H3 & H4).
      specialize (IH s1 ltac:(lia)). cbn zeta in IH.
      destruct IH as (I1 & I2 & I3 & I4).
      rewrite H1 in *.
      split; [lia|]. split; [lia|]. split; [|auto].
      destruct (run_loop fuel s1); auto.
    + destruct Hstep as (H1 & H2 & H3 & H4). cbn.
      repeat split; auto; lia.
    + destruct Hstep as (H1 & H2 & H3 & H4). cbn.
      repeat split; auto; lia.
Qed.

(** The loop body runs at most [max_instructions - instruction_count]
    times: with any larger fuel the loop does exactly the same. *)
Lemma run_loop_enough_fuel (fuel : nat) (s : Executor) :
  (Z.to_nat (max_instructions s - instruction_count s) <= fuel)%nat ->
  run_loop fuel s
  = run_loop (Z.to_nat (max_instructions s - instruction_count s)) s.
Proof.
  revert s. induction fuel as [|fuel IH]; intros s Hfuel.
  - replace (Z.to_nat (max_instructions s - instruction_count s)) with 0%nat by lia.
    reflexivity.
  - destruct (loop_condition s) eqn:Hcond.
    + pose proof Hcond as Hc. unfold loop_condition in Hc.
      apply andb_prop in Hc. destruct Hc as [_ Hlt]. apply Z.ltb_lt in Hlt.
      replace (Z.to_nat (max_instructions s - instruction_count s))
        with (S (Z.to_nat (max_instructions s - instruction_count s - 1))) by lia.
      cbn [run_loop]. rewrite Hcond. unfold bind.
      pose proof (step_spec s) as Hstep.
      destruct (step s) as [[|] s1|e s1]; cbn in Hstep; try reflexivity.
      destruct Hstep as (H1 & H2 & H3 & H4).
      rewrite IH by lia. do 2 f_equal. lia.
    + cbn [run_loop]. rewrite Hcond.
      destruct (Z.to_nat (max_instructions s - instruction_count s));
        cbn [run_loop]; now rewrite ?Hcond.
Qed.

(** [execute_program] from a state at or below the ceiling. *)
Lemma execute_program_spec (s : Executor) :
  instruction_count s <= max_instructions s ->
  (forall l, ~ In (LimitReached l) (stdout s)) ->
  let s' := final_state (execute_program s) in
  max_instructions s' = max_instructions s
  /\ instruction_count s' <= max_instructions s
  /\ (forall l, In (LimitReached l) (stdout s') ->
        l = max_instructions s /\ instruction_count s' = max_instructions s)
  /\ (match execute_program s with
      | Ok _ _ => instruction_count s' = max_instructions s ->
                  In (LimitReached (max_instructions s)) (stdout s')
      | Raise _ _ => instruction_count s' < max_instructions s
      end).
Proof.
  intros Hle Hquiet. unfold execute_program, bind.
  pose proof (run_loop_spec (Z.to_nat (max_instructions s - instruction_count s))
                s Hle) as Hloop.
  cbn zeta in Hloop.
  destruct (run_loop _ s) as [[] s1|e s1]; cbn in Hloop;
    destruct Hloop as (H1 & H2 & H3 & H4); cbn [gets].
  - destruct (Z.geb_spec (instruction_count s1) (max_instructions s1)) as [Hge|Hlt];
      cbn; rewrite ?H1 in *; (split; [reflexivity|split; [lia|split]]).
    + intros l Hl. apply in_app_or in Hl. destruct Hl as [Hl|[Hl|[]]].
      * now apply H4, Hquiet in Hl.
      * injection Hl as <-. lia.
    + intros _. apply in_or_app. right. now left.
    + intros l Hl. now apply H4, Hquiet in Hl.
    + lia.
  - cbn. split; [assumption|split; [lia|split; [|lia]]].
    intros l Hl. now apply H4, Hquiet in Hl.
Qed.

Lemma bind_inv {S A B} (m : M S A) (f : A -> M S B) (s s' : S) (b : B) :
  bind m f s = Ok b s' -> exists a s1, m s = Ok a s1 /\ f a s1 = Ok b s'.
Proof.
  unfold bind. destruct (m s) as [a s1|e s1]; [eauto|discriminate].
Qed.

(** The loop body asks to leave the loop only after it has printed the
    out-of-bounds message. *)
Lemma step_break (s s' : Executor) :
  step s = Ok false s' -> exists pc, In (PCBeyondBounds pc) (stdout s').
Proof.
  unfold step. intros H.
  apply bind_inv in H as (pc_val & s1 & _ & H).
  apply bind_inv in H as (m & s2 & _ & H).
  apply bind_inv in H as (idx & s3 & _ & H).
  apply bind_inv in H as (prog & s4 & _ & H).
  destruct ((idx <? 0) || (idx >=? Z.of_nat (length prog))).
  - apply bind_inv in H as ([] & s5 & Hprint & H).
    injection H as <-. injection Hprint as <-.
    exists pc_val. cbn. apply in_or_app. right. now left.
  - apply bind_inv in H as ([instruction instr_mode] & s5 & _ & H).
    apply bind_inv in H as (m1 & s6 & _ & H).
    apply bind_inv in H as ([] & s7 & _ & H).
    apply bind_inv in H as (m2 & s8 & _ & H).
    apply bind_inv in H as ([] & s9 & _ & H).
    apply bind_inv in H as ([] & s10 & _ & H).
    discriminate H.
Qed.

(** How the loop ends when it returns: after the out-of-bounds message, or
    with the counter at the ceiling. *)
Lemma run_loop_exit (fuel : nat) (s s' : Executor) :
  (Z.to_nat (max_instructions s - instruction_count s) <= fuel)%nat ->
  running s = true ->
  run_loop fuel s = Ok tt s' ->
  (exists pc, In (PCBeyondBounds pc) (stdout s'))
  \/ max_instructions s' <= instruction_count s'.
Proof.
  revert s. induction fuel as [|fuel IH]; intros s Hfuel Hrun Hloop.
  - injection Hloop as <-. right. lia.
  - cbn [run_loop] in Hloop. destruct (loop_condition s) eqn:Hcond.
    + apply bind_inv in Hloop as (b & s1 & Hstep & Hloop).
      pose proof (step_spec s) as Hspec. rewrite Hstep in Hspec.
      destruct b; cbn in Hspec.
      * destruct Hspec as (H1 & H2 & H3 & _).
        apply (IH s1); [lia|congruence|exact Hloop].
      * injection Hloop as <-. left. now apply (step_break s).
    + injection Hloop as <-. right.
      unfold loop_condition in Hcond. rewrite Hrun in Hcond.
      apply Z.ltb_ge in Hcond. exact Hcond.
Qed.

(** A branch to itself, in ARM and in Thumb encoding, and a pair of
    branches to each other. *)
Definition arm_self_branch : list (Z * Mode) := [(0xEAFFFFFE, ARM)].
Definition thumb_self_branch : list (Z * Mode) := [(0xE7FF, Thumb)].
Definition arm_branch_pair : list (Z * Mode) := [(0xEAFFFFFF, ARM); (0xEAFFFFFD, ARM)].

(** A fresh executor with the program loaded, run to the end. *)
Definition run (c : option Cache.CacheSimulator) (prog : list (Z * Mode))
  : result Executor unit :=
  (load_program prog ;; execute_program) (Executor_init c).

Lemma load_program_state c prog s0 :
  load_program prog (Executor_init c) = Ok tt s0 ->
  instruction_count s0 = 0 /\ max_instructions s0 = 1000 /\ stdout s0 = [].
Proof.
  unfold load_program. destruct prog; [discriminate|].
  intros [= <-]. repeat split.
Qed.

Lemma load_program_running c prog s0 :
  load_program prog (Executor_init c) = Ok tt s0 -> running s0 = true.
Proof.
  unfold load_program. destruct prog; [discriminate|].
  intros [= <-]. reflexivity.
Qed.

(** C7, as the code has it.  For every loaded program the run ends with at
    most 1000 executed instructions, whether it returns or raises; the limit
    message is printed exactly when the run returns with 1000 instructions
    executed, and it is a different message from the out-of-bounds one.
    Every run that returns without having printed the out-of-bounds message
    has executed exactly 1000 instructions and has printed the limit
    message: a returning run ends in one of these two ways and no other.
    A run that raises stops below 1000 instructions and without the limit
    message; a Thumb load with the cache of [main.py] attached is such a
    run, it raises before it has counted an instruction.  Two branches to
    each other return: they execute exactly 1000 instructions and end with
    the limit message alone.  A single
    branch to itself does not loop: the handler leaves the program counter
    where it was, the engine takes that for "not a branch" and steps past
    it, and the run stops after one instruction with the out-of-bounds
    message and no limit message. *)
Theorem execution_bounded_by_ceiling :
  (forall c prog,
      let s' := final_state (run c prog) in
      instruction_count s' <= 1000
      /\ (forall l, In (LimitReached l) (stdout s') ->
            l = 1000 /\ instruction_count s' = 1000)
      /\ (forall u s1, run c prog = Ok u s1 -> instruction_count s1 = 1000 ->
            In (LimitReached 1000) (stdout s1))
      /\ (forall l pc, LimitReached l <> PCBeyondBounds pc))
  /\ (forall c prog s',
        run c prog = Ok tt s' ->
        (forall pc, ~ In (PCBeyondBounds pc) (stdout s')) ->
        instruction_count s' = 1000 /\ In (LimitReached 1000) (stdout s'))
  /\ (forall c prog e s',
        run c prog = Raise e s' ->
        instruction_count s' < 1000
        /\ forall l, ~ In (LimitReached l) (stdout s'))
  /\ (let r := run (Some main_cache) [(0x6808, Thumb)] in
      (exists s', r = Raise TypeError s')
      /\ instruction_count (final_state r) = 0
      /\ stdout (final_state r) = [SwitchedMode Thumb])
  /\ (forall c,
        let s' := final_state (run c arm_branch_pair) in
        instruction_count s' = 1000 /\ stdout s' = [LimitReached 1000])
  /\ (forall c,
        let s' := final_state (run c arm_self_branch) in
        instruction_count s' = 1 /\ stdout s' = [PCBeyondBounds 4])
  /\ (forall c,
        let s' := final_state (run c thumb_self_branch) in
        instruction_count s' = 1
        /\ stdout s' = [SwitchedMode Thumb; PCBeyondBounds 2]).
Proof.
  split; [|split; [|split; [|split; [|split; [|split]]]]];
    [| | | |intros c; vm_compute; split; reflexivity..].
  - intros c prog s'. subst s'. unfold run, bind.
    destruct (load_program prog (Executor_init c)) as [[] s0|e s0] eqn:Hload.
    + destruct (load_program_state c prog s0 Hload) as (Hc & Hm & Ho).
      pose proof (execute_program_spec s0 ltac:(lia)
                    ltac:(intros l; rewrite Ho; auto)) as Hrun.
      cbn zeta in Hrun. rewrite Hm in Hrun.
      destruct Hrun as (H1 & H2 & H3 & H4).
      split; [exact H2|]. split; [exact H3|]. split; [|discriminate].
      intros u s1 Heq Hcount. rewrite Heq in H4. cbn in H4. auto.
    + unfold load_program in Hload. destruct prog; [|discriminate].
      injection Hload as <- <-. cbn.
      split; [lia|]. split; [intros l []|]. split; [discriminate|discriminate].
  - intros c prog s' Hrun Hinside. unfold run in Hrun.
    apply bind_inv in Hrun as ([] & s0 & Hload & Hrun).
    destruct (load_program_state c prog s0 Hload) as (Hc & Hm & Ho).
    pose proof (load_program_running c prog s0 Hload) as Hrunning.
    unfold execute_program in Hrun.
    apply bind_inv in Hrun as ([] & s1 & Hloop & Hrun).
    pose proof (run_loop_spec (Z.to_nat (max_instructions s0 - instruction_count s0))
                  s0 ltac:(lia)) as Hspec.
    cbn zeta in Hspec. rewrite Hloop in Hspec. cbn in Hspec.
    destruct Hspec as (Hmax & Hcount & _ & _).
    destruct (run_loop_exit (Z.to_nat (max_instructions s0 - instruction_count s0))
                            s0 s1 ltac:(lia) Hrunning Hloop) as [[pc Hpc]|Hceil].
    + exfalso. apply (Hinside pc).
      unfold bind, gets in Hrun.
      destruct (instruction_count s1 >=? max_instructions s1);
        injection Hrun as <-; [cbn; apply in_or_app; now left|exact Hpc].
    + unfold bind, gets in Hrun.
      destruct (Z.geb_spec (instruction_count s1) (max_instructions s1)) as [Hge|Hlt];
        [|lia].
      injection Hrun as <-. cbn. split; [lia|].
      apply in_or_app. right. left. f_equal. lia.
  - intros c prog e s' Hrun. unfold run, bind in Hrun.
    destruct (load_program prog (Executor_init c)) as [[] s0|e0 s0] eqn:Hload.
    + destruct (load_program_state c prog s0 Hload) as (Hc & Hm & Ho).
      pose proof (execute_program_spec s0 ltac:(lia)
                    ltac:(intros l; rewrite Ho; auto)) as Hspec.
      cbn zeta in Hspec. rewrite Hrun, Hm in Hspec. cbn in Hspec.
      destruct Hspec as (_ & _ & Hlimit & Hbelow).
      split; [exact Hbelow|]. intros l Hl. apply Hlimit in Hl. lia.
    + unfold load_program in Hload. destruct prog; [|discriminate].
      injection Hload as <- <-. injection Hrun as <- <-. cbn.
      split; [lia|intros l []].
  - vm_compute. split; [eexists; reflexivity|split; reflexivity].
Qed.

(** C7 on the pair of branches: the run returns, never prints the
    out-of-bounds message, and so ends at the ceiling with the limit
    message. *)
Lemma execution_bounded_by_ceiling_witness :
  let s' := final_state (run None arm_branch_pair) in
  instruction_count s' = 1000 /\ In (LimitReached 1000) (stdout s').
Proof.
  destruct execution_bounded_by_ceiling as (_ & H & _).
  apply (H None arm_branch_pair).
  - vm_compute. reflexivity.
  - intros pc. vm_compute. intros [Heq|[]]. discriminate Heq.
Defined.

(** C7 as stated fails on the single branch to itself: it neither reaches
    the ceiling nor prints the limit message. *)
Lemma self_branch_counterexample :
  let s' := final_state (run None arm_self_branch) in
  ~ (instruction_count s' = max_instructions s'
     /\ In (LimitReached (max_instructions s')) (stdout s')).
Proof. vm_compute. intros [H _]. discriminate H. Qed.

End Loop.

(** ** Compare and test instructions *)

Section Compare.
Import Executor.

Lemma flag_bit_after_set (c p q : Z) (v : bool) :
  0 <= p -> 0 <= q ->
  truthy (Z.land (if v then Z.lor c (Z.shiftl 1 p)
                  else Z.land c (Z.lnot (Z.shiftl 1 p))) (Z.shiftl 1 q))
  = if p =? q then v else truthy (Z.land c (Z.shiftl 1 q)).
Proof.
  intros Hp Hq. rewrite !Z.shiftl_1_l, !truthy_land_pow2 by exact Hq.
  destruct v.
  - rewrite Z.lor_spec, Z.pow2_bits_eqb by exact Hp.
    destruct (p =? q); [apply orb_true_r|apply orb_false_r].
  - rewrite Z.land_spec, Z.lnot_spec, Z.pow2_bits_eqb by assumption.
    destruct (p =? q); [apply andb_false_r|apply andb_true_r].
Qed.

(** What [update_flags] does: Z and N are set from the unbounded integer
    result, C and V keep their value, nothing else changes. *)
Lemma update_flags_spec (result : Z) (s : Executor) :
  exists c',
    let s' := with_cpsr c' s in
    update_flags result s = Ok tt s'
    /\ get_cpsr_flag "Z" s' = Ok (result =? 0) s'
    /\ get_cpsr_flag "N" s' = Ok (result <? 0) s'
    /\ get_cpsr_flag "C" s' = Ok (truthy (Z.land (cpsr s) (Z.shiftl 1 29))) s'
    /\ get_cpsr_flag "V" s' = Ok (truthy (Z.land (cpsr s) (Z.shiftl 1 28))) s'.
Proof.
  eexists. cbn zeta. split.
  - unfold update_flags, bind, set_cpsr_flag; cbn [dict_get flag_positions String.eqb Ascii.eqb Bool.eqb].
    instantiate (1 := if result <? 0
                      then Z.lor (if result =? 0 then Z.lor (cpsr s) (Z.shiftl 1 30)
                                  else Z.land (cpsr s) (Z.lnot (Z.shiftl 1 30)))
                                 (Z.shiftl 1 31)
                      else Z.land (if result =? 0 then Z.lor (cpsr s) (Z.shiftl 1 30)
                                   else Z.land (cpsr s) (Z.lnot (Z.shiftl 1 30)))
                                  (Z.lnot (Z.shiftl 1 31))).
    destruct (result =? 0), (result <? 0); reflexivity.
  - unfold get_cpsr_flag, gets;
      cbn [dict_get flag_positions String.eqb Ascii.eqb Bool.eqb cpsr with_cpsr].
    rewrite !(flag_bit_after_set _ 31) by lia.
    rewrite !(flag_bit_after_set _ 30) by lia.
    cbn [Z.eqb Pos.eqb]. repeat split.
Qed.

(** A register holding [0x80000000], the other registers as initialised. *)
Definition top_bit_state : Executor :=
  with_registers (<[0%nat := 0x80000000]> (registers (Executor_init None)))
                 (Executor_init None).

(** C1 at its failing inputs.  [TST R0, R0] ([0xE1100000]) and
    [CMP R0, R1] ([0xE1500001]) with R0 = [0x80000000] and R1 = 0 both
    compute a result whose bit 31 is set, and both leave N clear: the flag
    is taken from the sign of the unbounded integer, which is never negative
    for a bitwise test and is negative for a subtraction only when it
    borrows.  (Z is set as the claim says, in both.) *)
Theorem compare_negative_flag_divergence :
  let tst := final_state (execute_arm_instruction 0xE1100000 top_bit_state) in
  let cmp := final_state (execute_arm_instruction 0xE1500001 top_bit_state) in
  Z.testbit ((Z.land 0x80000000 0x80000000) mod 2 ^ 32) 31 = true
  /\ get_cpsr_flag "N" tst = Ok false tst
  /\ get_cpsr_flag "Z" tst = Ok false tst
  /\ Z.testbit ((0x80000000 - 0) mod 2 ^ 32) 31 = true
  /\ get_cpsr_flag "N" cmp = Ok false cmp
  /\ get_cpsr_flag "Z" cmp = Ok false cmp
  /\ registers tst = registers top_bit_state
  /\ registers cmp = registers top_bit_state.
Proof. vm_compute. repeat split. Qed.

End Compare.

(** ** Load and store *)

Section LoadStore.
Import Executor.

(** ARM [STR] without a cache writes the register to memory at
    [base + offset], and the word reads back. *)
Lemma arm_str_no_cache (s : Executor) (rd rn offset base value : Z) :
  sixteen s -> cache s = None ->
  0 <= rd < 16 -> 0 <= rn < 16 ->
  registers s !! Z.to_nat rn = Some base ->
  registers s !! Z.to_nat rd = Some value ->
  0 <= value < 2 ^ 32 ->
  let s' := with_memory (write_word (memory s) (base + offset) value) s in
  execute_arm_str [("rd", rd); ("rn", rn); ("offset", offset)] s = Ok tt s'
  /\ read_word (memory s') (base + offset) = value.
Proof.
  intros Hlen Hc Hrd Hrn Hbase Hvalue Hv s'. split.
  - unfold execute_arm_str, bind, arg. cbn [getitem dict_get String.eqb lift].
    cbn -[reg write_memory_word].
    rewrite (reg_ok s rn base), (reg_ok s rd value) by assumption.
    unfold gets. rewrite Hc. reflexivity.
  - cbn. now apply read_write_word.
Qed.

(** ARM [LDR] without a cache puts the memory word at [base + offset] into
    the destination register. *)
Lemma arm_ldr_no_cache (s : Executor) (rd rn offset base : Z) :
  sixteen s -> cache s = None ->
  0 <= rd < 16 -> 0 <= rn < 16 ->
  registers s !! Z.to_nat rn = Some base ->
  execute_arm_ldr [("rd", rd); ("rn", rn); ("offset", offset)] s
  = Ok tt (with_registers
             (<[Z.to_nat rd := read_word (memory s) (base + offset)]> (registers s)) s).
Proof.
  intros Hlen Hc Hrd Hrn Hbase.
  unfold execute_arm_ldr, bind, arg. cbn [getitem dict_get String.eqb lift].
  cbn -[reg set_reg read_memory_word].
  rewrite (reg_ok s rn base) by assumption.
  unfold gets. rewrite Hc. cbn -[set_reg read_word].
  now rewrite set_reg_ok.
Qed.

(** R0 = [0xCAFE], R1 = [0x100], the rest as initialised. *)
Definition store_state (c : option Cache.CacheSimulator) : Executor :=
  with_registers (<[1%nat := 0x100]> (<[0%nat := 0xCAFE]> (registers (Executor_init c))))
                 (Executor_init c).

(** C3 at its failing inputs.  Thumb [STR R0, [R1, #0]] ([0x6008]) with
    R0 = [0xCAFE] and R1 = [0x100] returns normally and leaves the word at
    [0x100] at zero, with and without a cache: the handler computes the
    address and the value, probes the cache, and never calls
    [write_memory_word].  Thumb [LDR R0, [R1, #0]] ([0x6808]) with a cache
    attached raises [TypeError] (the [is_write] argument of [access_data] is
    missing) and loads nothing.  The ARM [STR] ([0xE5810000]) from the same
    state does store the word. *)
Theorem thumb_store_load_divergence :
  let s := store_state None in
  let sc := store_state (Some main_cache) in
  (exists s', execute_thumb_instruction 0x6008 s = Ok tt s'
              /\ registers s' !! 0%nat = Some 0xCAFE
              /\ read_word (memory s') 0x100 = 0)
  /\ (exists s', execute_thumb_instruction 0x6008 sc = Ok tt s'
                 /\ read_word (memory s') 0x100 = 0)
  /\ execute_thumb_instruction 0x6808 sc = Raise TypeError sc
  /\ (exists s', execute_arm_instruction 0xE5810000 s = Ok tt s'
                 /\ read_word (memory s') 0x100 = 0xCAFE).
Proof.
  cbv zeta. split; [|split; [|split]].
  - eexists. split; [vm_compute; reflexivity|]. split; reflexivity.
  - eexists. split; [vm_compute; reflexivity|]. reflexivity.
  - vm_compute. reflexivity.
  - eexists. split; [vm_compute; reflexivity|]. vm_compute. reflexivity.
Qed.

End LoadStore.

(** ** Register range *)

Section RegisterRange.
Import Executor.

(** Every register holds a 32-bit value. *)
Definition registers_in_range (s : Executor) : Prop :=
  Forall (fun v => 0 <= v < 2 ^ 32) (registers s).

(** The executable form of the range check. *)
Definition registers_in_rangeb (s : Executor) : bool :=
  forallb (fun v => (0 <=? v) && (v <? 2 ^ 32)) (registers s).

Lemma registers_in_rangeb_spec (s : Executor) :
  registers_in_rangeb s = true <-> registers_in_range s.
Proof.
  unfold registers_in_rangeb, registers_in_range.
  rewrite forallb_forall, List.Forall_forall.
  split; intros H v Hv; specialize (H v Hv);
    rewrite andb_true_iff, Z.leb_le, Z.ltb_lt in *; exact H.
Qed.

Lemma init_registers_in_range c : registers_in_range (Executor_init c).
Proof. apply registers_in_rangeb_spec. reflexivity. Qed.

(** C4 at its failing input.  From the initial state, [MVN R0, #3]
    ([0xE3E00003]), [BX R0] ([0xE12FFF10]) and [BL] with a zero offset
    ([0xEB000000]) are three handler executions; the first two keep every
    register in range and put [0xFFFFFFFC] in the program counter, and the
    third stores [PC + 4 = 2^32] in the link register without the mask that
    every other register write applies. *)
Theorem link_register_overflow :
  let s0 := Executor_init None in
  let s1 := final_state (execute_arm_instruction 0xE3E00003 s0) in
  let s2 := final_state (execute_arm_instruction 0xE12FFF10 s1) in
  let s3 := final_state (execute_arm_instruction 0xEB000000 s2) in
  registers_in_range s0 /\ registers_in_range s1 /\ registers_in_range s2
  /\ registers s2 !! 15%nat = Some 0xFFFFFFFC
  /\ execute_arm_instruction 0xEB000000 s2 = Ok tt s3
  /\ registers s3 !! 14%nat = Some (2 ^ 32)
  /\ ~ registers_in_range s3.
Proof.
  cbv zeta. rewrite <- !registers_in_rangeb_spec.
  split; [reflexivity|].
  split; [vm_compute; reflexivity|].
  split; [vm_compute; reflexivity|].
  split; [vm_compute; reflexivity|].
  split; [vm_compute; reflexivity|].
  split; [vm_compute; reflexivity|].
  vm_compute. discriminate.
Qed.

End RegisterRange.

(** * Further properties of the cache levels *)

Section CacheAccounting.
Import Cache.

(** The counters of a level add up. *)
Definition counters_consistent (c : BaseCache) : Prop :=
  accesses c = hits c + misses c
  /\ 0 <= hits c /\ 0 <= write_backs c <= misses c.

(** One access to a well-formed level: it returns, counts itself once as a
    hit or as a miss, counts at most one write-back and only on a miss,
    leaves the line at the address's index valid with the address's block
    as tag, and touches no other line. *)
Lemma access_well_formed (c : BaseCache) (a : Z) (w : bool) :
  well_formed c ->
  exists hit c' i,
    access a w c = Ok hit c'
    /\ get_index_and_tag c a = inr (i, a / block_size c)
    /\ same_geometry c c'
    /\ accesses c' = accesses c + 1
    /\ hits c' = hits c + (if hit then 1 else 0)
    /\ misses c' = misses c + (if hit then 0 else 1)
    /\ write_backs c <= write_backs c' <= write_backs c + (if hit then 0 else 1)
    /\ (exists line, lines c' !! Z.to_nat i = Some line
                     /\ valid line = true /\ tag line = Some (a / block_size c)
                     /\ (w = true -> dirty line = true))
    /\ (forall j, j <> Z.to_nat i -> lines c' !! j = lines c !! j).
Proof.
  intros Hwf.
  destruct (index_defined c a Hwf) as [i Hidx].
  destruct (index_in_range c a i _ Hwf Hidx) as [Hi _].
  destruct (lookup_lt_is_Some_2 (lines c) (Z.to_nat i)) as [line Hline]; [lia|].
  destruct (line_matches line (a / block_size c)) eqn:Hm.
  - destruct (access_hit c a i _ w line Hwf Hidx Hline Hm)
      as (c' & Hacc & Hgeo & Ha & Hh & Hmi & Hwb & Hl).
    exists true, c', i. repeat (split; [first [assumption|lia]|]).
    unfold line_matches in Hm. apply andb_prop in Hm. destruct Hm as [Hv Ht].
    destruct (tag line) as [t|] eqn:Htag; [|discriminate].
    apply Z.eqb_eq in Ht. subst t.
    split.
    + rewrite Hl. destruct w.
      * eexists. split; [apply list_lookup_insert_eq; lia|]. cbn. auto.
      * exists line. repeat split; try assumption. discriminate.
    + intros j Hj. rewrite Hl. destruct w; [|reflexivity].
      now apply list_lookup_insert_ne.
  - destruct (access_miss c a i _ w line Hwf Hidx Hline Hm)
      as (c' & Hacc & Hgeo & Ha & Hh & Hmi & Hwb & Hl).
    exists false, c', i. repeat (split; [first [assumption|lia]|]).
    split; [destruct (valid line && dirty line); lia|].
    split.
    + rewrite Hl. eexists. split; [apply list_lookup_insert_eq; lia|]. cbn. auto.
    + intros j Hj. rewrite Hl. now apply list_lookup_insert_ne.
Qed.

(** A run of accesses to one level, in order. *)
Fixpoint access_all (trace : list (Z * bool)) : M BaseCache unit :=
  match trace with
  | [] => ret tt
  | (address, is_write) :: rest => access address is_write ;; access_all rest
  end.

Lemma access_all_well_formed (trace : list (Z * bool)) (c : BaseCache) :
  well_formed c -> counters_consistent c ->
  exists c',
    access_all trace c = Ok tt c'
    /\ well_formed c' /\ same_geometry c c' /\ counters_consistent c'
    /\ accesses c' = accesses c + Z.of_nat (length trace).
Proof.
  revert c. induction trace as [|[a w] rest IH]; intros c Hwf Hcc.
  - exists c. cbn.
    split; [reflexivity|]. split; [exact Hwf|]. split; [repeat split|].
    split; [exact Hcc|lia].
  - destruct (access_well_formed c a w Hwf)
      as (hit & c1 & i & Hacc & _ & Hgeo & Ha & Hh & Hm & Hw & _).
    pose proof (same_geometry_well_formed _ _ Hgeo Hwf) as Hwf1.
    assert (counters_consistent c1) as Hcc1.
    { destruct Hcc as (H1 & H2 & H3). unfold counters_consistent.
      destruct hit; lia. }
    destruct (IH c1 Hwf1 Hcc1) as (c' & Hrest & Hwf' & Hgeo' & Hcc' & Ha').
    exists c'. cbn [access_all]. unfold bind. rewrite Hacc.
    split; [exact Hrest|]. split; [exact Hwf'|]. split.
    + destruct Hgeo as (G1 & G2 & G3 & G4 & G5), Hgeo' as (K1 & K2 & K3 & K4 & K5).
      unfold same_geometry. repeat split; congruence.
    + split; [exact Hcc'|]. cbn [length]. lia.
Qed.

Variables (size0 block_size0 : Z) (mapping0 : string).
Hypothesis block_positive : 0 < block_size0.
Hypothesis one_block : block_size0 <= size0.

(** X1.  A level built with a positive block size and room for a block
    serves any run of accesses without raising; afterwards it has counted
    every access, hits and misses add up to the accesses, write-backs never
    exceed misses, and it still has [size // block_size] lines. *)
Theorem level_accounting (c0 : BaseCache) (trace : list (Z * bool)) :
  BaseCache_init size0 block_size0 mapping0 = inr c0 ->
  exists c',
    access_all trace c0 = Ok tt c'
    /\ accesses c' = Z.of_nat (length trace)
    /\ accesses c' = hits c' + misses c'
    /\ 0 <= hits c' /\ 0 <= write_backs c' <= misses c'
    /\ Z.of_nat (length (lines c')) = size0 / block_size0
    /\ num_blocks c' = size0 / block_size0.
Proof.
  intros Hinit.
  destruct (init_well_formed size0 block_size0 mapping0 block_positive one_block
              c0 Hinit) as (Hwf & Ha & Hh & Hm & Hw & _).
  assert (counters_consistent c0) as Hcc by (unfold counters_consistent; lia).
  destruct (access_all_well_formed trace c0 Hwf Hcc)
    as (c' & Hrun & Hwf' & Hgeo & (C1 & C2 & C3) & Hacc).
  exists c'. split; [exact Hrun|]. split; [lia|].
  split; [exact C1|]. split; [exact C2|]. split; [exact C3|].
  destruct Hwf' as [_ _ Hlen]. destruct Hgeo as (_ & _ & _ & Hn & _).
  assert (num_blocks c0 = size0 / block_size0) as Hnb.
  { unfold BaseCache_init in Hinit.
    destruct (block_size0 =? 0); [discriminate|]. now injection Hinit as <-. }
  rewrite Hlen, Hn, Hnb. split; reflexivity.
Qed.

End CacheAccounting.

(** X1 on the L1 configuration of [main.py] and three accesses. *)
Lemma level_accounting_witness :
  exists c0 c',
    Cache.BaseCache_init 1024 8 "direct" = inr c0
    /\ access_all [(0, false); (0, true); (1024, false)] c0 = Ok tt c'
    /\ Cache.accesses c' = 3
    /\ Cache.accesses c' = Cache.hits c' + Cache.misses c'.
Proof.
  destruct (Cache.BaseCache_init 1024 8 "direct") as [e|c0] eqn:Hinit;
    [discriminate Hinit|].
  destruct (level_accounting 1024 8 "direct" ltac:(lia) ltac:(lia) c0
              [(0, false); (0, true); (1024, false)] Hinit)
    as (c' & Hrun & Ha & Hsum & _).
  exists c0, c'. repeat split; assumption.
Defined.

Section CacheLocality.
Import Cache.

(** An access whose index holds a valid line hits exactly when the tags
    agree; either way the line then holds the accessed block. *)
Lemma access_on_valid_line (c : BaseCache) (b i tb t : Z) (w : bool) (line : CacheLine) :
  well_formed c ->
  get_index_and_tag c b = inr (i, tb) ->
  lines c !! Z.to_nat i = Some line ->
  valid line = true -> tag line = Some t ->
  exists c',
    access b w c = Ok (t =? tb) c'
    /\ same_geometry c c'
    /\ exists line', lines c' !! Z.to_nat i = Some line'
                     /\ valid line' = true /\ tag line' = Some tb.
Proof.
  intros Hwf Hidx Hline Hv Ht.
  destruct (index_in_range c b i tb Hwf Hidx) as [Hi _].
  assert (line_matches line tb = (t =? tb)) as Hm
      by (unfold line_matches; now rewrite Hv, Ht).
  destruct (t =? tb) eqn:Heq.
  - apply Z.eqb_eq in Heq. subst tb.
    destruct (access_hit c b i t w line Hwf Hidx Hline Hm)
      as (c' & Hacc & Hgeo & _ & _ & _ & _ & Hl).
    exists c'. split; [exact Hacc|]. split; [exact Hgeo|].
    rewrite Hl. destruct w.
    + eexists. split; [apply list_lookup_insert_eq; lia|]. cbn. auto.
    + exists line. auto.
  - destruct (access_miss c b i tb w line Hwf Hidx Hline Hm)
      as (c' & Hacc & Hgeo & _ & _ & _ & _ & Hl).
    exists c'. split; [exact Hacc|]. split; [exact Hgeo|].
    rewrite Hl. eexists. split; [apply list_lookup_insert_eq; lia|]. cbn. auto.
Qed.

(** X2.  Spatial locality: right after an access to an address, an access
    to any address of the same block (equal [address // block_size]) hits,
    whatever the level held before and for either mapping. *)
Theorem same_block_hits (c : BaseCache) (a b : Z) (w w' : bool) :
  well_formed c ->
  a / block_size c = b / block_size c ->
  exists hit c1 c2,
    access a w c = Ok hit c1 /\ access b w' c1 = Ok true c2
    /\ hits c2 = hits c1 + 1 /\ misses c2 = misses c1
    /\ write_backs c2 = write_backs c1.
Proof.
  intros Hwf Hblock.
  destruct (access_well_formed c a w Hwf)
    as (hit & c1 & i & Hacc & Hidx & Hgeo & _ & _ & _ & _ & Hline & _).
  destruct Hline as (line & Hl & Hv & Ht & _).
  pose proof (same_geometry_well_formed _ _ Hgeo Hwf) as Hwf1.
  assert (get_index_and_tag c1 b = inr (i, a / block_size c)) as Hidxb.
  { rewrite (same_geometry_index c c1 b Hgeo).
    unfold get_index_and_tag in *. rewrite <- Hblock. exact Hidx. }
  assert (line_matches line (a / block_size c) = true) as Hm
      by (unfold line_matches; rewrite Hv, Ht; cbn; apply Z.eqb_refl).
  destruct (access_hit c1 b i _ w' line Hwf1 Hidxb Hl Hm)
    as (c2 & Hacc2 & _ & _ & Hh & Hmi & Hwb & _).
  exists hit, c1, c2. repeat split; assumption.
Qed.

(** In a direct-mapped level, addresses a whole number of cache sizes
    apart share their index and differ in their tag. *)
Lemma direct_stride_conflict (c : BaseCache) (a k : Z) :
  well_formed c -> mapping c = "direct" -> 0 < block_size c -> k <> 0 ->
  exists i ta tb,
    get_index_and_tag c a = inr (i, ta)
    /\ get_index_and_tag c (a + k * (num_blocks c * block_size c)) = inr (i, tb)
    /\ ta <> tb.
Proof.
  intros [Hbs Hnb Hlen] Hmap Hpos Hk. unfold get_index_and_tag.
  rewrite Hmap. cbn [String.eqb Ascii.eqb Bool.eqb].
  replace (block_size c =? 0) with false by (symmetry; apply Z.eqb_neq; lia).
  replace (num_blocks c =? 0) with false by (symmetry; apply Z.eqb_neq; lia).
  replace (a + k * (num_blocks c * block_size c))
    with (a + (k * num_blocks c) * block_size c) by lia.
  rewrite Z.div_add by lia.
  eexists _, _, _. split; [reflexivity|]. split.
  - rewrite Z.mod_add by lia. reflexivity.
  - nia.
Qed.

(** X3.  Conflict misses: two addresses that map to the same index with
    different tags evict each other, so alternating between them misses
    every time after the first access, whatever the level held before; in a
    direct-mapped level any two addresses a non-zero multiple of the cache
    size apart are such a pair. *)
Theorem conflicting_addresses_thrash (c : BaseCache) :
  well_formed c ->
  (forall a b i ta tb w1 w2 w3,
      get_index_and_tag c a = inr (i, ta) ->
      get_index_and_tag c b = inr (i, tb) ->
      ta <> tb ->
      exists hit c1 c2 c3,
        access a w1 c = Ok hit c1
        /\ access b w2 c1 = Ok false c2
        /\ access a w3 c2 = Ok false c3)
  /\ (mapping c = "direct" -> 0 < block_size c ->
      forall a k w1 w2 w3, k <> 0 ->
        exists hit c1 c2 c3,
          access a w1 c = Ok hit c1
          /\ access (a + k * (num_blocks c * block_size c)) w2 c1 = Ok false c2
          /\ access a w3 c2 = Ok false c3).
Proof.
  intros Hwf.
  assert (Hgen : forall a b i ta tb w1 w2 w3,
             get_index_and_tag c a = inr (i, ta) ->
             get_index_and_tag c b = inr (i, tb) ->
             ta <> tb ->
             exists hit c1 c2 c3,
               access a w1 c = Ok hit c1
               /\ access b w2 c1 = Ok false c2
               /\ access a w3 c2 = Ok false c3).
  { intros a b i ta tb w1 w2 w3 Ha Hb Hne.
    destruct (index_in_range c a i ta Hwf Ha) as [_ Hta].
    destruct (access_well_formed c a w1 Hwf)
      as (hit & c1 & i' & Hacc & Hidx & Hgeo & _ & _ & _ & _ & Hline & _).
    rewrite Ha in Hidx. injection Hidx as <- _.
    destruct Hline as (line & Hl & Hv & Ht & _). rewrite <- Hta in Ht.
    pose proof (same_geometry_well_formed _ _ Hgeo Hwf) as Hwf1.
    destruct (access_on_valid_line c1 b i tb ta w2 line Hwf1
                ltac:(now rewrite (same_geometry_index c c1 b Hgeo)) Hl Hv Ht)
      as (c2 & Hacc2 & Hgeo2 & line2 & Hl2 & Hv2 & Ht2).
    replace (ta =? tb) with false in Hacc2 by (symmetry; now apply Z.eqb_neq).
    pose proof (same_geometry_well_formed _ _ Hgeo2 Hwf1) as Hwf2.
    destruct (access_on_valid_line c2 a i ta tb w3 line2 Hwf2
                ltac:(now rewrite (same_geometry_index c1 c2 a Hgeo2),
                                  (same_geometry_index c c1 a Hgeo)) Hl2 Hv2 Ht2)
      as (c3 & Hacc3 & _).
    replace (tb =? ta) with false in Hacc3
      by (symmetry; apply Z.eqb_neq; congruence).
    exists hit, c1, c2, c3. auto. }
  split; [exact Hgen|].
  intros Hmap Hpos a k w1 w2 w3 Hk.
  destruct (direct_stride_conflict c a k Hwf Hmap Hpos Hk)
    as (i & ta & tb & Ha & Hb & Hne).
  exact (Hgen a _ i ta tb w1 w2 w3 Ha Hb Hne).
Qed.

(** X4.  A misconfigured level.  A zero block size makes the constructor
    raise [ZeroDivisionError]; a capacity below one block gives a level
    with no lines, on which every access raises ([ZeroDivisionError] from
    the index computation when direct-mapped, [IndexError] otherwise) after
    the access counter has already been incremented. *)
Theorem misconfigured_level (size0 block_size0 : Z) (mapping0 : string) :
  BaseCache_init size0 0 mapping0 = inl ZeroDivisionError
  /\ (0 < block_size0 -> 0 <= size0 < block_size0 ->
      exists c0,
        BaseCache_init size0 block_size0 mapping0 = inr c0
        /\ lines c0 = []
        /\ forall a w, exists c',
            access a w c0
            = Raise (if String.eqb mapping0 "direct"
                     then ZeroDivisionError else IndexError) c'
            /\ accesses c' = 1 /\ hits c' = 0 /\ misses c' = 0).
Proof.
  split; [reflexivity|].
  intros Hbs Hsz. unfold BaseCache_init.
  replace (block_size0 =? 0) with false by (symmetry; apply Z.eqb_neq; lia).
  rewrite Z.div_small by exact Hsz.
  eexists. split; [reflexivity|]. split; [reflexivity|].
  intros a w. unfold access, get_index_and_tag. cbn.
  replace (block_size0 =? 0) with false by (symmetry; apply Z.eqb_neq; lia).
  destruct (String.eqb mapping0 "direct").
  - eexists. split; [reflexivity|]. repeat split.
  - eexists. split; [reflexivity|]. repeat split.
Qed.

End CacheLocality.

(** X2 on the L1 configuration: [0x40] then [0x47] (same block of 8). *)
Lemma same_block_hits_witness :
  exists hit c1 c2,
    Cache.access 0x40 false (main_level main_l1_conf) = Ok hit c1
    /\ Cache.access 0x47 true c1 = Ok true c2.
Proof.
  assert (well_formed (main_level main_l1_conf)) as Hwf
      by (constructor; cbn; (lia || reflexivity)).
  destruct (same_block_hits (main_level main_l1_conf) 0x40 0x47 false true Hwf eq_refl)
    as (hit & c1 & c2 & H1 & H2 & _).
  exists hit, c1, c2. split; assumption.
Defined.

(** X3 on the L1 configuration: [0] and [1024] are one cache size apart. *)
Lemma conflicting_addresses_thrash_witness :
  exists hit c1 c2 c3,
    Cache.access 0 false (main_level main_l1_conf) = Ok hit c1
    /\ Cache.access 1024 false c1 = Ok false c2
    /\ Cache.access 0 false c2 = Ok false c3.
Proof.
  assert (well_formed (main_level main_l1_conf)) as Hwf
      by (constructor; cbn; (lia || reflexivity)).
  destruct (conflicting_addresses_thrash (main_level main_l1_conf) Hwf) as [_ H].
  exact (H eq_refl ltac:(cbn; lia) 0 1 false false false ltac:(lia)).
Defined.

(** X4 on a 4-byte level with 8-byte blocks. *)
Lemma misconfigured_level_witness :
  exists c0,
    Cache.BaseCache_init 4 8 "direct" = inr c0 /\ Cache.lines c0 = [].
Proof.
  destruct (misconfigured_level 4 8 "direct") as [_ H].
  destruct (H ltac:(lia) ltac:(lia)) as (c0 & Hinit & Hl & _).
  exists c0. split; assumption.
Defined.

(** * Further properties of the cache hierarchy *)

Section Hierarchy.
Import Cache.

Lemma incr_stat_spec (k : string) (sim : CacheSimulator) :
  exists sim',
    incr_stat k sim = Ok tt sim'
    /\ L1I sim' = L1I sim /\ L1D sim' = L1D sim /\ L2 sim' = L2 sim
    /\ forall k', stat sim' k' = stat sim k' + (if String.eqb k k' then 1 else 0).
Proof.
  eexists. split; [reflexivity|]. cbn. repeat split.
  intros k'. unfold stat. cbn.
  destruct (String.eqb_spec k k') as [<-|Hne].
  - now rewrite lookup_insert_eq.
  - rewrite lookup_insert_ne by exact Hne. lia.
Qed.

(** The two-level protocol, for the instruction side and the data side:
    the first level is always probed, the second exactly on a first-level
    miss, and one statistic per probe is incremented. *)
Lemma access_instruction_spec (sim : CacheSimulator) (a : Z) :
  well_formed (L1I sim) -> well_formed (L2 sim) ->
  exists hit1 l1 hit2 l2 sim',
    access a false (L1I sim) = Ok hit1 l1
    /\ access a false (L2 sim) = Ok hit2 l2
    /\ access_instruction a sim = Ok tt sim'
    /\ L1I sim' = l1 /\ L1D sim' = L1D sim
    /\ L2 sim' = (if hit1 then L2 sim else l2)
    /\ forall k, stat sim' k
                 = stat sim k
                   + (if String.eqb (if hit1 then "L1I_hit" else "L1I_miss") k
                      then 1 else 0)
                   + (if hit1 then 0
                      else if String.eqb (if hit2 then "L2_hit" else "L2_miss") k
                           then 1 else 0).
Proof.
  intros Hwf1 Hwf2.
  destruct (access_well_formed (L1I sim) a false Hwf1) as (hit1 & l1 & _ & H1 & _).
  destruct (access_well_formed (L2 sim) a false Hwf2) as (hit2 & l2 & _ & H2 & _).
  exists hit1, l1, hit2, l2.
  unfold access_instruction, bind, zoom. rewrite H1.
  destruct hit1; cbn [negb].
  - destruct (incr_stat_spec "L1I_hit" (with_L1I l1 sim))
      as (sim' & -> & E1 & E2 & E3 & Hs).
    exists sim'. repeat (split; [assumption || reflexivity|]).
    intros k. rewrite Hs. unfold stat; cbn [stats with_L2 with_L1I with_L1D];
      repeat match goal with |- context [if ?b then _ else _] => destruct b end; lia.
  - cbn [L2 with_L1I]. rewrite H2. cbn [negb].
    destruct hit2; cbn [negb].
    + destruct (incr_stat_spec "L2_hit" (with_L2 l2 (with_L1I l1 sim)))
        as (s1 & -> & A1 & A2 & A3 & As).
      destruct (incr_stat_spec "L1I_miss" s1) as (sim' & -> & E1 & E2 & E3 & Hs).
      exists sim'. rewrite E1, E2, E3, A1, A2, A3.
      repeat (split; [reflexivity|]).
      intros k. rewrite Hs, As. unfold stat; cbn [stats with_L2 with_L1I with_L1D];
      repeat match goal with |- context [if ?b then _ else _] => destruct b end; lia.
    + destruct (incr_stat_spec "L2_miss" (with_L2 l2 (with_L1I l1 sim)))
        as (s1 & -> & A1 & A2 & A3 & As).
      destruct (incr_stat_spec "L1I_miss" s1) as (sim' & -> & E1 & E2 & E3 & Hs).
      exists sim'. rewrite E1, E2, E3, A1, A2, A3.
      repeat (split; [reflexivity|]).
      intros k. rewrite Hs, As. unfold stat; cbn [stats with_L2 with_L1I with_L1D];
      repeat match goal with |- context [if ?b then _ else _] => destruct b end; lia.
Qed.

Lemma access_data_spec (sim : CacheSimulator) (a : Z) (w : bool) :
  well_formed (L1D sim) -> well_formed (L2 sim) ->
  exists hit1 l1 hit2 l2 sim',
    access a w (L1D sim) = Ok hit1 l1
    /\ access a w (L2 sim) = Ok hit2 l2
    /\ access_data a w sim = Ok tt sim'
    /\ L1D sim' = l1 /\ L1I sim' = L1I sim
    /\ L2 sim' = (if hit1 then L2 sim else l2)
    /\ forall k, stat sim' k
                 = stat sim k
                   + (if String.eqb (if hit1 then "L1D_hit" else "L1D_miss") k
                      then 1 else 0)
                   + (if hit1 then 0
                      else if String.eqb (if hit2 then "L2_hit" else "L2_miss") k
                           then 1 else 0).
Proof.
  intros Hwf1 Hwf2.
  destruct (access_well_formed (L1D sim) a w Hwf1) as (hit1 & l1 & _ & H1 & _).
  destruct (access_well_formed (L2 sim) a w Hwf2) as (hit2 & l2 & _ & H2 & _).
  exists hit1, l1, hit2, l2.
  unfold access_data, bind, zoom. rewrite H1.
  destruct hit1; cbn [negb].
  - destruct (incr_stat_spec "L1D_hit" (with_L1D l1 sim))
      as (sim' & -> & E1 & E2 & E3 & Hs).
    exists sim'. repeat (split; [assumption || reflexivity|]).
    intros k. rewrite Hs. unfold stat; cbn [stats with_L2 with_L1I with_L1D];
      repeat match goal with |- context [if ?b then _ else _] => destruct b end; lia.
  - cbn [L2 with_L1D]. rewrite H2. cbn [negb].
    destruct hit2; cbn [negb].
    + destruct (incr_stat_spec "L2_hit" (with_L2 l2 (with_L1D l1 sim)))
        as (s1 & -> & A1 & A2 & A3 & As).
      destruct (incr_stat_spec "L1D_miss" s1) as (sim' & -> & E1 & E2 & E3 & Hs).
      exists sim'. rewrite E1, E2, E3, A1, A2, A3.
      repeat (split; [reflexivity|]).
      intros k. rewrite Hs, As. unfold stat; cbn [stats with_L2 with_L1I with_L1D];
      repeat match goal with |- context [if ?b then _ else _] => destruct b end; lia.
    + destruct (incr_stat_spec "L2_miss" (with_L2 l2 (with_L1D l1 sim)))
        as (s1 & -> & A1 & A2 & A3 & As).
      destruct (incr_stat_spec "L1D_miss" s1) as (sim' & -> & E1 & E2 & E3 & Hs).
      exists sim'. rewrite E1, E2, E3, A1, A2, A3.
      repeat (split; [reflexivity|]).
      intros k. rewrite Hs, As. unfold stat; cbn [stats with_L2 with_L1I with_L1D];
      repeat match goal with |- context [if ?b then _ else _] => destruct b end; lia.
Qed.

End Hierarchy.

Section HierarchyInvariant.
Import Cache.

Lemma level_step (c c' : BaseCache) (a : Z) (w hit : bool) :
  well_formed c -> counters_consistent c ->
  access a w c = Ok hit c' ->
  well_formed c' /\ counters_consistent c'
  /\ accesses c' = accesses c + 1
  /\ hits c' = hits c + (if hit then 1 else 0)
  /\ misses c' = misses c + (if hit then 0 else 1).
Proof.
  intros Hwf (C1 & C2 & C3) Hacc.
  destruct (access_well_formed c a w Hwf)
    as (hit' & c'' & i & Hacc' & _ & Hgeo & Ha & Hh & Hm & Hw & _).
  rewrite Hacc in Hacc'. injection Hacc' as <- <-.
  split; [exact (same_geometry_well_formed _ _ Hgeo Hwf)|].
  unfold counters_consistent. destruct hit; repeat split; lia.
Qed.

(** The statistics map and the level counters tell the same story, and the
    second level has been probed once per first-level miss. *)
Record hierarchy_consistent (sim : CacheSimulator) : Prop := {
  hc_l1i : well_formed (L1I sim) /\ counters_consistent (L1I sim);
  hc_l1d : well_formed (L1D sim) /\ counters_consistent (L1D sim);
  hc_l2 : well_formed (L2 sim) /\ counters_consistent (L2 sim);
  hc_l1i_hit : stat sim "L1I_hit" = hits (L1I sim);
  hc_l1i_miss : stat sim "L1I_miss" = misses (L1I sim);
  hc_l1d_hit : stat sim "L1D_hit" = hits (L1D sim);
  hc_l1d_miss : stat sim "L1D_miss" = misses (L1D sim);
  hc_l2_hit : stat sim "L2_hit" = hits (L2 sim);
  hc_l2_miss : stat sim "L2_miss" = misses (L2 sim);
  hc_l2_probes : accesses (L2 sim) = misses (L1I sim) + misses (L1D sim)
}.

(** An instruction fetch or a data access. *)
Inductive probe : Type :=
| Fetch (address : Z)
| Data (address : Z) (is_write : bool).

Definition do_probe (p : probe) : M CacheSimulator unit :=
  match p with
  | Fetch address => access_instruction address
  | Data address is_write => access_data address is_write
  end.

Fixpoint probe_all (trace : list probe) : M CacheSimulator unit :=
  match trace with
  | [] => ret tt
  | p :: rest => do_probe p ;; probe_all rest
  end.

Lemma do_probe_consistent (p : probe) (sim : CacheSimulator) :
  hierarchy_consistent sim ->
  exists sim', do_probe p sim = Ok tt sim' /\ hierarchy_consistent sim'.
Proof.
  intros [[W1 K1] [W2 K2] [W3 K3] S1 S2 S3 S4 S5 S6 P].
  destruct p as [a|a w]; cbn [do_probe].
  - destruct (access_instruction_spec sim a W1 W3)
      as (hit1 & l1 & hit2 & l2 & sim' & H1 & H2 & Hrun & E1 & E2 & E3 & Hs).
    exists sim'. split; [exact Hrun|].
    destruct (level_step _ _ _ _ _ W1 K1 H1) as (W1' & K1' & A1 & Hh1 & Hm1).
    destruct (level_step _ _ _ _ _ W3 K3 H2) as (W3' & K3' & A3 & Hh3 & Hm3).
    constructor; rewrite ?Hs, ?E1, ?E2, ?E3;
      destruct hit1, hit2; cbn; auto; lia.
  - destruct (access_data_spec sim a w W2 W3)
      as (hit1 & l1 & hit2 & l2 & sim' & H1 & H2 & Hrun & E1 & E2 & E3 & Hs).
    exists sim'. split; [exact Hrun|].
    destruct (level_step _ _ _ _ _ W2 K2 H1) as (W2' & K2' & A2 & Hh2 & Hm2).
    destruct (level_step _ _ _ _ _ W3 K3 H2) as (W3' & K3' & A3 & Hh3 & Hm3).
    constructor; rewrite ?Hs, ?E1, ?E2, ?E3;
      destruct hit1, hit2; cbn; auto; lia.
Qed.

Lemma probe_all_consistent (trace : list probe) (sim : CacheSimulator) :
  hierarchy_consistent sim ->
  exists sim', probe_all trace sim = Ok tt sim' /\ hierarchy_consistent sim'.
Proof.
  revert sim. induction trace as [|p rest IH]; intros sim Hc.
  - exists sim. split; [reflexivity|exact Hc].
  - destruct (do_probe_consistent p sim Hc) as (s1 & H1 & Hc1).
    destruct (IH s1 Hc1) as (sim' & Hrest & Hc').
    exists sim'. cbn [probe_all]. unfold bind. rewrite H1. auto.
Qed.

Lemma init_hierarchy_consistent (l1i l1d l2 : conf) (sim : CacheSimulator) :
  (forall c, In c [l1i; l1d; l2] -> 0 < snd (fst c) <= fst (fst c)) ->
  CacheSimulator_init l1i l1d l2 = inr sim ->
  hierarchy_consistent sim.
Proof.
  intros Hconf. unfold CacheSimulator_init.
  destruct l1i as [[sz1 bs1] mp1], l1d as [[sz2 bs2] mp2], l2 as [[sz3 bs3] mp3].
  pose proof (Hconf (sz1, bs1, mp1) ltac:(cbn; auto)) as G1.
  pose proof (Hconf (sz2, bs2, mp2) ltac:(cbn; auto)) as G2.
  pose proof (Hconf (sz3, bs3, mp3) ltac:(cbn; auto)) as G3.
  cbn [fst snd] in G1, G2, G3.
  destruct (BaseCache_init sz1 bs1 mp1) as [|c1] eqn:I1; [discriminate|].
  destruct (BaseCache_init sz2 bs2 mp2) as [|c2] eqn:I2; [discriminate|].
  destruct (BaseCache_init sz3 bs3 mp3) as [|c3] eqn:I3; [discriminate|].
  intros [= <-].
  destruct (init_well_formed sz1 bs1 mp1 ltac:(lia) ltac:(lia) c1 I1)
    as (W1 & A1 & B1 & C1 & D1 & _).
  destruct (init_well_formed sz2 bs2 mp2 ltac:(lia) ltac:(lia) c2 I2)
    as (W2 & A2 & B2 & C2 & D2 & _).
  destruct (init_well_formed sz3 bs3 mp3 ltac:(lia) ltac:(lia) c3 I3)
    as (W3 & A3 & B3 & C3 & D3 & _).
  constructor; cbn; unfold counters_consistent; repeat split;
    solve [assumption | lia | apply W1 | apply W2 | apply W3
           | (unfold stat; cbn; rewrite ?lookup_empty; cbn; lia)].
Qed.

(** X5.  A hierarchy built from three configurations with a positive block
    size and room for a block serves every sequence of instruction fetches
    and data accesses without raising, and afterwards the statistics map
    agrees with the level counters ([L1I_hit]/[L1I_miss], [L1D_hit]/
    [L1D_miss], [L2_hit]/[L2_miss] are the hits and misses of the level),
    the second level has been probed exactly once per first-level miss,
    and each level's hits and misses add up to its accesses. *)
Theorem hierarchy_statistics (l1i l1d l2 : conf) (sim : CacheSimulator)
        (trace : list probe) :
  (forall c, In c [l1i; l1d; l2] -> 0 < snd (fst c) <= fst (fst c)) ->
  CacheSimulator_init l1i l1d l2 = inr sim ->
  exists sim',
    probe_all trace sim = Ok tt sim'
    /\ stat sim' "L1I_hit" = hits (L1I sim')
    /\ stat sim' "L1I_miss" = misses (L1I sim')
    /\ stat sim' "L1D_hit" = hits (L1D sim')
    /\ stat sim' "L1D_miss" = misses (L1D sim')
    /\ stat sim' "L2_hit" = hits (L2 sim')
    /\ stat sim' "L2_miss" = misses (L2 sim')
    /\ accesses (L2 sim') = misses (L1I sim') + misses (L1D sim')
    /\ (forall level, In level [L1I sim'; L1D sim'; L2 sim'] ->
          accesses level = hits level + misses level
          /\ 0 <= write_backs level <= misses level).
Proof.
  intros Hconf Hinit.
  destruct (probe_all_consistent trace sim
              (init_hierarchy_consistent l1i l1d l2 sim Hconf Hinit))
    as (sim' & Hrun & [[W1 K1] [W2 K2] [W3 K3] S1 S2 S3 S4 S5 S6 P]).
  exists sim'. repeat (split; [assumption|]).
  intros level [<-|[<-|[<-|[]]]];
    [destruct K1 as (?&?&?)|destruct K2 as (?&?&?)|destruct K3 as (?&?&?)];
    split; assumption.
Qed.

(** X6.  A reset does not cold-start the hierarchy: for a hierarchy with
    well-formed levels, a data access, a reset, and a second access to the
    same address end with the second access counted as a first-level hit
    and the only statistic, the second level not probed since the reset. *)
Theorem reset_keeps_cache_warm (sim : CacheSimulator) (a : Z) (w w' : bool) :
  well_formed (L1D sim) -> well_formed (L2 sim) ->
  exists sim',
    (access_data a w ;; reset ;; access_data a w') sim = Ok tt sim'
    /\ stat sim' "L1D_hit" = 1 /\ stat sim' "L1D_miss" = 0
    /\ hits (L1D sim') = 1 /\ misses (L1D sim') = 0
    /\ accesses (L2 sim') = 0
    /\ forall k, k <> "L1D_hit" -> stat sim' k = 0.
Proof.
  intros W2 W3.
  destruct (access_data_spec sim a w W2 W3)
    as (hit1 & l1 & hit2 & l2 & s1 & H1 & H2 & Hrun & E1 & E2 & E3 & Hs).
  destruct (access_well_formed (L1D sim) a w W2)
    as (hit1' & l1' & i & Hacc & Hidx & Hgeo & _ & _ & _ & _ & Hline & _).
  rewrite H1 in Hacc. injection Hacc as <- <-.
  destruct Hline as (line & Hl & Hv & Ht & _).
  pose proof (same_geometry_well_formed _ _ Hgeo W2) as W2'.
  set (s2 := {| L1I := with_counters 0 0 0 0 (L1I s1);
                L1D := with_counters 0 0 0 0 (L1D s1);
                L2 := with_counters 0 0 0 0 (L2 s1);
                stats := ∅ |}).
  assert (well_formed (L1D s2)) as V2.
  { rewrite <- E1 in W2'. destruct W2' as [X1 X2 X3]. constructor; assumption. }
  assert (well_formed (L2 s2)) as V3.
  { assert (well_formed (L2 s1)) as [X1 X2 X3].
    { rewrite E3. destruct hit1; [exact W3|].
      destruct (access_well_formed (L2 sim) a w W3)
        as (h & c & _ & Hacc2 & _ & Hg & _).
      rewrite H2 in Hacc2. injection Hacc2 as _ <-.
      exact (same_geometry_well_formed _ _ Hg W3). }
    constructor; assumption. }
  assert (get_index_and_tag (L1D s2) a = inr (i, a / block_size (L1D sim))) as Hidx2.
  { rewrite <- Hidx. cbn [s2 L1D]. rewrite E1.
    transitivity (get_index_and_tag l1 a); [reflexivity|].
    apply same_geometry_index. exact Hgeo. }
  assert (lines (L1D s2) !! Z.to_nat i = Some line) as Hl2
      by (cbn [s2 L1D with_counters lines]; now rewrite E1).
  assert (line_matches line (a / block_size (L1D sim)) = true) as Hm
      by (unfold line_matches; rewrite Hv, Ht; cbn; apply Z.eqb_refl).
  destruct (access_hit (L1D s2) a i _ w' line V2 Hidx2 Hl2 Hm)
    as (l3 & Hacc3 & _ & _ & Hh3 & Hm3 & _).
  destruct (access_data_spec s2 a w' V2 V3)
    as (h1 & m1 & h2 & m2 & s3 & G1 & G2 & Grun & F1 & F2 & F3 & Fs).
  rewrite Hacc3 in G1. injection G1 as <- <-.
  exists s3. unfold bind. rewrite Hrun, reset_result. fold s2. rewrite Grun.
  split; [reflexivity|].
  assert (forall k, stat s2 k = 0) as Hzero
      by (intros k; unfold stat; cbn; now rewrite lookup_empty).
  rewrite !Fs, !Hzero, F1, F3. cbn. cbn in Hh3, Hm3.
  repeat (split; [first [reflexivity | lia]|]).
  intros k Hk. rewrite Fs, Hzero.
  destruct (String.eqb_spec "L1D_hit" k); [congruence|reflexivity].
Qed.

End HierarchyInvariant.

(** X5 on the hierarchy of [main.py] and a fetch followed by two data
    accesses. *)
Lemma hierarchy_statistics_witness :
  exists sim',
    probe_all [Fetch 0; Data 0x100 true; Data 0x100 false] main_cache = Ok tt sim'
    /\ Cache.stat sim' "L1D_hit" = Cache.hits (Cache.L1D sim').
Proof.
  destruct (hierarchy_statistics main_l1_conf main_l1_conf main_l2_conf main_cache
              [Fetch 0; Data 0x100 true; Data 0x100 false])
    as (sim' & Hrun & _ & _ & H & _).
  - intros c [<-|[<-|[<-|[]]]]; cbn; lia.
  - reflexivity.
  - exists sim'. split; assumption.
Defined.

(** X6 on the hierarchy of [main.py]. *)
Lemma reset_keeps_cache_warm_witness :
  exists sim',
    (Cache.access_data 0x100 true ;; Cache.reset ;; Cache.access_data 0x100 false)
      main_cache = Ok tt sim'
    /\ Cache.stat sim' "L1D_hit" = 1 /\ Cache.stat sim' "L1D_miss" = 0.
Proof.
  destruct (reset_keeps_cache_warm main_cache 0x100 true false)
    as (sim' & Hrun & H1 & H2 & _).
  - constructor; cbn; (lia || reflexivity).
  - constructor; cbn; (lia || reflexivity).
  - exists sim'. repeat split; assumption.
Defined.

(** * Further properties of the memory *)

Section MemoryViews.
Import Executor.

Lemma write_halfword_unfold (m : gmap Z Z) (a v : Z) :
  write_halfword m a v
  = <[a + 1 := Z.land (Z.shiftr v 8) 0xFF]> (<[a + 0 := Z.land (Z.shiftr v 0) 0xFF]> m).
Proof. reflexivity. Qed.

Lemma read_word_bytes (m : gmap Z Z) (a : Z) :
  read_word m a
  = Z.lor (Z.lor (Z.lor (Z.lor 0
      (Z.shiftl (mem_get m (a + 0)) 0)) (Z.shiftl (mem_get m (a + 1)) 8))
      (Z.shiftl (mem_get m (a + 2)) 16)) (Z.shiftl (mem_get m (a + 3)) 24).
Proof. reflexivity. Qed.

Lemma read_halfword_bytes (m : gmap Z Z) (a : Z) :
  read_halfword m a
  = Z.lor (Z.lor 0 (Z.shiftl (mem_get m (a + 0)) 0)) (Z.shiftl (mem_get m (a + 1)) 8).
Proof. reflexivity. Qed.

(** The low [8 * k] bits of [v], recomposed from its bytes. *)
Lemma bytes_recompose_mod (v : Z) :
  Z.lor (Z.lor (Z.lor (Z.lor 0
    (Z.shiftl (Z.land (Z.shiftr v 0) 0xFF) 0))
    (Z.shiftl (Z.land (Z.shiftr v 8) 0xFF) 8))
    (Z.shiftl (Z.land (Z.shiftr v 16) 0xFF) 16))
    (Z.shiftl (Z.land (Z.shiftr v 24) 0xFF) 24) = v mod 2 ^ 32
  /\ Z.lor (Z.lor 0
    (Z.shiftl (Z.land (Z.shiftr v 0) 0xFF) 0))
    (Z.shiftl (Z.land (Z.shiftr v 8) 0xFF) 8) = v mod 2 ^ 16.
Proof.
  split; apply Z.bits_inj'; intros n Hn;
    rewrite !Z.lor_spec, !byte_field_testbit, Z.testbit_mod_pow2 by lia;
    rewrite Z.bits_0; simpl orb;
    (destruct (Z.testbit v n); [|now rewrite andb_false_r]); simpl;
    repeat match goal with
           | |- context [?x <=? ?y] => destruct (Z.leb_spec x y)
           | |- context [?x <? ?y] => destruct (Z.ltb_spec x y)
           end; simpl; lia || reflexivity.
Qed.

Lemma read_write_halfword (m : gmap Z Z) (a v : Z) :
  read_halfword (write_halfword m a v) a = v mod 2 ^ 16.
Proof.
  rewrite read_halfword_bytes. unfold mem_get. rewrite write_halfword_unfold.
  rewrite (lookup_insert_ne _ (a + 1) (a + 0)) by lia.
  rewrite !lookup_insert_eq. cbn [default].
  apply (bytes_recompose_mod v).
Qed.

(** X7.  Stores truncate and loads read back: for every integer [v]
    (negative or wider than the unit included) a word store followed by a
    word load at the same address returns [v mod 2^32], a halfword store
    and load returns [v mod 2^16], a byte store and load returns
    [v mod 2^8]; a halfword store changes only the two bytes at [a] and
    [a + 1]. *)
Theorem memory_stores_truncate (s : Executor) (a v : Z) :
  (exists s', (write_memory_word a v ;; read_memory_word a) s = Ok (v mod 2 ^ 32) s')
  /\ (exists s', (write_memory_halfword a v ;; read_memory_halfword a) s
                 = Ok (v mod 2 ^ 16) s')
  /\ (exists s', (write_memory_byte a v ;; read_memory_byte a) s
                 = Ok (v mod 2 ^ 8) s')
  /\ (forall b, b <> a -> b <> a + 1 ->
        memory (final_state (write_memory_halfword a v s)) !! b = memory s !! b).
Proof.
  destruct (bytes_recompose_mod v) as [Hword Hhalf].
  split; [|split; [|split]].
  - eexists. unfold bind, write_memory_word, read_memory_word, modify, gets.
    cbn [memory with_memory]. rewrite read_word_bytes. unfold mem_get.
    rewrite !write_word_byte by lia. cbn [default Z.mul Pos.mul].
    rewrite <- Hword. reflexivity.
  - eexists. unfold bind, write_memory_halfword, read_memory_halfword, modify, gets.
    cbn [memory with_memory]. now rewrite read_write_halfword.
  - eexists. unfold bind, write_memory_byte, read_memory_byte, modify, gets, mem_get.
    cbn [memory with_memory]. rewrite lookup_insert_eq. cbn [default].
    change 0xFF with (Z.ones 8). rewrite Z.land_ones by lia. reflexivity.
  - intros b Hb Hb1. unfold write_memory_halfword, modify.
    cbn [final_state memory with_memory]. rewrite write_halfword_unfold.
    now rewrite !lookup_insert_ne by lia.
Qed.

(** X8.  The word view is the two halfword views side by side, little
    end first, for any memory contents; and a word store followed by
    halfword loads returns the low and the high half of the stored word. *)
Theorem word_is_two_halfwords (m : gmap Z Z) (a v : Z) :
  read_word m a
  = Z.lor (read_halfword m a) (Z.shiftl (read_halfword m (a + 2)) 16)
  /\ read_halfword (write_word m a v) a = v mod 2 ^ 16
  /\ read_halfword (write_word m a v) (a + 2) = (v / 2 ^ 16) mod 2 ^ 16.
Proof.
  split; [|split].
  - rewrite read_word_bytes, !read_halfword_bytes.
    replace (a + 2 + 0) with (a + 2) by lia.
    replace (a + 2 + 1) with (a + 3) by lia.
    rewrite !Z.lor_0_l, !Z.shiftl_lor, !Z.shiftl_shiftl by lia.
    cbn [Z.add Pos.add Pos.succ]. now rewrite Z.lor_assoc.
  - rewrite read_halfword_bytes. unfold mem_get.
    rewrite !write_word_byte by lia. cbn [default Z.mul Pos.mul].
    apply (bytes_recompose_mod v).
  - rewrite read_halfword_bytes. unfold mem_get.
    replace (a + 2 + 0) with (a + 2) by lia.
    replace (a + 2 + 1) with (a + 3) by lia.
    rewrite !write_word_byte by lia. cbn [default Z.mul Pos.mul].
    destruct (bytes_recompose_mod (v / 2 ^ 16)) as [_ <-].
    rewrite <- !Z.shiftr_div_pow2, !Z.shiftr_shiftr by lia.
    reflexivity.
Qed.

End MemoryViews.

(** * Instructions never fail

    A small program logic for the handlers: [safe_if C m Q] says that [m],
    started in a state that satisfies the invariant and [C], returns (does
    not raise) a value satisfying [Q] in a state that satisfies the
    invariant again, and attaches no cache where there was none. *)

Section Safety.
Import Cache Executor.

Definition hierarchy_wf (c : CacheSimulator) : Prop :=
  well_formed (L1I c) /\ well_formed (L1D c) /\ well_formed (L2 c).

(** No cache, or one with well-formed levels. *)
Definition cache_ok (s : Executor) : Prop :=
  match cache s with
  | Some c => hierarchy_wf c
  | None => True
  end.

Lemma access_keeps_wf (c c' : BaseCache) (a : Z) (w h : bool) :
  well_formed c -> access a w c = Ok h c' -> well_formed c'.
Proof.
  intros Hwf Hacc.
  destruct (access_well_formed c a w Hwf) as (h' & c'' & _ & Hacc' & _ & Hgeo & _).
  rewrite Hacc in Hacc'. injection Hacc' as _ <-.
  exact (same_geometry_well_formed _ _ Hgeo Hwf).
Qed.

Lemma access_instruction_wf (sim : CacheSimulator) (a : Z) :
  hierarchy_wf sim ->
  exists sim', access_instruction a sim = Ok tt sim' /\ hierarchy_wf sim'.
Proof.
  intros (W1 & W2 & W3).
  destruct (access_instruction_spec sim a W1 W3)
    as (h1 & l1 & h2 & l2 & sim' & H1 & H2 & Hrun & E1 & E2 & E3 & _).
  exists sim'. split; [exact Hrun|]. unfold hierarchy_wf.
  rewrite E1, E2, E3.
  split; [exact (access_keeps_wf _ _ _ _ _ W1 H1)|]. split; [exact W2|].
  destruct h1; [exact W3|exact (access_keeps_wf _ _ _ _ _ W3 H2)].
Qed.

Lemma access_data_wf (sim : CacheSimulator) (a : Z) (w : bool) :
  hierarchy_wf sim ->
  exists sim', access_data a w sim = Ok tt sim' /\ hierarchy_wf sim'.
Proof.
  intros (W1 & W2 & W3).
  destruct (access_data_spec sim a w W2 W3)
    as (h1 & l1 & h2 & l2 & sim' & H1 & H2 & Hrun & E1 & E2 & E3 & _).
  exists sim'. split; [exact Hrun|]. unfold hierarchy_wf.
  rewrite E1, E2, E3.
  split; [exact W1|]. split; [exact (access_keeps_wf _ _ _ _ _ W2 H1)|].
  destruct h1; [exact W3|exact (access_keeps_wf _ _ _ _ _ W3 H2)].
Qed.

(** What every register holds, and what the memory satisfies. *)
Variable P : Z -> Prop.
Variable Pm : gmap Z Z -> Prop.
Hypothesis P_32 : forall x, 0 <= x < 2 ^ 32 -> P x.
Hypothesis Pm_read : forall m a, Pm m -> P (read_word m a).
Hypothesis Pm_write : forall m a v, Pm m -> Pm (write_word m a v).

Definition inv (s : Executor) : Prop :=
  sixteen s /\ Forall P (registers s) /\ Pm (memory s) /\ cache_ok s.

Definition safe_if {A} (C : Executor -> Prop) (m : M Executor A) (Q : A -> Prop) : Prop :=
  forall s, inv s -> C s ->
    exists a s', m s = Ok a s' /\ inv s' /\ Q a
                 /\ (cache s = None -> cache s' = None).

Definition anyhow (s : Executor) : Prop := True.

Lemma safe_if_weaken {A} (C C' : Executor -> Prop) (m : M Executor A) Q :
  (forall s, C s -> C' s) -> safe_if C' m Q -> safe_if C m Q.
Proof. intros HC Hm s Hs Hc. apply Hm; auto. Qed.

Lemma safe_ret {A} C (a : A) (Q : A -> Prop) : Q a -> safe_if C (ret a) Q.
Proof. intros Ha s Hs _. exists a, s. auto. Qed.

Lemma safe_bind {A B} C (m : M Executor A) (f : A -> M Executor B) Q1 Q :
  safe_if C m Q1 -> (forall a, Q1 a -> safe_if anyhow (f a) Q) ->
  safe_if C (bind m f) Q.
Proof.
  intros Hm Hf s Hs Hc. destruct (Hm s Hs Hc) as (a & s1 & E & Hs1 & Ha & Hn).
  destruct (Hf a Ha s1 Hs1 I) as (b & s2 & E2 & Hs2 & Hb & Hn2).
  exists b, s2. unfold bind. rewrite E.
  split; [exact E2|]. split; [exact Hs2|]. split; [exact Hb|].
  intros Hnone. apply Hn2, Hn, Hnone.
Qed.

(** Binding a computation that only reads keeps the side condition. *)
Lemma safe_bind_arg {B} C ops k v (f : Z -> M Executor B) Q :
  getitem ops k = inr v -> safe_if C (f v) Q -> safe_if C (bind (arg ops k) f) Q.
Proof.
  intros Hk Hf s Hs Hc. unfold bind, arg, lift. rewrite Hk. now apply Hf.
Qed.

Lemma safe_bind_reg {B} C i (f : Z -> M Executor B) Q :
  0 <= i < 16 -> (forall v, P v -> safe_if C (f v) Q) ->
  safe_if C (bind (reg i) f) Q.
Proof.
  intros Hi Hf s Hs Hc. pose proof Hs as (Hlen & Hregs & _).
  destruct (lookup_lt_is_Some_2 (registers s) (Z.to_nat i)) as [v Hv];
    [unfold sixteen in Hlen; lia|].
  unfold bind. rewrite (reg_ok s i v Hlen Hi Hv).
  apply Hf; [|assumption..].
  rewrite Forall_lookup in Hregs. now apply (Hregs _ _ Hv).
Qed.

Lemma safe_bind_read_word {B} C a (f : Z -> M Executor B) Q :
  (forall v, P v -> safe_if C (f v) Q) ->
  safe_if C (bind (read_memory_word a) f) Q.
Proof.
  intros Hf s Hs Hc. unfold bind, read_memory_word, gets.
  apply Hf; [|assumption..]. apply Pm_read, Hs.
Qed.

Lemma safe_bind_check {B} C c (f : bool -> M Executor B) Q :
  (forall b, safe_if C (f b) Q) -> safe_if C (bind (check_condition c) f) Q.
Proof.
  intros Hf s Hs Hc. destruct (check_condition_pure c s) as [b Hb].
  unfold bind. rewrite Hb. now apply Hf.
Qed.

Lemma safe_bind_cache {B} (f : option CacheSimulator -> M Executor B) Q :
  safe_if (fun s => cache s = None) (f None) Q ->
  (forall c, hierarchy_wf c -> safe_if (fun s => cache s = Some c) (f (Some c)) Q) ->
  safe_if anyhow (bind (gets cache) f) Q.
Proof.
  intros Hnone Hsome s Hs _. unfold bind, gets.
  destruct (cache s) as [c|] eqn:Hc.
  - assert (hierarchy_wf c) as Hwf.
    { destruct Hs as (_ & _ & _ & Hok). unfold cache_ok in Hok.
      now rewrite Hc in Hok. }
    destruct (Hsome c Hwf s Hs Hc) as (a & s' & E & Hi & Hq & _).
    exists a, s'. repeat (split; [assumption|]). discriminate.
  - destruct (Hnone s Hs Hc) as (a & s' & E & Hi & Hq & Hn).
    exists a, s'. repeat (split; [assumption|]). intros _. now apply Hn.
Qed.

Lemma safe_bind_no_cache {B} (f : option CacheSimulator -> M Executor B) Q :
  safe_if (fun s => cache s = None) (f None) Q ->
  safe_if (fun s => cache s = None) (bind (gets cache) f) Q.
Proof.
  intros Hnone s Hs Hc. unfold bind, gets. rewrite Hc.
  destruct (Hnone s Hs Hc) as (a & s' & E & Hi & Hq & Hn).
  exists a, s'. repeat (split; [assumption|]). intros _. now apply Hn.
Qed.

Lemma safe_set_reg C i v :
  0 <= i < 16 -> P v -> safe_if C (set_reg i v) (fun _ => True).
Proof.
  intros Hi Hv s (Hlen & Hregs & Hmem & Hc) _.
  exists tt. eexists. rewrite (set_reg_ok s i v Hlen Hi).
  split; [reflexivity|]. split; [|auto].
  split; [unfold sixteen; cbn; now rewrite length_insert|].
  split; [cbn; now apply Forall_insert|]. split; assumption.
Qed.

Lemma state_change_safe C (f : Executor -> Executor) :
  (forall s, registers (f s) = registers s /\ memory (f s) = memory s
             /\ cache (f s) = cache s) ->
  safe_if C (modify f) (fun _ => True).
Proof.
  intros Hf s (Hlen & Hregs & Hmem & Hc) _. destruct (Hf s) as (E1 & E2 & E3).
  exists tt, (f s). split; [reflexivity|].
  unfold inv, sixteen, cache_ok. rewrite E1, E2, E3. auto 10.
Qed.

Lemma safe_set_cpsr_flag C flag v : safe_if C (set_cpsr_flag flag v) (fun _ => True).
Proof.
  unfold set_cpsr_flag. destruct (dict_get flag_positions flag);
    [|now apply safe_ret].
  destruct v; apply state_change_safe; intros s; repeat split.
Qed.

Lemma safe_update_flags C r : safe_if C (update_flags r) (fun _ => True).
Proof.
  unfold update_flags. eapply safe_bind; [apply safe_set_cpsr_flag|].
  intros _ _. apply safe_set_cpsr_flag.
Qed.

Lemma safe_print C e : safe_if C (print e) (fun _ => True).
Proof. apply state_change_safe. intros s. repeat split. Qed.

Lemma safe_switch_mode C m : safe_if C (switch_mode m) (fun _ => True).
Proof.
  unfold switch_mode. eapply safe_bind; [|intros _ _; apply safe_print].
  apply state_change_safe. intros s. repeat split.
Qed.

Lemma safe_write_memory_word C a v : safe_if C (write_memory_word a v) (fun _ => True).
Proof.
  intros s (Hlen & Hregs & Hmem & Hc) _. eexists tt, _.
  split; [reflexivity|]. split; [|auto].
  split; [exact Hlen|]. split; [exact Hregs|]. split; [|exact Hc].
  cbn. now apply Pm_write.
Qed.

(** A call on the attached cache whose levels are well formed. *)
Lemma safe_on_cache c (m : M CacheSimulator unit) :
  hierarchy_wf c ->
  (forall c0, hierarchy_wf c0 -> exists c', m c0 = Ok tt c' /\ hierarchy_wf c') ->
  safe_if (fun s => cache s = Some c) (on_cache c m) (fun _ => True).
Proof.
  intros Hwf Hm s (Hlen & Hregs & Hmem & Hc) Hsome.
  destruct (Hm c Hwf) as (c' & Hrun & Hwf').
  exists tt. eexists. unfold on_cache, zoom. rewrite Hrun.
  split; [reflexivity|]. split; [|split; [exact I|congruence]].
  split; [exact Hlen|]. split; [exact Hregs|]. split; [exact Hmem|].
  unfold cache_ok. cbn. exact Hwf'.
Qed.

Lemma fetch_then_data_wf pc a w (c0 : CacheSimulator) :
  hierarchy_wf c0 ->
  exists c', (access_instruction pc ;; access_data a w) c0 = Ok tt c'
             /\ hierarchy_wf c'.
Proof.
  intros Hwf. destruct (access_instruction_wf c0 pc Hwf) as (c1 & H1 & Hwf1).
  destruct (access_data_wf c1 a w Hwf1) as (c2 & H2 & Hwf2).
  exists c2. unfold bind. rewrite H1. auto.
Qed.

Lemma land_mask_range (x m k : Z) :
  0 <= k -> 0 <= m < 2 ^ k -> 0 <= Z.land x m < 2 ^ k.
Proof.
  intros Hk Hm.
  assert (Z.land x m = Z.land (Z.land x m) (Z.ones k)) as ->.
  { rewrite <- Z.land_assoc. f_equal.
    rewrite Z.land_ones by exact Hk. symmetry. now apply Z.mod_small. }
  now apply land_ones_range.
Qed.

Lemma mask32_range (x : Z) : 0 <= mask32 x < 2 ^ 32.
Proof. rewrite mask32_mod. apply Z.mod_pos_bound. lia. Qed.

(** The high-register operands of Thumb Format 5. *)
Lemma hi_register_range (h r : Z) :
  0 <= Z.lor (Z.shiftl (Z.land h 1) 3) (Z.land r 7) < 16.
Proof.
  pose proof (land_mask_range h 1 1 ltac:(lia) ltac:(lia)) as Hh.
  pose proof (land_mask_range r 7 3 ltac:(lia) ltac:(lia)) as Hr.
  change (2 ^ 1) with 2 in Hh. change (2 ^ 3) with 8 in Hr.
  assert (Z.land h 1 = 0 \/ Z.land h 1 = 1) as [->| ->] by lia.
  - rewrite Z.shiftl_0_l, Z.lor_0_l. lia.
  - change (Z.shiftl 1 3) with 8.
    assert (Z.land r 7 = 0 \/ Z.land r 7 = 1 \/ Z.land r 7 = 2 \/ Z.land r 7 = 3
            \/ Z.land r 7 = 4 \/ Z.land r 7 = 5 \/ Z.land r 7 = 6 \/ Z.land r 7 = 7)
      as [->|[->|[->|[->|[->|[->|[->| ->]]]]]]] by lia;
      vm_compute; (split; [discriminate|reflexivity]).
Qed.

Ltac solve_index :=
  first
    [ unfold PC, LR; lia
    | apply hi_register_range
    | apply (land_mask_range _ _ 4); lia
    | apply (land_mask_range _ _ 3); lia ].

Ltac solve_value :=
  first
    [ assumption
    | apply P_32; apply mask32_range
    | apply P_32; apply (land_mask_range _ _ 32); lia ].

Ltac safe_step :=
  first
    [ eapply safe_bind_arg; [reflexivity|]
    | apply safe_bind_reg; [solve_index|intros ? ?]
    | apply safe_bind_read_word; intros ? ?
    | apply safe_bind_check; intros ?
    | apply safe_bind_cache; [|intros ? ?]
    | apply safe_bind_no_cache
    | apply safe_set_reg; [solve_index|solve_value]
    | apply safe_update_flags
    | apply safe_switch_mode
    | apply safe_print
    | apply safe_write_memory_word
    | apply safe_ret; exact I
    | apply safe_on_cache; [assumption|]; intros ? ?;
      first [now apply fetch_then_data_wf | now apply access_data_wf]
    | match goal with
      | |- safe_if _ (if ?b then _ else _) _ => destruct b
      end
    | eapply safe_bind; [|intros ? ?] ].

(** Every ARM instruction returns and keeps the invariant; the link
    register write of [BL] needs the value predicate to allow [PC + 4]. *)
Lemma arm_instruction_safe (instruction : Z) :
  (fst (ARMDecoder.decode_instruction instruction) = "BL" ->
   forall v, P v -> P (v + 4)) ->
  safe_if anyhow (execute_arm_instruction instruction) (fun _ => True).
Proof.
  unfold execute_arm_instruction, ARMDecoder.decode_instruction.
  repeat match goal with
         | |- context [if ?b then _ else _] => destruct b
         end;
    cbn [fst]; intros Hlink;
    match goal with
    | |- safe_if _ (dispatch_arm ?m ?o) _ =>
      let h := eval cbv beta iota delta
                    [dispatch_arm String.eqb Ascii.eqb Bool.eqb] in (dispatch_arm m o) in
      change (dispatch_arm m o) with h
    end;
    try apply safe_print;
    match goal with
    | |- safe_if _ (?h _) _ => unfold h
    end;
    repeat safe_step.
  all: try (apply safe_set_reg; [solve_index|]; apply Hlink; [reflexivity|assumption]).
Qed.

(** The mnemonic the Thumb decoder gives an instruction. *)
Definition thumb_mnemonic (instruction : Z) : string :=
  match FixedThumbDecoder.decode_thumb_instruction instruction with
  | inr (m, _) => m
  | inl _ => ""
  end.

Ltac thumb_cache_step :=
  match goal with
  | |- safe_if _ (bind (gets cache) _) _ =>
    first
      [ apply (safe_if_weaken _ (fun s => cache s = None));
        [let H := fresh "Hload" in intros ? H; apply H; reflexivity
        |apply safe_bind_no_cache]
      | apply (safe_if_weaken _ anyhow);
        [intros ? ?; exact I|apply safe_bind_cache; [|intros ? ?]] ]
  end.

Ltac thumb_leaf :=
  repeat match goal with
         | |- context [py_index ?l ?i] =>
           let r := eval vm_compute in (py_index l i) in
           change (py_index l i) with r
         end;
  cbv beta iota delta [Z.eqb Pos.eqb];
  match goal with
  | |- safe_if _ (bind (lift (inr (?m, ?o))) _) _ =>
    let h := eval cbv beta iota delta
                  [dispatch_thumb String.eqb Ascii.eqb Bool.eqb
                   FixedThumbDecoder.t_prefix String.append] in (dispatch_thumb m o) in
    change (safe_if
              (fun s => m = "T_LDR" -> cache s = None) h (fun _ => True))
  end;
  try apply safe_print;
  match goal with
  | |- safe_if _ (?h _) _ => unfold h
  end;
  repeat first [thumb_cache_step | safe_step].

(** Every Thumb instruction returns and keeps the invariant, except that a
    load needs the executor to have no cache. *)
Lemma thumb_instruction_safe (instruction : Z) :
  safe_if (fun s => thumb_mnemonic instruction = "T_LDR" -> cache s = None)
          (execute_thumb_instruction instruction) (fun _ => True).
Proof.
  unfold execute_thumb_instruction, thumb_mnemonic,
    FixedThumbDecoder.decode_thumb_instruction.
  pose proof (land_mask_range (Z.shiftr instruction 11) 3 2 ltac:(lia) ltac:(lia)) as R11.
  pose proof (land_mask_range (Z.shiftr instruction 8) 3 2 ltac:(lia) ltac:(lia)) as R8.
  pose proof (land_mask_range (Z.shiftr instruction 6) 15 4 ltac:(lia) ltac:(lia)) as R6.
  change (2 ^ 2) with 4 in *. change (2 ^ 4) with 16 in *.
  destruct (Z.land (Z.shiftr instruction 13) 7 =? 1) eqn:F3.
  { assert (Z.land (Z.shiftr instruction 11) 3 = 0 \/ Z.land (Z.shiftr instruction 11) 3 = 1
            \/ Z.land (Z.shiftr instruction 11) 3 = 2 \/ Z.land (Z.shiftr instruction 11) 3 = 3)
      as [E|[E|[E|E]]] by lia; rewrite E; thumb_leaf. }
  destruct (Z.land (Z.shiftr instruction 11) 31 =? 3) eqn:F2.
  { destruct (truthy (Z.land (Z.shiftr instruction 10) 1)),
             (truthy (Z.land (Z.shiftr instruction 9) 1)); thumb_leaf. }
  destruct (Z.land (Z.shiftr instruction 13) 7 =? 0) eqn:F1.
  { pose proof (thumb_shift_type_range instruction F2 F1) as R.
    assert (Z.land (Z.shiftr instruction 11) 3 = 0 \/ Z.land (Z.shiftr instruction 11) 3 = 1
            \/ Z.land (Z.shiftr instruction 11) 3 = 2)
      as [E|[E|E]] by lia; rewrite E; thumb_leaf. }
  destruct (Z.land (Z.shiftr instruction 10) 63 =? 16).
  { assert (exists n, (n < 16)%nat /\ Z.land (Z.shiftr instruction 6) 15 = Z.of_nat n)
      as (n & Hn & E) by (exists (Z.to_nat (Z.land (Z.shiftr instruction 6) 15)); lia).
    rewrite E.
    do 16 (destruct n as [|n]; [thumb_leaf|]). lia. }
  destruct (Z.land (Z.shiftr instruction 10) 63 =? 17).
  { assert (Z.land (Z.shiftr instruction 8) 3 = 0 \/ Z.land (Z.shiftr instruction 8) 3 = 1
            \/ Z.land (Z.shiftr instruction 8) 3 = 2 \/ Z.land (Z.shiftr instruction 8) 3 = 3)
      as [E|[E|[E|E]]] by lia; rewrite E; thumb_leaf. }
  destruct (Z.land (Z.shiftr instruction 13) 7 =? 2).
  { assert (Z.land (Z.shiftr instruction 11) 3 = 0 \/ Z.land (Z.shiftr instruction 11) 3 = 1
            \/ Z.land (Z.shiftr instruction 11) 3 = 2 \/ Z.land (Z.shiftr instruction 11) 3 = 3)
      as [E|[E|[E|E]]] by lia; rewrite E; thumb_leaf. }
  repeat match goal with
         | |- context [if ?b then _ else _] => destruct b
         end; thumb_leaf.
Qed.

End Safety.

Section NeverRaises.
Import Cache Executor.

Definition unconstrained (v : Z) : Prop := True.
Definition any_memory (m : gmap Z Z) : Prop := True.

Lemma inv_unconstrained (s : Executor) :
  inv unconstrained any_memory s <-> sixteen s /\ cache_ok s.
Proof.
  unfold inv. split.
  - intros (H1 & _ & _ & H4). auto.
  - intros (H1 & H4). repeat split; try assumption.
    apply Forall_forall. intros; exact I.
Qed.

Lemma arm_instruction_total (s : Executor) (instruction : Z) :
  sixteen s -> cache_ok s ->
  exists s', execute_arm_instruction instruction s = Ok tt s'
             /\ sixteen s' /\ cache_ok s'
             /\ (cache s = None -> cache s' = None).
Proof.
  intros Hlen Hc.
  assert (inv unconstrained any_memory s) as Hinv by (apply inv_unconstrained; auto).
  destruct (arm_instruction_safe unconstrained any_memory
              ltac:(intros; exact I) ltac:(intros; exact I) ltac:(intros; exact I)
              instruction ltac:(intros; exact I) s Hinv I)
    as ([] & s' & Hrun & Hinv' & _ & Hnone).
  exists s'. apply inv_unconstrained in Hinv'. destruct Hinv'. auto.
Qed.

Lemma thumb_instruction_total (s : Executor) (instruction : Z) :
  sixteen s -> cache_ok s ->
  (thumb_mnemonic instruction = "T_LDR" -> cache s = None) ->
  exists s', execute_thumb_instruction instruction s = Ok tt s'
             /\ sixteen s' /\ cache_ok s'
             /\ (cache s = None -> cache s' = None).
Proof.
  intros Hlen Hc Hload.
  assert (inv unconstrained any_memory s) as Hinv by (apply inv_unconstrained; auto).
  destruct (thumb_instruction_safe unconstrained any_memory
              ltac:(intros; exact I) ltac:(intros; exact I)
              instruction s Hinv Hload)
    as ([] & s' & Hrun & Hinv' & _ & Hnone).
  exists s'. apply inv_unconstrained in Hinv'. destruct Hinv'. auto.
Qed.

(** X9.  No ARM instruction makes the engine raise: with sixteen registers
    and either no cache or one whose levels are well formed,
    [execute_arm_instruction] returns for every instruction value, and the
    state it returns has sixteen registers and a cache that is still absent
    or still well formed.  The same holds for every Thumb instruction,
    except that a Thumb load needs the executor to have no cache. *)
Theorem instructions_never_raise (s : Executor) (instruction : Z) :
  sixteen s -> cache_ok s ->
  (exists s', execute_arm_instruction instruction s = Ok tt s'
              /\ sixteen s' /\ cache_ok s'
              /\ (cache s = None -> cache s' = None))
  /\ ((thumb_mnemonic instruction = "T_LDR" -> cache s = None) ->
      exists s', execute_thumb_instruction instruction s = Ok tt s'
                 /\ sixteen s' /\ cache_ok s'
                 /\ (cache s = None -> cache s' = None)).
Proof.
  intros Hlen Hc. split.
  - now apply arm_instruction_total.
  - now apply thumb_instruction_total.
Qed.

(** X9 on [STR R0, [R1]] with the cache of [main.py] attached. *)
Lemma instructions_never_raise_witness :
  exists s', execute_arm_instruction 0xE5810000 (store_state (Some main_cache))
             = Ok tt s'.
Proof.
  destruct (instructions_never_raise (store_state (Some main_cache)) 0xE5810000)
    as [(s' & Hrun & _) _].
  - reflexivity.
  - repeat split; cbn; (lia || reflexivity).
  - exists s'. exact Hrun.
Defined.

(** Every memory cell holds a byte. *)
Definition bytes_in_range (m : gmap Z Z) : Prop :=
  forall a v, m !! a = Some v -> 0 <= v < 256.

Definition in_range (v : Z) : Prop := 0 <= v < 2 ^ 32.

Lemma lor_range (a b k : Z) :
  0 <= k -> 0 <= a < 2 ^ k -> 0 <= b < 2 ^ k -> 0 <= Z.lor a b < 2 ^ k.
Proof.
  intros Hk Ha Hb.
  assert (Z.lor a b = Z.land (Z.lor a b) (Z.ones k)) as ->.
  { rewrite Z.land_lor_distr_l, !Z.land_ones by exact Hk.
    now rewrite !Z.mod_small. }
  now apply land_ones_range.
Qed.

Lemma mem_get_byte (m : gmap Z Z) (a : Z) :
  bytes_in_range m -> 0 <= mem_get m a < 256.
Proof.
  intros Hm. unfold mem_get. destruct (m !! a) as [v|] eqn:Hv; cbn; [|lia].
  exact (Hm a v Hv).
Qed.

Lemma read_word_in_range (m : gmap Z Z) (a : Z) :
  bytes_in_range m -> in_range (read_word m a).
Proof.
  intros Hm. unfold in_range, read_word. cbn [fold_left].
  pose proof (mem_get_byte m (a + 0) Hm). pose proof (mem_get_byte m (a + 1) Hm).
  pose proof (mem_get_byte m (a + 2) Hm). pose proof (mem_get_byte m (a + 3) Hm).
  repeat apply lor_range; try lia;
    rewrite Z.shiftl_mul_pow2 by lia; cbn [Z.mul Pos.mul]; lia.
Qed.

Lemma write_word_bytes_in_range (m : gmap Z Z) (a v : Z) :
  bytes_in_range m -> bytes_in_range (write_word m a v).
Proof.
  intros Hm b x. rewrite write_word_unfold.
  repeat (rewrite lookup_insert; case_decide;
          [intros [= <-]; apply (land_mask_range _ _ 8); lia|]).
  apply Hm.
Qed.

(** X10.  Except for [BL], instructions keep the register file within 32
    bits: if every register holds a value in [[0, 2^32)] and every memory
    cell a byte, then after any ARM instruction whose mnemonic is not [BL],
    and after any Thumb instruction (a Thumb load needing no cache), every
    register again holds a value in [[0, 2^32)] and every memory cell a
    byte. *)
Theorem instructions_keep_registers_in_range (s : Executor) (instruction : Z) :
  sixteen s -> cache_ok s ->
  registers_in_range s -> bytes_in_range (memory s) ->
  (fst (ARMDecoder.decode_instruction instruction) <> "BL" ->
   exists s', execute_arm_instruction instruction s = Ok tt s'
              /\ registers_in_range s' /\ bytes_in_range (memory s'))
  /\ ((thumb_mnemonic instruction = "T_LDR" -> cache s = None) ->
      exists s', execute_thumb_instruction instruction s = Ok tt s'
                 /\ registers_in_range s' /\ bytes_in_range (memory s')).
Proof.
  intros Hlen Hc Hregs Hmem.
  assert (inv in_range bytes_in_range s) as Hinv
      by (split; [exact Hlen|split; [exact Hregs|split; [exact Hmem|exact Hc]]]).
  split.
  - intros Hnot.
    destruct (arm_instruction_safe in_range bytes_in_range
                ltac:(intros; assumption) read_word_in_range write_word_bytes_in_range
                instruction ltac:(intros; contradiction) s Hinv I)
      as ([] & s' & Hrun & (_ & Hr & Hm & _) & _).
    exists s'. auto.
  - intros Hload.
    destruct (thumb_instruction_safe in_range bytes_in_range
                ltac:(intros; assumption) read_word_in_range
                instruction s Hinv Hload)
      as ([] & s' & Hrun & (_ & Hr & Hm & _) & _).
    exists s'. auto.
Qed.

(** X10 on [SUB R2, R0, SP] from the initial state: [0 - 0x1000] wraps. *)
Lemma instructions_keep_registers_in_range_witness :
  exists s', execute_arm_instruction 0xE040200D (Executor_init None) = Ok tt s'
             /\ registers_in_range s'.
Proof.
  destruct (instructions_keep_registers_in_range (Executor_init None) 0xE040200D)
    as [H _].
  - reflexivity.
  - exact I.
  - apply init_registers_in_range.
  - intros a v Hv. cbn in Hv. rewrite lookup_empty in Hv. discriminate.
  - destruct (H ltac:(vm_compute; discriminate)) as (s' & Hrun & Hr & _).
    exists s'. split; assumption.
Defined.

End NeverRaises.

(** * Runs without a cache never fail *)

Section RunNeverRaises.
Import Executor.

(** The program and the two values the loader derives from it. *)
Definition same_program (s0 s : Executor) : Prop :=
  program s = program s0 /\ arm_count s = arm_count s0
  /\ thumb_base s = thumb_base s0.

Lemma same_program_closed : writer_closed same_program.
Proof. constructor; intros; assumption. Qed.

(** A program entry that is not a Thumb load. *)
Definition no_thumb_load (e : Z * Mode) : Prop :=
  snd e = Thumb -> thumb_mnemonic (Z.land (fst e) 0xFFFF) <> "T_LDR".

(** Sixteen registers, a program loaded, and either no cache or a cache
    with well-formed levels and a program without Thumb loads. *)
Definition engine_ok (s : Executor) : Prop :=
  sixteen s /\ cache_ok s
  /\ (cache s = None \/ Forall no_thumb_load (program s))
  /\ exists ac tb, arm_count s = Some ac /\ thumb_base s = Some tb.

Lemma bind_ok {S A B} (m : M S A) (f : A -> M S B) (s s' : S) (a : A) :
  m s = Ok a s' -> bind m f s = f a s'.
Proof. intros H. unfold bind. now rewrite H. Qed.

Lemma reg_total (s : Executor) (i : Z) :
  sixteen s -> 0 <= i < 16 -> exists v, reg i s = Ok v s.
Proof.
  intros Hlen Hi.
  destruct (lookup_lt_is_Some_2 (registers s) (Z.to_nat i)) as [v Hv];
    [unfold sixteen in Hlen; lia|].
  exists v. now apply reg_ok.
Qed.

Lemma engine_ok_same (s s' : Executor) :
  engine_ok s -> sixteen s' -> cache_ok s' ->
  (cache s = None -> cache s' = None) -> same_program s s' ->
  engine_ok s'.
Proof.
  intros (_ & _ & Hload & ac & tb & Ha & Ht) Hlen Hc Hnone (Ep & Ea & Et).
  split; [exact Hlen|]. split; [exact Hc|]. split.
  - destruct Hload as [H|H]; [left; auto|right; now rewrite Ep].
  - exists ac, tb. split; congruence.
Qed.

(** The index the loop computes for the current program counter. *)
Lemma index_total (s : Executor) (pc_val : Z) :
  engine_ok s ->
  exists idx,
    (match mode s with
     | ARM => ret (pc_val / 4)
     | Thumb =>
       tb <- attr thumb_base ;;
       let offset := pc_val - tb in
       ac <- attr arm_count ;;
       ret (ac + offset / 2)
     end) s = Ok idx s.
Proof.
  intros (_ & _ & _ & ac & tb & Ha & Ht). destruct (mode s).
  - eexists. reflexivity.
  - eexists. unfold bind, attr. rewrite Ht, Ha. reflexivity.
Qed.

(** The instruction and the program-counter step that follows it. *)
Lemma execute_and_advance (s : Executor) (m : Mode) (instruction pc_val : Z) :
  engine_ok s ->
  (m = Thumb -> thumb_mnemonic (Z.land instruction 0xFFFF) = "T_LDR" ->
   cache s = None) ->
  exists s',
    (match m with
     | ARM =>
       execute_arm_instruction (Z.land instruction 0xFFFFFFFF) ;;
       pc <- reg PC ;;
       if pc =? pc_val then set_reg PC (pc + 4) else ret tt
     | Thumb =>
       execute_thumb_instruction (Z.land instruction 0xFFFF) ;;
       pc <- reg PC ;;
       if pc =? pc_val then set_reg PC (pc + 2) else ret tt
     end) s = Ok tt s'
    /\ engine_ok s'.
Proof.
  intros Hok Hload. pose proof Hok as (Hlen & Hcok & _).
  assert (exists s1,
             (match m with
              | ARM => execute_arm_instruction (Z.land instruction 0xFFFFFFFF)
              | Thumb => execute_thumb_instruction (Z.land instruction 0xFFFF)
              end) s = Ok tt s1 /\ engine_ok s1) as (s1 & Hrun & Hok1).
  { destruct m.
    - destruct (arm_instruction_total s (Z.land instruction 0xFFFFFFFF) Hlen Hcok)
        as (s1 & Hrun & Hlen1 & Hcok1 & Hnone).
      pose proof (closed_execute_arm_instruction same_program same_program_closed
                    (Z.land instruction 0xFFFFFFFF) s s ltac:(repeat split))
        as Hsame.
      rewrite Hrun in Hsame. cbn in Hsame.
      exists s1. split; [exact Hrun|].
      exact (engine_ok_same s s1 Hok Hlen1 Hcok1 Hnone Hsame).
    - destruct (thumb_instruction_total s (Z.land instruction 0xFFFF) Hlen Hcok
                  (Hload eq_refl)) as (s1 & Hrun & Hlen1 & Hcok1 & Hnone).
      pose proof (closed_execute_thumb_instruction same_program same_program_closed
                    (Z.land instruction 0xFFFF) s s ltac:(repeat split))
        as Hsame.
      rewrite Hrun in Hsame. cbn in Hsame.
      exists s1. split; [exact Hrun|].
      exact (engine_ok_same s s1 Hok Hlen1 Hcok1 Hnone Hsame). }
  pose proof Hok1 as (Hlen1 & Hcok1 & _).
  destruct (reg_total s1 PC Hlen1 ltac:(unfold PC; lia)) as [pc Hpc].
  assert (forall d, exists s',
             (if pc =? pc_val then set_reg PC (pc + d) else ret tt) s1 = Ok tt s'
             /\ engine_ok s') as Hadvance.
  { intros d. destruct (pc =? pc_val).
    - rewrite set_reg_ok by (try assumption; unfold PC; lia).
      eexists. split; [reflexivity|].
      apply (engine_ok_same s1);
        [exact Hok1| |exact Hcok1|intros H; exact H|repeat split].
      unfold sixteen. cbn. now rewrite length_insert.
    - exists s1. split; [reflexivity|exact Hok1]. }
  destruct m; rewrite (bind_ok _ _ _ _ _ Hrun), (bind_ok _ _ _ _ _ Hpc);
    apply Hadvance.
Qed.

Lemma step_never_raises (s : Executor) :
  engine_ok s -> exists b s', step s = Ok b s' /\ engine_ok s'.
Proof.
  intros Hok. pose proof Hok as (Hlen & Hc & Hload & Hattr).
  unfold step.
  destruct (reg_total s PC Hlen ltac:(unfold PC; lia)) as [pc_val Hpc].
  rewrite (bind_ok _ _ _ _ _ Hpc).
  rewrite (bind_ok (gets mode) _ s s (mode s) eq_refl).
  destruct (index_total s pc_val Hok) as [idx Hidx].
  rewrite (bind_ok _ _ _ _ _ Hidx).
  rewrite (bind_ok (gets program) _ s s (program s) eq_refl).
  destruct ((idx <? 0) || (idx >=? Z.of_nat (length (program s)))) eqn:Hbounds.
  - eexists _, _. split; [reflexivity|].
    apply (engine_ok_same s);
      [exact Hok|exact Hlen|exact Hc|intros H; exact H|repeat split].
  - apply orb_false_elim in Hbounds. destruct Hbounds as [H0 H1].
    apply Z.ltb_ge in H0. rewrite Z.geb_leb in H1. apply Z.leb_gt in H1.
    destruct (py_index_in_range (program s) idx ltac:(lia))
      as ([instruction instr_mode] & Hentry & _ & Hin).
    rewrite (bind_ok (lift (py_index (program s) idx)) _ s s _
                     ltac:(unfold lift; now rewrite Hentry)).
    cbv iota beta.
    rewrite (bind_ok (gets mode) _ s s (mode s) eq_refl).
    assert (exists s1,
               (if negb (Mode_eqb (mode s) instr_mode)
                then switch_mode instr_mode else ret tt) s = Ok tt s1
               /\ engine_ok s1 /\ mode s1 = instr_mode
               /\ cache s1 = cache s /\ program s1 = program s)
      as (s1 & Hswitch & Hok1 & Hmode & Hcache & Hprog).
    { assert (forall m, engine_ok (with_stdout (stdout (with_mode m s)
                                               ++ [SwitchedMode m])
                                              (with_mode m s))) as Hswitched.
      { intros m. apply (engine_ok_same s);
          [exact Hok|exact Hlen|exact Hc|intros H; exact H|repeat split]. }
      destruct (mode s) eqn:Em, instr_mode; cbn.
      - exists s. auto.
      - eexists. split; [reflexivity|]. split; [apply Hswitched|]. auto.
      - eexists. split; [reflexivity|]. split; [apply Hswitched|]. auto.
      - exists s. auto. }
    rewrite (bind_ok _ _ _ _ _ Hswitch).
    rewrite (bind_ok (gets mode) _ s1 s1 (mode s1) eq_refl).
    destruct (execute_and_advance s1 (mode s1) instruction pc_val Hok1)
      as (s2 & Hexec & Hok2).
    { intros Hthumb Hldr. rewrite Hcache.
      destruct Hload as [Hnone|Hnoload]; [exact Hnone|].
      rewrite List.Forall_forall in Hnoload.
      destruct (Hnoload _ Hin ltac:(cbn; congruence) Hldr). }
    rewrite (bind_ok _ _ _ _ _ Hexec).
    eexists _, _. split; [reflexivity|].
    pose proof Hok2 as (Hlen2 & Hc2 & _).
    apply (engine_ok_same s2);
      [exact Hok2|exact Hlen2|exact Hc2|intros H; exact H|repeat split].
Qed.

Lemma run_loop_never_raises (fuel : nat) (s : Executor) :
  engine_ok s -> exists s', run_loop fuel s = Ok tt s' /\ engine_ok s'.
Proof.
  revert s. induction fuel as [|fuel IH]; intros s Hok.
  - exists s. split; [reflexivity|exact Hok].
  - cbn [run_loop]. destruct (loop_condition s).
    + destruct (step_never_raises s Hok) as (b & s1 & Hstep & Hok1).
      rewrite (bind_ok _ _ _ _ _ Hstep). destruct b.
      * apply IH, Hok1.
      * exists s1. split; [reflexivity|exact Hok1].
    + exists s. split; [reflexivity|exact Hok].
Qed.

(** X11.  A run raises only through a Thumb load with a cache attached.
    For every non-empty program, of any instruction values and mode tags,
    loading it into a fresh executor and running it returns normally, with
    at most 1000 instructions executed, when the executor has no cache, and
    also when it has a cache with well-formed levels and no program entry
    tagged Thumb decodes to [T_LDR]. *)
Theorem run_never_raises
        (c : option Cache.CacheSimulator) (prog : list (Z * Mode)) :
  prog <> [] ->
  match c with
  | None => True
  | Some sim => hierarchy_wf sim /\ Forall no_thumb_load prog
  end ->
  exists s', run c prog = Ok tt s' /\ instruction_count s' <= 1000.
Proof.
  intros Hne Hcache. unfold run.
  assert (exists s0, load_program prog (Executor_init c) = Ok tt s0
                     /\ engine_ok s0) as (s0 & Hload & Hok).
  { unfold load_program. destruct prog as [|e rest]; [contradiction|].
    eexists. split; [reflexivity|].
    split; [reflexivity|]. split; [|split].
    - unfold cache_ok. cbn. destruct c as [sim|]; [apply Hcache|exact I].
    - cbn. destruct c as [sim|]; [right; apply Hcache|now left].
    - cbn. eauto. }
  rewrite (bind_ok _ _ _ _ _ Hload).
  destruct (load_program_state c prog s0 Hload) as (Hcount & Hmax & Hout).
  pose proof (execute_program_spec s0 ltac:(lia)
                ltac:(intros l; rewrite Hout; auto)) as (_ & Hle & _).
  rewrite Hmax in Hle.
  unfold execute_program in *.
  destruct (run_loop_never_raises
              (Z.to_nat (max_instructions s0 - instruction_count s0)) s0 Hok)
    as (s1 & Hloop & _).
  rewrite (bind_ok _ _ _ _ _ Hloop) in *.
  unfold bind, gets in *.
  destruct (instruction_count s1 >=? max_instructions s1);
    eexists; (split; [reflexivity|exact Hle]).
Qed.

End RunNeverRaises.

(** X11 on the pair of branches with the cache of [main.py]. *)
Lemma run_never_raises_witness :
  exists s', run (Some main_cache) arm_branch_pair = Ok tt s'.
Proof.
  destruct (run_never_raises (Some main_cache) arm_branch_pair ltac:(discriminate))
    as (s' & Hrun & _).
  - split.
    + repeat split; cbn; (lia || reflexivity).
    + repeat constructor; discriminate.
  - exists s'. exact Hrun.
Defined.

(** * The condition field of ARM instructions *)

Section ConditionField.
Import Executor.

(** A field that lies inside the low 28 bits does not see the bits above. *)
Lemma field_of_low (i k m : Z) :
  0 <= k -> 0 <= m < 2 ^ (28 - k) -> k <= 28 ->
  Z.land (Z.shiftr (Z.land i (Z.ones 28)) k) m = Z.land (Z.shiftr i k) m.
Proof.
  intros Hk Hm Hk28. apply Z.bits_inj'. intros n Hn.
  rewrite !Z.land_spec, !Z.shiftr_spec, Z.land_spec by lia.
  destruct (Z.ltb_spec n (28 - k)) as [Hlt|Hge].
  - rewrite (Z.ones_spec_low 28 (n + k)) by lia. now rewrite andb_true_r.
  - assert (Z.testbit m n = false) as ->; [|now rewrite !andb_false_r].
    destruct (Z.eq_dec m 0) as [->|Hm0]; [apply Z.bits_0|].
    apply Z.bits_above_log2; [lia|].
    apply Z.log2_lt_pow2; [lia|].
    apply Z.lt_le_trans with (2 ^ (28 - k)); [lia|].
    apply Z.pow_le_mono_r; lia.
Qed.

Lemma mask_of_low (i m : Z) :
  0 <= m < 2 ^ 28 ->
  Z.land (Z.land i (Z.ones 28)) m = Z.land i m.
Proof.
  intros Hm. pose proof (field_of_low i 0 m ltac:(lia) Hm ltac:(lia)) as H.
  now rewrite !Z.shiftr_0_r in H.
Qed.

Lemma decode_low_bits (i : Z) :
  ARMDecoder.decode_instruction (Z.land i (Z.ones 28))
  = ARMDecoder.decode_instruction i.
Proof.
  unfold ARMDecoder.decode_instruction.
  rewrite !field_of_low by first [lia | split; [lia|reflexivity]].
  rewrite !mask_of_low by (split; [lia|reflexivity]).
  reflexivity.
Qed.

(** X12.  The condition field is ignored.  Two instruction values that
    agree on bits 0 to 27 decode to the same mnemonic and operands and have
    the same effect on every state: an ARM instruction is executed whatever
    its condition code and whatever the flags are. *)
Theorem arm_condition_ignored (i j : Z) :
  Z.land i 0x0FFFFFFF = Z.land j 0x0FFFFFFF ->
  ARMDecoder.decode_instruction i = ARMDecoder.decode_instruction j
  /\ forall s, execute_arm_instruction i s = execute_arm_instruction j s.
Proof.
  intros Hlow. change 0x0FFFFFFF with (Z.ones 28) in Hlow.
  assert (ARMDecoder.decode_instruction i = ARMDecoder.decode_instruction j) as Hdec.
  { rewrite <- (decode_low_bits i), <- (decode_low_bits j). now rewrite Hlow. }
  split; [exact Hdec|].
  intros s. unfold execute_arm_instruction. now rewrite Hdec.
Qed.

End ConditionField.

(** X12 on [MOVEQ R0, #5] ([0x03A00005]) and [MOVNV R0, #5] ([0xF3A00005])
    from the initial state, where the Z flag is clear: both write R0, as
    [MOV R0, #5] ([0xE3A00005]) does. *)
Lemma arm_condition_ignored_witness :
  (exists s', Executor.execute_arm_instruction 0x03A00005 (Executor.Executor_init None)
              = Ok tt s'
              /\ Executor.registers s' !! 0%nat = Some 5)
  /\ Executor.execute_arm_instruction 0xF3A00005 (Executor.Executor_init None)
     = Executor.execute_arm_instruction 0xE3A00005 (Executor.Executor_init None).
Proof.
  split.
  - destruct (arm_condition_ignored 0x03A00005 0xE3A00005 eq_refl) as [_ H].
    rewrite H. eexists. split; reflexivity.
  - destruct (arm_condition_ignored 0xF3A00005 0xE3A00005 eq_refl) as [_ H].
    apply H.
Defined.

(** * What instructions leave alone

    A relation between a reference state and the current state that is
    kept by register, cache, mode, console and counter updates is kept by
    every handler that neither updates the flags nor stores to memory; the
    two remaining kinds of update are separate assumptions, so that a
    relation on the flags or on memory can be followed through the
    handlers that do not touch them. *)

Section HandlerFrame.
Import Executor.

Variable R : Executor -> Executor -> Prop.
Hypothesis R_registers : forall s0 s r, R s0 s -> R s0 (with_registers r s).
Hypothesis R_cache : forall s0 s c, R s0 s -> R s0 (with_cache c s).
Hypothesis R_mode : forall s0 s m, R s0 s -> R s0 (with_mode m s).
Hypothesis R_stdout : forall s0 s o, R s0 s -> R s0 (with_stdout o s).
Hypothesis R_count : forall s0 s n, R s0 s -> R s0 (with_instruction_count n s).
Lemma kept_set_reg i v : preserves R (set_reg i v).
Proof.
  intros s0 s Hs. unfold set_reg.
  destruct (py_setitem (registers s) i v); cbn; [exact Hs|].
  now apply R_registers.
Qed.

Lemma kept_print e : preserves R (print e).
Proof. intros s0 s Hs. cbn. now apply R_stdout. Qed.

Lemma kept_switch_mode m : preserves R (switch_mode m).
Proof.
  unfold switch_mode. apply preserves_bind.
  - intros s0 s Hs. cbn. now apply R_mode.
  - intros _. apply kept_print.
Qed.

Lemma kept_on_cache {A} c (m : M Cache.CacheSimulator A) :
  preserves R (on_cache c m).
Proof.
  intros s0 s Hs. unfold on_cache, zoom.
  destruct (m c); cbn; now apply R_cache.
Qed.

#[local] Hint Resolve kept_set_reg kept_print kept_switch_mode kept_on_cache
  : frame.

(** The mnemonics whose handlers call [update_flags], and the one whose
    handler calls [write_memory_word]. *)
Definition arm_flag_setters : list string :=
  ["CMP"; "CMP_IMM"; "TST"; "TST_IMM"; "TEQ"; "TEQ_IMM"].
Definition thumb_flag_setters : list string := ["T_CMP"; "T_CMP_IMM"].

Definition flags_kept : Prop := forall r, preserves R (update_flags r).
Definition stores_kept : Prop := forall a v, preserves R (write_memory_word a v).

Lemma flags_kept_by_cpsr :
  (forall s0 s c, R s0 s -> R s0 (with_cpsr c s)) -> flags_kept.
Proof.
  intros Hcpsr r s0 s Hs. unfold update_flags, bind, set_cpsr_flag. cbn.
  destruct (r =? 0), (r <? 0); cbn; now apply Hcpsr, Hcpsr.
Qed.

Lemma stores_kept_by_memory :
  (forall s0 s m, R s0 s -> R s0 (with_memory m s)) -> stores_kept.
Proof. intros Hmem a v s0 s Hs. cbn. now apply Hmem. Qed.

(** Walks down a dispatch chain; in the branch of a mnemonic it first
    claims the assumptions that are available for that mnemonic. *)
Ltac kept_dispatch :=
  repeat match goal with
         | |- preserves _ (if String.eqb ?m ?lit then _ else _) =>
           let E := fresh "E" in
           destruct (String.eqb m lit) eqn:E;
           [apply String.eqb_eq in E; subst|]
         end;
  repeat match goal with
         | H : In _ _ -> _ |- _ =>
           first [specialize (H ltac:(cbn; tauto)); unfold flags_kept in H
                 |clear H]
         | H : _ = _ -> _ |- _ =>
           first [specialize (H eq_refl); unfold stores_kept in H|clear H]
         end;
  try solve [auto with frame];
  try match goal with |- preserves _ (?h _) => unfold h end; frame.

Lemma kept_dispatch_arm instr_type ops :
  (In instr_type arm_flag_setters -> flags_kept) ->
  (instr_type = "STR" -> stores_kept) ->
  preserves R (dispatch_arm instr_type ops).
Proof. intros Hflags Hstore. unfold dispatch_arm. kept_dispatch. Qed.

Lemma kept_dispatch_thumb instr_type ops :
  (In instr_type thumb_flag_setters -> flags_kept) ->
  preserves R (dispatch_thumb instr_type ops).
Proof. intros Hflags. unfold dispatch_thumb. kept_dispatch. Qed.

Lemma kept_execute_arm_instruction instruction :
  (In (fst (ARMDecoder.decode_instruction instruction)) arm_flag_setters ->
   flags_kept) ->
  (fst (ARMDecoder.decode_instruction instruction) = "STR" -> stores_kept) ->
  preserves R (execute_arm_instruction instruction).
Proof.
  unfold execute_arm_instruction.
  destruct (ARMDecoder.decode_instruction instruction).
  apply kept_dispatch_arm.
Qed.

Lemma kept_execute_thumb_instruction instruction :
  (In (thumb_mnemonic instruction) thumb_flag_setters -> flags_kept) ->
  preserves R (execute_thumb_instruction instruction).
Proof.
  intros Hflags s0 s Hs. unfold execute_thumb_instruction, bind, lift.
  unfold thumb_mnemonic in Hflags.
  destruct (FixedThumbDecoder.decode_thumb_instruction instruction) as [e|[m o]];
    [exact Hs|].
  now apply kept_dispatch_thumb.
Qed.

(** The instruction that the loop executes for a program entry. *)
Definition entry_kept (e : Z * Mode) : Prop :=
  match e with
  | (i, ARM) => preserves R (execute_arm_instruction (Z.land i 0xFFFFFFFF))
  | (i, Thumb) => preserves R (execute_thumb_instruction (Z.land i 0xFFFF))
  end.

Lemma final_bind_readonly {A B} (m : M Executor A) (f : A -> M Executor B) s :
  readonly m ->
  (exists a, m s = Ok a s /\ final_state (bind m f s) = final_state (f a s))
  \/ final_state (bind m f s) = s.
Proof.
  intros Hm. specialize (Hm s). unfold bind.
  destruct (m s) as [a s'|e s']; cbn in *; subst; eauto.
Qed.

Lemma readonly_index (md : Mode) (pc_val : Z) :
  readonly (match md with
            | ARM => ret (pc_val / 4)
            | Thumb =>
              tb <- attr thumb_base ;;
              let offset := pc_val - tb in
              ac <- attr arm_count ;;
              ret (ac + offset / 2)
            end).
Proof.
  destruct md; [apply readonly_ret|].
  apply readonly_bind; [apply readonly_attr|intros tb].
  apply readonly_bind; [apply readonly_attr|intros ac]. apply readonly_ret.
Qed.

(** One loop iteration keeps [R] when the instructions of the program do:
    the entry fetched decides which of the two instruction sets runs. *)
Lemma kept_step (s0 s : Executor) :
  Forall entry_kept (program s) -> R s0 s -> R s0 (final_state (step s)).
Proof.
  intros Hprog HR. unfold step.
  match goal with
  | |- R _ (final_state (bind ?m ?f s)) =>
    destruct (final_bind_readonly m f s (readonly_reg _))
      as [(pc_val & _ & ->)| ->]; [|exact HR]
  end.
  rewrite (bind_ok (gets mode) _ s s (mode s) eq_refl).
  match goal with
  | |- R _ (final_state (bind ?m ?f s)) =>
    destruct (final_bind_readonly m f s (readonly_index _ _))
      as [(idx & _ & ->)| ->]; [|exact HR]
  end.
  rewrite (bind_ok (gets program) _ s s (program s) eq_refl).
  destruct ((idx <? 0) || (idx >=? Z.of_nat (length (program s)))).
  - cbn. now apply R_stdout.
  - match goal with
    | |- R _ (final_state (bind ?m ?f s)) =>
      destruct (final_bind_readonly m f s (readonly_lift _))
        as [([instruction instr_mode] & Hentry & ->)| ->]; [|exact HR]
    end.
    assert (entry_kept (instruction, instr_mode)) as Hkept.
    { unfold lift in Hentry.
      destruct (py_index (program s) idx) as [e|entry] eqn:E; [discriminate|].
      injection Hentry as ->. apply py_index_In in E.
      rewrite List.Forall_forall in Hprog. now apply Hprog. }
    cbv iota beta.
    rewrite (bind_ok (gets mode) _ s s (mode s) eq_refl).
    assert (exists s1,
               (if negb (Mode_eqb (mode s) instr_mode)
                then switch_mode instr_mode else ret tt) s = Ok tt s1
               /\ R s0 s1 /\ mode s1 = instr_mode) as (s1 & Hswitch & HR1 & Hmode).
    { destruct (mode s) eqn:Em, instr_mode; cbn.
      - exists s. auto.
      - eexists. split; [reflexivity|]. split; [|reflexivity].
        now apply R_stdout, R_mode.
      - eexists. split; [reflexivity|]. split; [|reflexivity].
        now apply R_stdout, R_mode.
      - exists s. auto. }
    rewrite (bind_ok _ _ _ _ _ Hswitch).
    rewrite (bind_ok (gets mode) _ s1 s1 (mode s1) eq_refl), Hmode.
    match goal with
    | |- R _ (final_state (?m s1)) =>
      cut (preserves R m); [intros Hbody; exact (Hbody s0 s1 HR1)|]
    end.
    apply preserves_bind.
    + destruct instr_mode; cbn in Hkept; frame.
    + intros _ s0' s1' HR1'. cbn. now apply R_count.
Qed.

Lemma step_same_program (s : Executor) : same_program s (final_state (step s)).
Proof.
  apply (step_ensures same_program same_program_closed
           (fun s0 r => same_program s0 (final_state r)));
    try (intros; assumption).
  repeat split.
Qed.

Lemma kept_run_loop (fuel : nat) (s0 s : Executor) :
  Forall entry_kept (program s) -> R s0 s ->
  R s0 (final_state (run_loop fuel s)).
Proof.
  revert s. induction fuel as [|fuel IH]; intros s Hprog HR; [exact HR|].
  cbn [run_loop]. destruct (loop_condition s); [|exact HR].
  pose proof (kept_step s0 s Hprog HR) as Hstep.
  pose proof (step_same_program s) as (Hsame & _).
  unfold bind. destruct (step s) as [[|] s1|e s1]; cbn in *; try exact Hstep.
  apply IH; [now rewrite Hsame|exact Hstep].
Qed.

Lemma kept_execute_program (s0 s : Executor) :
  Forall entry_kept (program s) -> R s0 s ->
  R s0 (final_state (execute_program s)).
Proof.
  intros Hprog HR. unfold execute_program, bind.
  pose proof (kept_run_loop (Z.to_nat (max_instructions s - instruction_count s))
                s0 s Hprog HR) as Hloop.
  destruct (run_loop _ s) as [[] s1|e s1]; cbn in *; [|exact Hloop].
  destruct (instruction_count s1 >=? max_instructions s1); cbn;
    [now apply R_stdout|exact Hloop].
Qed.

Hypothesis R_program :
  forall s0 s p ac tb, R s0 s -> R s0 (with_program p ac tb s).

(** A whole run, from the constructor to the end of [execute_program]. *)
Lemma kept_run (c : option Cache.CacheSimulator) (prog : list (Z * Mode)) :
  R (Executor_init c) (Executor_init c) ->
  Forall entry_kept prog ->
  R (Executor_init c) (final_state (run c prog)).
Proof.
  intros Hrefl Hprog. unfold run, bind, load_program.
  destruct prog as [|e rest]; [cbn; now apply R_program|].
  apply kept_execute_program; [exact Hprog|].
  now apply R_program, R_program.
Qed.

End HandlerFrame.

(** * Memory is written by ARM stores only *)

Section MemoryWriters.
Import Executor.

Definition same_memory (s0 s : Executor) : Prop := memory s = memory s0.

Lemma same_memory_flags : flags_kept same_memory.
Proof.
  intros r s0 s Hs. unfold update_flags, bind, set_cpsr_flag. cbn.
  destruct (r =? 0), (r <? 0); exact Hs.
Qed.

Lemma thumb_same_memory (instruction : Z) :
  preserves same_memory (execute_thumb_instruction instruction).
Proof.
  apply kept_execute_thumb_instruction; try (intros; assumption).
  intros _. apply same_memory_flags.
Qed.

Lemma arm_same_memory (instruction : Z) :
  fst (ARMDecoder.decode_instruction instruction) <> "STR" ->
  preserves same_memory (execute_arm_instruction instruction).
Proof.
  intros Hnot.
  apply kept_execute_arm_instruction; try (intros; assumption).
  - intros _. apply same_memory_flags.
  - intros Hstr. contradiction.
Qed.

(** An entry that is Thumb code, or ARM code other than a store. *)
Definition not_arm_store (e : Z * Mode) : Prop :=
  snd e = Thumb
  \/ fst (ARMDecoder.decode_instruction (Z.land (fst e) 0xFFFFFFFF)) <> "STR".

(** X13.  Memory is written by ARM [STR] and by nothing else: an ARM
    instruction that does not decode to [STR] leaves every memory cell as
    it was, and so does every Thumb instruction, stores included, in every
    state and whether it returns or raises.  Hence a run of a program whose
    entries are Thumb code or ARM code other than [STR] ends with the
    memory empty, as the constructor made it. *)
Theorem memory_written_by_arm_str_only :
  (forall s instruction,
      fst (ARMDecoder.decode_instruction instruction) <> "STR" ->
      memory (final_state (execute_arm_instruction instruction s)) = memory s)
  /\ (forall s instruction,
         memory (final_state (execute_thumb_instruction instruction s)) = memory s)
  /\ (forall c prog,
         Forall not_arm_store prog ->
         memory (final_state (run c prog)) = ∅).
Proof.
  split; [|split].
  - intros s instruction Hnot. now apply (arm_same_memory instruction Hnot s s).
  - intros s instruction. now apply (thumb_same_memory instruction s s).
  - intros c prog Hprog.
    apply (kept_run same_memory); try (intros; assumption); [reflexivity|].
    apply List.Forall_forall. intros [i [|]] Hin; cbn.
    + rewrite List.Forall_forall in Hprog.
      destruct (Hprog _ Hin) as [Hthumb|Hnot]; [discriminate|].
      now apply arm_same_memory.
    + apply thumb_same_memory.
Qed.

End MemoryWriters.

(** X13 on the Thumb store [STR R0, [R1, #0]] ([0x6008]) run as a
    one-instruction program with the cache of [main.py]. *)
Lemma memory_written_by_arm_str_only_witness :
  Executor.memory (final_state (run (Some main_cache) [(0x6008, Executor.Thumb)])) = ∅.
Proof.
  destruct memory_written_by_arm_str_only as (_ & _ & H).
  apply H. constructor; [left; reflexivity|constructor].
Defined.

(** * The status register *)

Section StatusRegister.
Import Executor.

Lemma testbit_flag_update (c p q : Z) (v : bool) :
  0 <= p -> p <> q ->
  Z.testbit (if v then Z.lor c (Z.shiftl 1 p)
             else Z.land c (Z.lnot (Z.shiftl 1 p))) q
  = Z.testbit c q.
Proof.
  intros Hp Hpq. destruct (Z.ltb_spec q 0) as [Hneg|Hq].
  - now rewrite !Z.testbit_neg_r.
  - rewrite Z.shiftl_1_l. destruct v.
    + rewrite Z.lor_spec, Z.pow2_bits_eqb by exact Hp.
      destruct (Z.eqb_spec p q); [contradiction|apply orb_false_r].
    + rewrite Z.land_spec, Z.lnot_spec, Z.pow2_bits_eqb by assumption.
      destruct (Z.eqb_spec p q); [contradiction|apply andb_true_r].
Qed.

(** Every bit of the status register other than Z (30) and N (31). *)
Definition same_low_flags (s0 s : Executor) : Prop :=
  forall p, p <> 30 -> p <> 31 -> Z.testbit (cpsr s) p = Z.testbit (cpsr s0) p.

Definition same_cpsr (s0 s : Executor) : Prop := cpsr s = cpsr s0.

Lemma same_low_flags_update : flags_kept same_low_flags.
Proof.
  intros r s0 s Hs p H30 H31.
  unfold update_flags, bind, set_cpsr_flag.
  cbn [dict_get flag_positions String.eqb Ascii.eqb Bool.eqb].
  rewrite <- (Hs p H30 H31).
  destruct (r =? 0), (r <? 0); cbn [modify final_state cpsr with_cpsr];
    (etransitivity;
     [first [apply (testbit_flag_update _ 31 p true)
            |apply (testbit_flag_update _ 31 p false)]; lia
     |first [apply (testbit_flag_update _ 30 p true)
            |apply (testbit_flag_update _ 30 p false)]; lia]).
Qed.

Lemma same_low_flags_store : stores_kept same_low_flags.
Proof. intros a v s0 s Hs. exact Hs. Qed.

Lemma arm_same_low_flags (instruction : Z) :
  preserves same_low_flags (execute_arm_instruction instruction).
Proof.
  apply kept_execute_arm_instruction; try (intros; assumption); intros _.
  - apply same_low_flags_update.
  - apply same_low_flags_store.
Qed.

Lemma thumb_same_low_flags (instruction : Z) :
  preserves same_low_flags (execute_thumb_instruction instruction).
Proof.
  apply kept_execute_thumb_instruction; try (intros; assumption); intros _.
  apply same_low_flags_update.
Qed.

Lemma flag_clear (s : Executor) (flag : string) (p : Z) :
  dict_get flag_positions flag = Some p -> 0 <= p ->
  Z.testbit (cpsr s) p = false ->
  get_cpsr_flag flag s = Ok false s.
Proof.
  intros Hflag Hp Hbit. unfold get_cpsr_flag. rewrite Hflag. unfold gets.
  now rewrite Z.shiftl_1_l, truthy_land_pow2, Hbit.
Qed.

(** X14.  Carry and overflow are never set.  An instruction, ARM or Thumb,
    changes no bit of the status register other than Z and N, in any state
    and whether it returns or raises.  So at the end of every run the C and
    V flags are clear, as the constructor left them, and the conditions
    that need one of them set (CS, VS, HI) are false while their
    complements (CC, VC, LS) are true. *)
Theorem carry_and_overflow_never_set :
  (forall s instruction p,
      p <> 30 -> p <> 31 ->
      Z.testbit (cpsr (final_state (execute_arm_instruction instruction s))) p
      = Z.testbit (cpsr s) p)
  /\ (forall s instruction p,
         p <> 30 -> p <> 31 ->
         Z.testbit (cpsr (final_state (execute_thumb_instruction instruction s))) p
         = Z.testbit (cpsr s) p)
  /\ (forall c prog,
         let s' := final_state (run c prog) in
         get_cpsr_flag "C" s' = Ok false s'
         /\ get_cpsr_flag "V" s' = Ok false s'
         /\ check_condition 0x2 s' = Ok false s'
         /\ check_condition 0x6 s' = Ok false s'
         /\ check_condition 0x8 s' = Ok false s'
         /\ check_condition 0x3 s' = Ok true s'
         /\ check_condition 0x7 s' = Ok true s'
         /\ check_condition 0x9 s' = Ok true s').
Proof.
  split; [|split].
  - intros s instruction p H30 H31.
    apply (arm_same_low_flags instruction s s); [intros ? _ _; reflexivity| |];
      assumption.
  - intros s instruction p H30 H31.
    apply (thumb_same_low_flags instruction s s); [intros ? _ _; reflexivity| |];
      assumption.
  - intros c prog s'.
    assert (same_low_flags (Executor_init c) s') as Hsame.
    { apply (kept_run same_low_flags); try (intros; assumption).
      - intros p _ _. reflexivity.
      - apply List.Forall_forall. intros [i [|]] _; cbn.
        + apply arm_same_low_flags.
        + apply thumb_same_low_flags. }
    clearbody s'.
    assert (get_cpsr_flag "C" s' = Ok false s') as HC.
    { apply (flag_clear s' "C" 29 eq_refl); [lia|].
      rewrite Hsame by lia. apply Z.bits_0. }
    assert (get_cpsr_flag "V" s' = Ok false s') as HV.
    { apply (flag_clear s' "V" 28 eq_refl); [lia|].
      rewrite Hsame by lia. apply Z.bits_0. }
    split; [exact HC|]. split; [exact HV|].
    unfold check_condition, bind.
    destruct (get_cpsr_flag "N" s') as [n sn|e sn] eqn:HN;
      [|unfold get_cpsr_flag in HN; discriminate HN].
    assert (sn = s') as ->
        by (pose proof (readonly_get_cpsr_flag "N" s') as Hro;
            rewrite HN in Hro; exact Hro).
    destruct (get_cpsr_flag "Z" s') as [z sz|e sz] eqn:HZ;
      [|unfold get_cpsr_flag in HZ; discriminate HZ].
    assert (sz = s') as ->
        by (pose proof (readonly_get_cpsr_flag "Z" s') as Hro;
            rewrite HZ in Hro; exact Hro).
    rewrite HC, HV. cbn. repeat split.
Qed.

Lemma same_cpsr_store : stores_kept same_cpsr.
Proof. intros a v s0 s Hs. exact Hs. Qed.

(** X15.  The Z and N flags are set by compare and test instructions only:
    an ARM instruction whose mnemonic is not one of [CMP], [TST], [TEQ]
    (register or immediate form) and a Thumb instruction whose mnemonic is
    neither [T_CMP] nor [T_CMP_IMM] leave the whole status register as it
    was.  Arithmetic and logic instructions never update the flags,
    whatever their S bit says. *)
Theorem flags_set_by_compare_only (s : Executor) (instruction : Z) :
  (~ In (fst (ARMDecoder.decode_instruction instruction)) arm_flag_setters ->
   cpsr (final_state (execute_arm_instruction instruction s)) = cpsr s)
  /\ (~ In (thumb_mnemonic instruction) thumb_flag_setters ->
      cpsr (final_state (execute_thumb_instruction instruction s)) = cpsr s).
Proof.
  split; intros Hnot.
  - apply (kept_execute_arm_instruction same_cpsr); try (intros; assumption);
      [contradiction|intros _; apply same_cpsr_store|reflexivity].
  - apply (kept_execute_thumb_instruction same_cpsr); try (intros; assumption);
      [contradiction|reflexivity].
Qed.

End StatusRegister.

(** X14 on the pair of branches with the cache of [main.py]. *)
Lemma carry_and_overflow_never_set_witness :
  Executor.check_condition 0x2 (final_state (run (Some main_cache) arm_branch_pair))
  = Ok false (final_state (run (Some main_cache) arm_branch_pair)).
Proof.
  destruct carry_and_overflow_never_set as (_ & _ & H).
  destruct (H (Some main_cache) arm_branch_pair) as (_ & _ & Hcs & _).
  exact Hcs.
Defined.

(** X15 on [SUBS R0, R0, R0] ([0xE0500000]) from the initial state: the
    result is zero and the Z flag stays clear. *)
Lemma flags_set_by_compare_only_witness :
  Executor.cpsr (final_state (Executor.execute_arm_instruction
                                0xE0500000 (Executor.Executor_init None))) = 0.
Proof.
  destruct (flags_set_by_compare_only (Executor.Executor_init None) 0xE0500000)
    as [H _].
  rewrite H; [reflexivity|].
  vm_compute. intuition discriminate.
Defined.

(** * When a Thumb instruction raises *)

Section ThumbRaises.
Import Executor.

Lemma thumb_decode_load (instruction : Z) :
  thumb_mnemonic instruction = "T_LDR" ->
  FixedThumbDecoder.decode_thumb_instruction instruction
  = inr ("T_LDR", [("rd", Z.land instruction 0x7);
                   ("rb", Z.land (Z.shiftr instruction 3) 0x7);
                   ("offset", Z.land (Z.shiftr instruction 6) 0x1F)]).
Proof.
  unfold thumb_mnemonic, FixedThumbDecoder.decode_thumb_instruction.
  repeat match goal with
         | |- context [if ?b then _ else _] => destruct b
         | |- context [match py_index ?l ?i with _ => _ end] =>
           let E := fresh "E" in
           destruct (py_index l i) eqn:E; [|apply py_index_In in E]
         end;
    intros H; try discriminate H; try reflexivity;
    match goal with
    | E : In _ _ |- _ =>
      cbn in E;
      repeat (destruct E as [E|E];
              [subst; vm_compute in H; discriminate H|]);
      contradiction
    end.
Qed.

(** X16.  A Thumb instruction raises exactly when it is a load and a cache
    is attached.  With sixteen registers and either no cache or one whose
    levels are well formed, [execute_thumb_instruction] raises if and only
    if the instruction decodes to [T_LDR] and the executor has a cache; the
    exception is then [TypeError] (the call [access_data(address)] lacks
    its [is_write] argument) and the state is left as it was: nothing is
    loaded. *)
Theorem thumb_raises_exactly_on_cached_load (s : Executor) (instruction : Z) :
  sixteen s -> cache_ok s ->
  ((exists e s', execute_thumb_instruction instruction s = Raise e s')
   <-> (thumb_mnemonic instruction = "T_LDR" /\ cache s <> None))
  /\ (thumb_mnemonic instruction = "T_LDR" -> cache s <> None ->
      execute_thumb_instruction instruction s = Raise TypeError s).
Proof.
  intros Hlen Hc.
  assert (thumb_mnemonic instruction = "T_LDR" -> cache s <> None ->
          execute_thumb_instruction instruction s = Raise TypeError s) as Hraise.
  { intros Hload Hcache. unfold execute_thumb_instruction.
    rewrite (thumb_decode_load instruction Hload).
    rewrite (bind_ok (lift (inr _)) _ s s _ eq_refl).
    change (dispatch_thumb "T_LDR" ?o) with (execute_thumb_ldr o).
    unfold execute_thumb_ldr, arg.
    cbn [getitem dict_get String.eqb Ascii.eqb Bool.eqb].
    rewrite !(bind_ok (lift (inr _)) _ s s _ eq_refl).
    destruct (reg_total s (Z.land (Z.shiftr instruction 3) 0x7) Hlen) as [base Hbase].
    { pose proof (land_mask_range (Z.shiftr instruction 3) 7 3 ltac:(lia)
                                  ltac:(split; [lia|reflexivity])).
      lia. }
    rewrite (bind_ok _ _ _ _ _ Hbase).
    rewrite (bind_ok (gets cache) _ s s (cache s) eq_refl).
    destruct (cache s); [reflexivity|contradiction]. }
  split; [|exact Hraise]. split.
  - intros (e & s' & Hrun).
    destruct (String.string_dec (thumb_mnemonic instruction) "T_LDR") as [Hload|Hother].
    + split; [exact Hload|]. intros Hnone.
      destruct (thumb_instruction_total s instruction Hlen Hc ltac:(intros _; exact Hnone))
        as (s1 & Hok & _).
      rewrite Hok in Hrun. discriminate.
    + destruct (thumb_instruction_total s instruction Hlen Hc
                  ltac:(intros Hload; contradiction)) as (s1 & Hok & _).
      rewrite Hok in Hrun. discriminate.
  - intros [Hload Hcache]. exists TypeError, s. now apply Hraise.
Qed.

End ThumbRaises.

(** X16 on [LDR R0, [R1, #0]] ([0x6808]) with the cache of [main.py]. *)
Lemma thumb_raises_exactly_on_cached_load_witness :
  Executor.execute_thumb_instruction 0x6808 (Executor.Executor_init (Some main_cache))
  = Raise TypeError (Executor.Executor_init (Some main_cache)).
Proof.
  destruct (thumb_raises_exactly_on_cached_load
              (Executor.Executor_init (Some main_cache)) 0x6808)
    as [_ H].
  - reflexivity.
  - repeat split; cbn; (lia || reflexivity).
  - apply H; [reflexivity|discriminate].
Defined.

(** * Nothing halts a run *)

Section Halting.
Import Executor.

(** A mask that starts at bit [k] selects the field above bit [k]. *)
Lemma land_shifted_mask (i m k : Z) :
  0 <= k ->
  Z.land i (Z.shiftl m k) = Z.shiftl (Z.land (Z.shiftr i k) m) k.
Proof.
  intros Hk. apply Z.bits_inj'. intros n Hn.
  rewrite Z.land_spec. destruct (Z.ltb_spec n k) as [Hlt|Hge].
  - rewrite !Z.shiftl_spec_low by lia. apply andb_false_r.
  - rewrite !Z.shiftl_spec, Z.land_spec, Z.shiftr_spec by lia.
    now replace (n - k + k) with n by lia.
Qed.

Lemma arm_swi_fields (i : Z) :
  Z.land (Z.shiftr i 24) 0xF = 0xF ->
  Z.land (Z.shiftr i 26) 0x3 = 3 /\ Z.land i 0x0FFFFFF0 <> 0x012FFF10.
Proof.
  intros H. change 0xF with (Z.ones 4) in H at 1.
  rewrite Z.land_ones, Z.shiftr_div_pow2 in H by lia.
  split.
  - change 0x3 with (Z.ones 2) at 1.
    rewrite Z.land_ones, Z.shiftr_div_pow2 by lia.
    replace (i / 2 ^ 26) with (i / 2 ^ 24 / 2 ^ 2)
      by (rewrite Z.div_div by lia; reflexivity).
    generalize dependent (i / 2 ^ 24). intros q H.
    change (2 ^ 4) with 16 in *. change (2 ^ 2) with 4 in *.
    Z.div_mod_to_equations. lia.
  - change 0x0FFFFFF0 with (Z.shiftl (Z.ones 24) 4).
    rewrite land_shifted_mask by lia.
    rewrite Z.land_ones, Z.shiftr_div_pow2, Z.shiftl_mul_pow2 by lia.
    replace (i / 2 ^ 24) with (i / 2 ^ 4 / 2 ^ 20) in H
      by (rewrite Z.div_div by lia; reflexivity).
    generalize dependent (i / 2 ^ 4). intros q H.
    change (2 ^ 4) with 16 in *. change (2 ^ 24) with 16777216 in *.
    change (2 ^ 20) with 1048576 in *.
    Z.div_mod_to_equations. lia.
Qed.

Lemma thumb_swi_fields (i : Z) :
  0xDF00 <= i <= 0xDFFF ->
  Z.land (Z.shiftr i 13) 7 = 6
  /\ Z.land (Z.shiftr i 11) 31 = 27
  /\ Z.land (Z.shiftr i 10) 63 = 55
  /\ Z.shiftr i 12 = 13
  /\ Z.land (Z.shiftr i 8) 0xF = 0xF
  /\ Z.shiftr i 11 = 27
  /\ Z.land i 0xFF00 = 0xDF00.
Proof.
  intros Hi.
  change 0xFF00 with (Z.shiftl (Z.ones 8) 8). rewrite land_shifted_mask by lia.
  change 7 with (Z.ones 3). change 31 with (Z.ones 5).
  change 63 with (Z.ones 6). change 0xF with (Z.ones 4) at 1.
  rewrite !Z.land_ones, !Z.shiftr_div_pow2, Z.shiftl_mul_pow2 by lia.
  change (2 ^ 13) with 8192. change (2 ^ 12) with 4096.
  change (2 ^ 11) with 2048. change (2 ^ 10) with 1024.
  change (2 ^ 8) with 256. change (2 ^ 3) with 8. change (2 ^ 5) with 32.
  change (2 ^ 6) with 64. change (2 ^ 4) with 16.
  repeat split; Z.div_mod_to_equations; lia.
Qed.

Definition same_running (s0 s : Executor) : Prop := running s = running s0.

(** X17.  Nothing halts a run.  A software interrupt is decoded and skipped
    in both instruction sets: an ARM instruction with bits 27 to 24 all set
    and a Thumb instruction [0xDFxx] change nothing but the console, where
    they leave the line for an unimplemented instruction.  No instruction
    clears the [running] attribute: it is still true at the end of every
    run, so a run ends by leaving the program, at the ceiling, or with an
    exception. *)
Theorem software_interrupt_is_skipped :
  (forall s i,
      Z.land (Z.shiftr i 24) 0xF = 0xF ->
      execute_arm_instruction i s
      = Ok tt (with_stdout (stdout s ++ [Unimplemented "UNKNOWN"]) s))
  /\ (forall s i,
         0xDF00 <= i <= 0xDFFF ->
         execute_thumb_instruction i s
         = Ok tt (with_stdout (stdout s ++ [Unimplemented "T_SWI"]) s))
  /\ (forall c prog, running (final_state (run c prog)) = true).
Proof.
  split; [|split].
  - intros s i Hswi. destruct (arm_swi_fields i Hswi) as [Htype Hbx].
    unfold execute_arm_instruction, ARMDecoder.decode_instruction.
    rewrite Htype. apply Z.eqb_neq in Hbx. rewrite Hbx. reflexivity.
  - intros s i Hi.
    destruct (thumb_swi_fields i Hi) as (H1 & H2 & H3 & H4 & H5 & H6 & H7).
    unfold execute_thumb_instruction, FixedThumbDecoder.decode_thumb_instruction.
    rewrite H1, H2, H3, H4, H5, H6, H7. reflexivity.
  - intros c prog.
    apply (kept_run same_running); try (intros; assumption); [reflexivity|].
    apply List.Forall_forall. intros [i [|]] _; cbn.
    + apply kept_execute_arm_instruction; try (intros; assumption); intros _.
      * apply flags_kept_by_cpsr. intros; assumption.
      * apply stores_kept_by_memory. intros; assumption.
    + apply kept_execute_thumb_instruction; try (intros; assumption); intros _.
      apply flags_kept_by_cpsr. intros; assumption.
Qed.

End Halting.

(** X17 on [SWI 0x11] ([0xEF000011]), the halt request of the older
    executor, from the initial state. *)
Lemma software_interrupt_is_skipped_witness :
  Executor.registers
    (final_state (Executor.execute_arm_instruction 0xEF000011 (Executor.Executor_init None)))
  = Executor.registers (Executor.Executor_init None).
Proof.
  destruct software_interrupt_is_skipped as (H & _ & _).
  rewrite (H (Executor.Executor_init None) 0xEF000011 eq_refl). reflexivity.
Defined.

(** * Who probes the cache *)

Section CacheUsers.
Import Executor.

Definition same_cache (s0 s : Executor) : Prop := cache s = cache s0.

Lemma same_cache_set_reg i v : preserves same_cache (set_reg i v).
Proof. apply kept_set_reg. intros; assumption. Qed.

Lemma same_cache_print e : preserves same_cache (print e).
Proof. apply kept_print. intros; assumption. Qed.

Lemma same_cache_switch_mode m : preserves same_cache (switch_mode m).
Proof. apply kept_switch_mode; intros; assumption. Qed.

Lemma same_cache_update_flags r : preserves same_cache (update_flags r).
Proof. apply flags_kept_by_cpsr. intros; assumption. Qed.

Lemma same_cache_write_memory_word a v :
  preserves same_cache (write_memory_word a v).
Proof. apply stores_kept_by_memory. intros; assumption. Qed.

#[local] Hint Resolve same_cache_set_reg same_cache_print same_cache_switch_mode
  same_cache_update_flags same_cache_write_memory_word : frame.

(** The mnemonics whose handlers call a method of the cache. *)
Definition arm_cache_users : list string := ["LDR"; "STR"].

(** Walks down a dispatch chain; the branches of the excluded mnemonics
    contradict [Hnot]. *)
Ltac cache_dispatch Hnot :=
  repeat match goal with
         | |- preserves _ (if String.eqb ?m ?lit then _ else _) =>
           let E := fresh "E" in
           destruct (String.eqb m lit) eqn:E;
           [apply String.eqb_eq in E; subst|]
         end;
  try (exfalso; apply Hnot; cbn; tauto);
  try solve [auto with frame];
  try match goal with |- preserves _ (?h _) => unfold h end; frame.

Lemma arm_same_cache (instruction : Z) :
  ~ In (fst (ARMDecoder.decode_instruction instruction)) arm_cache_users ->
  preserves same_cache (execute_arm_instruction instruction).
Proof.
  unfold execute_arm_instruction.
  destruct (ARMDecoder.decode_instruction instruction) as [instr_type ops].
  cbn [fst]. intros Hnot. unfold dispatch_arm. cache_dispatch Hnot.
Qed.

Lemma thumb_same_cache (instruction : Z) :
  thumb_mnemonic instruction <> "T_STR" ->
  preserves same_cache (execute_thumb_instruction instruction).
Proof.
  intros Hnot s0 s Hs. unfold execute_thumb_instruction, bind, lift.
  unfold thumb_mnemonic in Hnot.
  destruct (FixedThumbDecoder.decode_thumb_instruction instruction)
    as [e|[instr_type ops]]; [exact Hs|].
  revert s0 s Hs. change (preserves same_cache (dispatch_thumb instr_type ops)).
  unfold dispatch_thumb. cache_dispatch Hnot.
Qed.

(** A program entry that is neither an ARM load or store nor a Thumb
    store. *)
Definition no_cache_user (e : Z * Mode) : Prop :=
  match e with
  | (i, ARM) =>
    ~ In (fst (ARMDecoder.decode_instruction (Z.land i 0xFFFFFFFF))) arm_cache_users
  | (i, Thumb) => thumb_mnemonic (Z.land i 0xFFFF) <> "T_STR"
  end.

(** X18.  Fetching an instruction never goes through the cache.  An ARM
    instruction that decodes to neither [LDR] nor [STR] and a Thumb
    instruction that does not decode to [T_STR] leave the cache object,
    lines and statistics included, exactly as it was, whether they return
    or raise.  So the run of a program without ARM loads and stores and
    without Thumb stores ends with the cache it was given: the instruction
    cache counts only the loads and stores, not the instructions
    executed. *)
Theorem cache_probed_by_loads_and_stores_only :
  (forall s instruction,
      ~ In (fst (ARMDecoder.decode_instruction instruction)) arm_cache_users ->
      cache (final_state (execute_arm_instruction instruction s)) = cache s)
  /\ (forall s instruction,
         thumb_mnemonic instruction <> "T_STR" ->
         cache (final_state (execute_thumb_instruction instruction s)) = cache s)
  /\ (forall c prog,
         Forall no_cache_user prog ->
         cache (final_state (run c prog)) = c).
Proof.
  split; [|split].
  - intros s instruction Hnot. now apply (arm_same_cache instruction Hnot s s).
  - intros s instruction Hnot. now apply (thumb_same_cache instruction Hnot s s).
  - intros c prog Hprog.
    apply (kept_run same_cache); try (intros; assumption); [reflexivity|].
    apply List.Forall_forall. intros [i [|]] Hin;
      rewrite List.Forall_forall in Hprog; specialize (Hprog _ Hin); cbn in *.
    + now apply arm_same_cache.
    + now apply thumb_same_cache.
Qed.

End CacheUsers.

(** X18 on the pair of branches, which executes 1000 instructions, with the
    cache of [main.py]: no level has seen an access. *)
Lemma cache_probed_by_loads_and_stores_only_witness :
  Executor.cache (final_state (run (Some main_cache) arm_branch_pair))
  = Some main_cache.
Proof.
  destruct cache_probed_by_loads_and_stores_only as (_ & _ & H).
  apply H. repeat constructor; vm_compute; intuition discriminate.
Defined.

(** * What a load or a store costs *)

Section LoadStoreProbes.
Import Cache Executor.

(** An instruction access followed by a data access on a well-formed
    hierarchy. *)
Lemma fetch_then_data_counts (pc a : Z) (w : bool) (c0 : CacheSimulator) :
  hierarchy_wf c0 ->
  exists c', (access_instruction pc ;; access_data a w) c0 = Ok tt c'
             /\ hierarchy_wf c'
             /\ accesses (L1I c') = accesses (L1I c0) + 1
             /\ accesses (L1D c') = accesses (L1D c0) + 1
             /\ accesses (L2 c0) <= accesses (L2 c') <= accesses (L2 c0) + 2.
Proof.
  intros Hwf. pose proof Hwf as (W1 & W2 & W3).
  destruct (access_instruction_spec c0 pc W1 W3)
    as (h1 & l1 & h2 & l2 & c1 & H1 & H2 & Hrun1 & E1 & E2 & E3 & _).
  destruct (access_instruction_wf c0 pc Hwf) as (c1' & Hrun1' & Hwf1).
  assert (c1' = c1) as -> by congruence.
  pose proof Hwf1 as (V1 & V2 & V3).
  destruct (access_data_spec c1 a w V2 V3)
    as (g1 & m1 & g2 & m2 & c2 & G1 & G2 & Hrun2 & F1 & F2 & F3 & _).
  destruct (access_data_wf c1 a w Hwf1) as (c2' & Hrun2' & Hwf2).
  assert (c2' = c2) as -> by congruence.
  exists c2. split; [unfold bind; now rewrite Hrun1|]. split; [exact Hwf2|].
  destruct (access_well_formed (L1I c0) pc false W1)
    as (? & ? & ? & A1 & _ & _ & Hacc1 & _).
  destruct (access_well_formed (L2 c0) pc false W3)
    as (? & ? & ? & A2 & _ & _ & Hacc2 & _).
  destruct (access_well_formed (L1D c1) a w V2)
    as (? & ? & ? & A3 & _ & _ & Hacc3 & _).
  destruct (access_well_formed (L2 c1) a w V3)
    as (? & ? & ? & A4 & _ & _ & Hacc4 & _).
  rewrite H1 in A1. rewrite H2 in A2. rewrite G1 in A3. rewrite G2 in A4.
  injection A1 as <- <-. injection A2 as <- <-.
  injection A3 as <- <-. injection A4 as <- <-.
  rewrite E2 in Hacc3. rewrite E3 in Hacc4.
  rewrite F2, E1, F1, F3, E3.
  split; [exact Hacc1|]. split; [exact Hacc3|].
  destruct g1, h1; lia.
Qed.

Lemma arm_decode_load_store (instruction : Z) :
  In (fst (ARMDecoder.decode_instruction instruction)) arm_cache_users ->
  exists m,
    (m = "LDR" \/ m = "STR")
    /\ ARMDecoder.decode_instruction instruction
       = (m, [("rd", Z.land (Z.shiftr instruction 12) 0xF);
              ("rn", Z.land (Z.shiftr instruction 16) 0xF);
              ("offset", Z.land instruction 0xFFF)]).
Proof.
  unfold ARMDecoder.decode_instruction.
  repeat match goal with
         | |- context [if ?b then _ else _] => destruct b
         end;
    cbn [fst arm_cache_users In]; intros [H|[H|[]]];
    try discriminate H; eexists; (split; [|reflexivity]); auto.
Qed.

(** X19.  What a load or a store costs.  With sixteen registers and a
    cache whose levels are well formed, an ARM instruction that decodes to
    [LDR] or [STR] returns, and the cache it leaves has seen exactly one
    more access in the instruction level and one more in the data level,
    and at most two more in the second level. *)
Theorem arm_load_store_probes_twice
        (s : Executor) (c : CacheSimulator) (instruction : Z) :
  sixteen s -> cache s = Some c -> hierarchy_wf c ->
  In (fst (ARMDecoder.decode_instruction instruction)) arm_cache_users ->
  exists s' c',
    execute_arm_instruction instruction s = Ok tt s'
    /\ cache s' = Some c' /\ hierarchy_wf c'
    /\ accesses (L1I c') = accesses (L1I c) + 1
    /\ accesses (L1D c') = accesses (L1D c) + 1
    /\ accesses (L2 c) <= accesses (L2 c') <= accesses (L2 c) + 2.
Proof.
  intros Hlen Hc Hwf Huser.
  destruct (arm_decode_load_store instruction Huser) as (m & Hm & Hdec).
  unfold execute_arm_instruction. rewrite Hdec.
  assert (0 <= Z.land (Z.shiftr instruction 12) 0xF < 16) as Hrd
      by (apply (land_mask_range _ 15 4); [lia|split; [lia|reflexivity]]).
  assert (0 <= Z.land (Z.shiftr instruction 16) 0xF < 16) as Hrn
      by (apply (land_mask_range _ 15 4); [lia|split; [lia|reflexivity]]).
  destruct (reg_total s _ Hlen Hrn) as [base Hbase].
  destruct (reg_total s _ Hlen Hrd) as [value Hvalue].
  destruct (reg_total s PC Hlen ltac:(unfold PC; lia)) as [pc Hpc].
  destruct Hm as [-> | ->].
  - change (dispatch_arm "LDR" ?o) with (execute_arm_ldr o).
    unfold execute_arm_ldr, arg.
    cbn [getitem dict_get String.eqb Ascii.eqb Bool.eqb].
    rewrite !(bind_ok (lift (inr _)) _ s s _ eq_refl).
    rewrite (bind_ok _ _ _ _ _ Hbase).
    rewrite (bind_ok (gets cache) _ s s (cache s) eq_refl), Hc.
    destruct (fetch_then_data_counts pc
                (base + Z.land instruction 0xFFF) false c Hwf)
      as (c' & Hrun & Hwf' & H1 & H2 & H3).
    erewrite (bind_ok _ _ s (with_cache (Some c') s) tt);
      [|rewrite (bind_ok _ _ _ _ _ Hpc); unfold on_cache, zoom;
        now rewrite Hrun].
    rewrite (bind_ok (read_memory_word _) _ _ _ _ eq_refl).
    rewrite set_reg_ok by assumption.
    eexists _, c'. split; [reflexivity|]. cbn. auto.
  - change (dispatch_arm "STR" ?o) with (execute_arm_str o).
    unfold execute_arm_str, arg.
    cbn [getitem dict_get String.eqb Ascii.eqb Bool.eqb].
    rewrite !(bind_ok (lift (inr _)) _ s s _ eq_refl).
    rewrite (bind_ok _ _ _ _ _ Hbase), (bind_ok _ _ _ _ _ Hvalue).
    rewrite (bind_ok (gets cache) _ s s (cache s) eq_refl), Hc.
    destruct (fetch_then_data_counts pc
                (base + Z.land instruction 0xFFF) true c Hwf)
      as (c' & Hrun & Hwf' & H1 & H2 & H3).
    erewrite (bind_ok _ _ s (with_cache (Some c') s) tt);
      [|rewrite (bind_ok _ _ _ _ _ Hpc); unfold on_cache, zoom;
        now rewrite Hrun].
    eexists _, c'. split; [reflexivity|]. cbn. auto.
Qed.

End LoadStoreProbes.

(** X19 on [STR R0, [R1]] ([0xE5810000]) with the cache of [main.py]. *)
Lemma arm_load_store_probes_twice_witness :
  exists s' c',
    Executor.execute_arm_instruction 0xE5810000 (store_state (Some main_cache))
    = Ok tt s'
    /\ Executor.cache s' = Some c'
    /\ Cache.accesses (Cache.L1I c') = 1 /\ Cache.accesses (Cache.L1D c') = 1.
Proof.
  destruct (arm_load_store_probes_twice (store_state (Some main_cache)) main_cache
                                        0xE5810000)
    as (s' & c' & Hrun & Hc & _ & H1 & H2 & _).
  - reflexivity.
  - reflexivity.
  - repeat split; cbn; (lia || reflexivity).
  - vm_compute. tauto.
  - exists s', c'. repeat split; assumption.
Defined.

(** * Condition codes *)

Section Conditions.
Import Executor.

Lemma get_cpsr_flag_value (flag : string) (s : Executor) :
  exists b, get_cpsr_flag flag s = Ok b s.
Proof.
  unfold get_cpsr_flag. destruct (dict_get flag_positions flag); eexists; reflexivity.
Qed.

(** X20.  Condition codes come in complementary pairs and are total: for
    every condition number from 0 to 15 and every state, [check_condition]
    returns, without changing the state, and the number with its lowest bit
    flipped returns the opposite answer (EQ/NE, CS/CC, MI/PL, VS/VC, HI/LS,
    GE/LT, GT/LE, AL/NV); every number outside 0 to 15 returns [False]. *)
Theorem conditions_are_complementary (s : Executor) (condition : Z) :
  (0 <= condition < 16 ->
   exists b, check_condition condition s = Ok b s
             /\ check_condition (Z.lxor condition 1) s = Ok (negb b) s)
  /\ (~ 0 <= condition < 16 -> check_condition condition s = Ok false s).
Proof.
  unfold check_condition.
  destruct (get_cpsr_flag_value "N" s) as [n Hn].
  destruct (get_cpsr_flag_value "Z" s) as [z Hz].
  destruct (get_cpsr_flag_value "C" s) as [c Hc].
  destruct (get_cpsr_flag_value "V" s) as [v Hv].
  rewrite !(bind_ok _ _ _ _ _ Hn), !(bind_ok _ _ _ _ _ Hz),
    !(bind_ok _ _ _ _ _ Hc), !(bind_ok _ _ _ _ _ Hv).
  unfold ret. split.
  - intros Hrange. eexists. split; [reflexivity|]. f_equal.
    assert (condition = 0 \/ condition = 1 \/ condition = 2 \/ condition = 3
            \/ condition = 4 \/ condition = 5 \/ condition = 6 \/ condition = 7
            \/ condition = 8 \/ condition = 9 \/ condition = 10 \/ condition = 11
            \/ condition = 12 \/ condition = 13 \/ condition = 14
            \/ condition = 15) as Hcases by lia.
    repeat (destruct Hcases as [->|Hcases]; [destruct n, z, c, v; reflexivity|]).
    subst. destruct n, z, c, v; reflexivity.
  - intros Hout. f_equal.
    repeat match goal with
           | |- context [condition =? ?k] =>
             destruct (Z.eqb_spec condition k); [lia|]
           end.
    reflexivity.
Qed.

End Conditions.

(** X20 on GE and LT in the initial state. *)
Lemma conditions_are_complementary_witness :
  exists b, Executor.check_condition 0xA (Executor.Executor_init None)
            = Ok b (Executor.Executor_init None)
            /\ Executor.check_condition 0xB (Executor.Executor_init None)
               = Ok (negb b) (Executor.Executor_init None).
Proof.
  destruct (conditions_are_complementary (Executor.Executor_init None) 0xA) as [H _].
  apply H. lia.
Defined.

(** * Thumb instructions that are decoded and skipped *)

Section ThumbSkipped.
Import Executor.

Lemma thumb_alu_fields (i : Z) :
  Z.land (Z.shiftr i 10) 63 = 16 ->
  Z.land (Z.shiftr i 13) 7 = 2 /\ Z.land (Z.shiftr i 11) 31 = 8
  /\ 0 <= Z.land (Z.shiftr i 6) 0xF < 16.
Proof.
  intros H. split; [|split].
  - change 63 with (Z.ones 6) in H. change 7 with (Z.ones 3).
    rewrite Z.land_ones, Z.shiftr_div_pow2 in * by lia.
    replace (i / 2 ^ 13) with (i / 2 ^ 10 / 2 ^ 3)
      by (rewrite Z.div_div by lia; reflexivity).
    generalize dependent (i / 2 ^ 10). intros q H.
    change (2 ^ 6) with 64 in *. change (2 ^ 3) with 8 in *.
    Z.div_mod_to_equations. lia.
  - change 63 with (Z.ones 6) in H. change 31 with (Z.ones 5).
    rewrite Z.land_ones, Z.shiftr_div_pow2 in * by lia.
    replace (i / 2 ^ 11) with (i / 2 ^ 10 / 2 ^ 1)
      by (rewrite Z.div_div by lia; reflexivity).
    generalize dependent (i / 2 ^ 10). intros q H.
    change (2 ^ 6) with 64 in *. change (2 ^ 5) with 32 in *.
    change (2 ^ 1) with 2 in *.
    Z.div_mod_to_equations. lia.
  - apply (land_mask_range _ 15 4); [lia|split; [lia|reflexivity]].
Qed.

(** The lines the two groups leave on the console. *)
Definition skipped_shifts : list string := ["T_LSL"; "T_LSR"; "T_ASR"].
Definition skipped_alu_ops : list string :=
  ["T_LSL"; "T_LSR"; "T_ASR"; "T_ADC"; "T_SBC"; "T_ROR"; "T_TST"; "T_NEG";
   "T_CMN"; "T_BIC"; "T_MVN"].

(** X21.  Thumb shifts and most Thumb ALU operations are decoded and
    skipped.  A shift by an immediate (bits 15 to 13 zero, bits 12 and 11 not
    both set) and a register ALU operation (bits 15 to 10 equal to 010000)
    other than AND, EOR, CMP, ORR and MUL (operation numbers 0, 1, 10, 12
    and 13) change nothing but the console, where they leave the line for an
    unimplemented instruction: no register, flag or memory cell is
    touched. *)
Theorem thumb_shifts_and_alu_ops_skipped (s : Executor) (i : Z) :
  (Z.land (Z.shiftr i 13) 7 = 0 -> Z.land (Z.shiftr i 11) 31 <> 3 ->
   exists m, In m skipped_shifts
             /\ execute_thumb_instruction i s
                = Ok tt (with_stdout (stdout s ++ [Unimplemented m]) s))
  /\ (Z.land (Z.shiftr i 10) 63 = 16 ->
      ~ In (Z.land (Z.shiftr i 6) 0xF) [0; 1; 10; 12; 13] ->
      exists m, In m skipped_alu_ops
                /\ execute_thumb_instruction i s
                   = Ok tt (with_stdout (stdout s ++ [Unimplemented m]) s)).
Proof.
  split.
  - intros H13 H11.
    pose proof (thumb_shift_type_range i ltac:(now apply Z.eqb_neq)
                                       ltac:(now apply Z.eqb_eq)) as Hrange.
    unfold execute_thumb_instruction, FixedThumbDecoder.decode_thumb_instruction.
    rewrite H13. apply Z.eqb_neq in H11. rewrite H11.
    cbn [Z.eqb].
    assert (Z.land (Z.shiftr i 11) 3 = 0 \/ Z.land (Z.shiftr i 11) 3 = 1
            \/ Z.land (Z.shiftr i 11) 3 = 2) as [E|[E|E]] by lia;
      rewrite E; eexists; (split; [|reflexivity]); cbn; tauto.
  - intros H10 Hop.
    destruct (thumb_alu_fields i H10) as (H13 & H11 & Hrange).
    unfold execute_thumb_instruction, FixedThumbDecoder.decode_thumb_instruction.
    rewrite H13, H11, H10. cbn [Z.eqb Pos.eqb].
    assert (forall k, In k [0; 1; 10; 12; 13] -> Z.land (Z.shiftr i 6) 0xF <> k)
      as Hne by (intros k Hk E; apply Hop; now rewrite E).
    pose proof (Hne 0 ltac:(cbn; tauto)). pose proof (Hne 1 ltac:(cbn; tauto)).
    pose proof (Hne 10 ltac:(cbn; tauto)). pose proof (Hne 12 ltac:(cbn; tauto)).
    pose proof (Hne 13 ltac:(cbn; tauto)).
    assert (Z.land (Z.shiftr i 6) 0xF = 2 \/ Z.land (Z.shiftr i 6) 0xF = 3
            \/ Z.land (Z.shiftr i 6) 0xF = 4 \/ Z.land (Z.shiftr i 6) 0xF = 5
            \/ Z.land (Z.shiftr i 6) 0xF = 6 \/ Z.land (Z.shiftr i 6) 0xF = 7
            \/ Z.land (Z.shiftr i 6) 0xF = 8 \/ Z.land (Z.shiftr i 6) 0xF = 9
            \/ Z.land (Z.shiftr i 6) 0xF = 11 \/ Z.land (Z.shiftr i 6) 0xF = 14
            \/ Z.land (Z.shiftr i 6) 0xF = 15) as Hcases by lia.
    clear Hop Hne.
    repeat (destruct Hcases as [E|Hcases];
            [rewrite E; eexists; (split; [|reflexivity]); cbn; tauto|]).
    rewrite Hcases. eexists. split; [|reflexivity]. cbn. tauto.
Qed.

End ThumbSkipped.

(** X21 on [LSL R0, R1, #4] ([0x0108]) with R1 = [0x100]: R0 keeps its
    value. *)
Lemma thumb_shifts_and_alu_ops_skipped_witness :
  Executor.registers
    (final_state (Executor.execute_thumb_instruction 0x0108 (store_state None)))
  = Executor.registers (store_state None).
Proof.
  destruct (thumb_shifts_and_alu_ops_skipped (store_state None) 0x0108) as [H _].
  destruct (H eq_refl ltac:(discriminate)) as (m & _ & ->). reflexivity.
Defined.

(** * Thumb add and subtract with three operands *)

Section ThumbFormat2.
Import Executor.

Lemma thumb_format2_fields (i : Z) :
  Z.land (Z.shiftr i 11) 31 = 3 ->
  Z.land (Z.shiftr i 13) 7 = 0
  /\ 0 <= Z.land i 0x7 < 16 /\ 0 <= Z.land (Z.shiftr i 3) 0x7 < 16.
Proof.
  intros H. split; [|split].
  - change 31 with (Z.ones 5) in H. change 7 with (Z.ones 3).
    rewrite Z.land_ones, Z.shiftr_div_pow2 in * by lia.
    replace (i / 2 ^ 13) with (i / 2 ^ 11 / 2 ^ 2)
      by (rewrite Z.div_div by lia; reflexivity).
    generalize dependent (i / 2 ^ 11). intros q H.
    change (2 ^ 5) with 32 in *. change (2 ^ 3) with 8 in *.
    change (2 ^ 2) with 4 in *.
    Z.div_mod_to_equations. lia.
  - pose proof (land_mask_range i 7 3 ltac:(lia) ltac:(split; [lia|reflexivity])).
    change (2 ^ 3) with 8 in *. lia.
  - pose proof (land_mask_range (Z.shiftr i 3) 7 3 ltac:(lia)
                                ltac:(split; [lia|reflexivity])).
    change (2 ^ 3) with 8 in *. lia.
Qed.

(** X22.  What the three-operand Thumb add and subtract compute.  For an
    instruction of Format 2 (bits 15 to 11 equal to 00011) with destination
    field [rd], source field [rs] and third field [rn], the register form
    writes [Rd + Rs] or [Rd - Rs] (mod 2^32) to [Rd] and never reads [Rn];
    the immediate form writes [Rd + rn] or [Rd - rn] and never reads [Rs].
    The destination register is always one of the two operands. *)
Theorem thumb_three_operand_arithmetic (s : Executor) (i a b : Z) :
  let rd := Z.land i 0x7 in
  let rs := Z.land (Z.shiftr i 3) 0x7 in
  let rn := Z.land (Z.shiftr i 6) 0x7 in
  let immediate_form := truthy (Z.land (Z.shiftr i 10) 1) in
  let subtract := truthy (Z.land (Z.shiftr i 9) 1) in
  let operand := if immediate_form then rn else b in
  Z.land (Z.shiftr i 11) 31 = 3 ->
  sixteen s ->
  registers s !! Z.to_nat rd = Some a ->
  registers s !! Z.to_nat rs = Some b ->
  execute_thumb_instruction i s
  = Ok tt (with_registers
             (<[Z.to_nat rd := (if subtract then a - operand else a + operand)
                               mod 2 ^ 32]> (registers s)) s).
Proof.
  intros rd rs rn immediate_form subtract operand H11 Hlen Ha Hb.
  destruct (thumb_format2_fields i H11) as (H13 & Hrd & Hrs).
  subst operand.
  unfold execute_thumb_instruction, FixedThumbDecoder.decode_thumb_instruction.
  rewrite H13, H11. cbn [Z.eqb Pos.eqb].
  fold rd rs rn immediate_form subtract.
  destruct immediate_form, subtract;
    rewrite (bind_ok (lift (inr _)) _ s s _ eq_refl);
    match goal with
    | |- dispatch_thumb "T_SUB_IMM" ?o _ = _ =>
      change (dispatch_thumb "T_SUB_IMM" o) with (execute_thumb_sub_imm o);
      unfold execute_thumb_sub_imm
    | |- dispatch_thumb "T_ADD_IMM" ?o _ = _ =>
      change (dispatch_thumb "T_ADD_IMM" o) with (execute_thumb_add_imm o);
      unfold execute_thumb_add_imm
    | |- dispatch_thumb "T_SUB" ?o _ = _ =>
      change (dispatch_thumb "T_SUB" o) with (execute_thumb_sub o);
      unfold execute_thumb_sub
    | |- dispatch_thumb "T_ADD" ?o _ = _ =>
      change (dispatch_thumb "T_ADD" o) with (execute_thumb_add o);
      unfold execute_thumb_add
    end;
    unfold arg; cbn [getitem dict_get String.eqb Ascii.eqb Bool.eqb];
    rewrite !(bind_ok (lift (inr _)) _ s s _ eq_refl);
    rewrite ?(bind_ok _ _ _ _ _ (reg_ok s rd a Hlen Hrd Ha));
    rewrite ?(bind_ok _ _ _ _ _ (reg_ok s rs b Hlen Hrs Hb));
    rewrite set_reg_ok by assumption;
    now rewrite mask32_mod.
Qed.

End ThumbFormat2.

(** X22 on [ADD R0, R1, R2] ([0x1888]) with R0 = [0xCAFE], R1 = [0x100] and
    R2 = 0: the architecture's R1 + R2 would be [0x100]; R0 becomes
    R0 + R1. *)
Lemma thumb_three_operand_arithmetic_witness :
  Executor.execute_thumb_instruction 0x1888 (store_state None)
  = Ok tt (Executor.with_registers
             (<[0%nat := 0xCBFE]> (Executor.registers (store_state None)))
             (store_state None)).
Proof.
  apply (thumb_three_operand_arithmetic (store_state None) 0x1888 0xCAFE 0x100);
    reflexivity.
Defined.

(** * Call and return *)

Section CallReturn.
Import Executor.

Lemma arm_branch_link_effect (s : Executor) (instruction pc : Z) :
  sixteen s -> registers s !! 15%nat = Some pc ->
  fst (ARMDecoder.decode_instruction instruction) = "BL" ->
  exists target,
    execute_arm_instruction instruction s
    = Ok tt (with_registers
               (<[15%nat := target]> (<[14%nat := pc + 4]> (registers s))) s).
Proof.
  intros Hlen Hpc Hm. unfold execute_arm_instruction.
  rewrite (arm_decode_branch instruction "BL" ltac:(auto) Hm).
  change (dispatch_arm "BL" ?ops) with (execute_arm_branch_link ops).
  unfold execute_arm_branch_link, arg.
  cbn [getitem dict_get String.eqb Ascii.eqb Bool.eqb].
  rewrite (bind_ok (lift (inr _)) _ s s _ eq_refl).
  rewrite (bind_ok _ _ _ _ _ (reg_ok s PC pc Hlen ltac:(unfold PC; lia) Hpc)).
  rewrite (bind_ok _ _ _ _ _ (set_reg_ok s LR (pc + 4) Hlen ltac:(unfold LR; lia))).
  erewrite (bind_ok (reg PC) _ _ _ pc);
    [|apply reg_ok;
      [unfold sixteen; cbn; now rewrite length_insert
      |unfold PC; lia
      |cbn; rewrite list_lookup_insert_ne by (unfold LR, PC; lia); exact Hpc]].
  rewrite set_reg_ok by
      (unfold PC; try lia; unfold sixteen; cbn; now rewrite length_insert).
  eexists. reflexivity.
Qed.

Lemma aligned_word_address (x : Z) :
  0 <= x < 2 ^ 32 -> x mod 4 = 0 ->
  Z.land x 1 = 0 /\ Z.land x 0xFFFFFFFC = x.
Proof.
  intros Hx Hal. split.
  - change 1 with (Z.ones 1). rewrite Z.land_ones by lia.
    change (2 ^ 1) with 2. Z.div_mod_to_equations. lia.
  - change 0xFFFFFFFC with (Z.shiftl (Z.ones 30) 2).
    rewrite land_shifted_mask by lia.
    rewrite Z.land_ones, Z.shiftr_div_pow2, Z.shiftl_mul_pow2 by lia.
    change (2 ^ 2) with 4. change (2 ^ 30) with 1073741824.
    change (2 ^ 32) with 4294967296 in Hx.
    Z.div_mod_to_equations. lia.
Qed.

(** X23.  Call and return.  An ARM [BL] executed at a word-aligned address
    [pc] below [2^32 - 4] leaves [pc + 4] in the link register; and in any
    later state that still has that value in the link register, [BX LR]
    ([0xE12FFF1E]) puts [pc + 4], the address of the instruction after the
    call, in the program counter and selects ARM mode. *)
Theorem call_and_return (s : Executor) (instruction pc : Z) :
  sixteen s -> registers s !! 15%nat = Some pc ->
  0 <= pc < 2 ^ 32 - 4 -> pc mod 4 = 0 ->
  fst (ARMDecoder.decode_instruction instruction) = "BL" ->
  exists s1,
    execute_arm_instruction instruction s = Ok tt s1
    /\ registers s1 !! 14%nat = Some (pc + 4)
    /\ forall s2,
        sixteen s2 -> registers s2 !! 14%nat = registers s1 !! 14%nat ->
        exists s3,
          execute_arm_instruction 0xE12FFF1E s2 = Ok tt s3
          /\ registers s3 !! 15%nat = Some (pc + 4)
          /\ mode s3 = ARM.
Proof.
  intros Hlen Hpc Hrange Haligned Hm.
  destruct (arm_branch_link_effect s instruction pc Hlen Hpc Hm) as [target Hrun].
  eexists. split; [exact Hrun|].
  assert (<[15%nat := target]> (<[14%nat := pc + 4]> (registers s)) !! 14%nat
          = Some (pc + 4)) as Hlr.
  { rewrite list_lookup_insert_ne by lia.
    apply list_lookup_insert_eq. rewrite Hlen. lia. }
  split; [exact Hlr|].
  intros s2 Hlen2 Hsame. cbn [registers with_registers] in Hsame.
  rewrite Hlr in Hsame.
  destruct (aligned_word_address (pc + 4)) as [Hbit Hmask];
    [lia|Z.div_mod_to_equations; lia|].
  change (execute_arm_instruction 0xE12FFF1E) with (execute_arm_bx [("rm", 14)]).
  unfold execute_arm_bx, arg.
  cbn [getitem dict_get String.eqb Ascii.eqb Bool.eqb].
  rewrite (bind_ok (lift (inr _)) _ s2 s2 _ eq_refl).
  rewrite (bind_ok _ _ _ _ _ (reg_ok s2 14 (pc + 4) Hlen2 ltac:(lia) Hsame)).
  unfold truthy. rewrite Hbit, Hmask. cbn [Z.eqb negb].
  rewrite (bind_ok (switch_mode ARM) _ s2 _ tt eq_refl).
  rewrite set_reg_ok by (unfold PC; try lia; exact Hlen2).
  eexists. split; [reflexivity|]. split; [|reflexivity].
  cbn. apply list_lookup_insert_eq. unfold sixteen in Hlen2. rewrite Hlen2.
  unfold PC. lia.
Qed.

End CallReturn.

(** X23 on [BL] with a zero offset ([0xEB000000]) at address 0. *)
Lemma call_and_return_witness :
  exists s1,
    Executor.execute_arm_instruction 0xEB000000 (Executor.Executor_init None) = Ok tt s1
    /\ exists s3, Executor.execute_arm_instruction 0xE12FFF1E s1 = Ok tt s3
                  /\ Executor.registers s3 !! 15%nat = Some 4.
Proof.
  destruct (call_and_return (Executor.Executor_init None) 0xEB000000 0)
    as (s1 & Hrun & Hlr & Hret); try reflexivity; try lia.
  exists s1. split; [exact Hrun|].
  destruct (Hret s1) as (s3 & Hbx & Hpc & _); [|reflexivity|].
  - injection Hrun as <-. reflexivity.
  - exists s3. split; assumption.
Defined.

(** * The mode names of the unified decoder *)

Section DecoderModes.
Import EnhancedARMDecoder.

(** X24.  The mode names of the unified decoder disagree.  Whatever name
    [set_mode] accepts other than [ARM] (the only one is [Thumb]) makes
    [decode_instruction] return the string [UNKNOWN MODE] instead of a
    decoding, for every instruction; and the name that does select the
    Thumb decoder in [decode_instruction], [THUMB], is refused by
    [set_mode] with [ValueError]. *)
Theorem decoder_mode_names_disagree (mode st : string) (instruction : Z) :
  (forall st', set_mode mode st = Ok tt st' ->
               st' = mode
               /\ (mode <> "ARM" ->
                   decode_instruction instruction mode st' = Ok UnknownMode st'))
  /\ (mode = "Thumb" -> set_mode mode st = Ok tt mode)
  /\ (mode = "THUMB" ->
      set_mode mode st = Raise ValueError st
      /\ decode_instruction instruction mode st
         = match FixedThumbDecoder.decode_thumb_instruction instruction with
           | inr (m, ops) => Ok (Instruction m ops) st
           | inl e => Raise e st
           end).
Proof.
  split; [|split].
  - intros st'. unfold set_mode, decode_instruction.
    destruct (String.eqb mode "ARM") eqn:Earm.
    + apply String.eqb_eq in Earm. cbn. intros [= <-].
      split; [reflexivity|]. intros Hne. contradiction.
    + destruct (String.eqb mode "Thumb") eqn:Ethumb; cbn; [|discriminate].
      apply String.eqb_eq in Ethumb. intros [= <-].
      split; [reflexivity|]. intros _. subst mode. reflexivity.
  - intros ->. reflexivity.
  - intros ->. split; [reflexivity|].
    unfold decode_instruction, bind, lift. cbn [String.eqb Ascii.eqb Bool.eqb].
    destruct (FixedThumbDecoder.decode_thumb_instruction instruction)
      as [e|[m ops]]; reflexivity.
Qed.

End DecoderModes.

(** X24 on [Thumb], the name the executor passes to [set_mode], and the
    Thumb instruction [0x2005]. *)
Lemma decoder_mode_names_disagree_witness :
  EnhancedARMDecoder.decode_instruction 0x2005 "Thumb" "Thumb"
  = Ok EnhancedARMDecoder.UnknownMode "Thumb".
Proof.
  destruct (decoder_mode_names_disagree "Thumb" "ARM" 0x2005) as [H _].
  destruct (H "Thumb" eq_refl) as [_ Hdec].
  apply Hdec. discriminate.
Defined.
